(** * RadarLPDP acquisition pipeline: a shallow embedding of [cadgetdata.c]

    The development follows the C sources of the PCI-9846H acquisition
    programs: [src/cadgetdata.c] (four hardware channels, CH1 and CH3 kept),
    its older sibling [src/CodeTriggerExtBaru/ori.c] (two channels, no
    channel selection), and of [src/CodeTriggerExtBaru/fft_zero.c] the
    flush, the loop that feeds its spectral stage, and the spectral stage.

    - 16-bit samples ([U16]) and bytes are integers of [Z];
    - [float] and [double] are the binary32 and binary64 formats of IEEE
      754, with the operations of the standard library's [SpecFloat];
    - [size_t] arithmetic is written with its wrap-around ([size_t]);
    - the C heap is a finite map from block identifiers to byte lists;
    - files are a finite map from path names to byte lists; the calls into
      stdio and the Win32 file API that act on files, and the messages of
      [save_batch_to_file], are recorded in program order in a trace of
      [io_op];
    - everything the program does not control (the driver's answers, the
      contents of the DMA buffers, the success of [realloc] and [fopen], the
      ESC key, the wall clock) is an explicit input record;
    - undefined behaviour of C (an access outside an object) and [exit(1)]
      are outcomes of their own. *)

From stdpp Require Import gmap strings list fin_maps.
From Stdlib Require Import ZArith Lia SpecFloat.

Open Scope Z_scope.

(** ** Compile-time configuration ([#define]s and the static selection table) *)

Record config := Config {
  BUFFER_SAMPLES : Z;          (* scans per half buffer *)
  TOTAL_HW_CHANNELS : Z;       (* channels scanned by the card, CH0.. *)
  SELECTED_IDX : list Z;       (* static const int SELECTED_IDX[] *)
  MAX_EVENT_BATCH : Z          (* capacity of g_data_buffer *)
}.

(** The values of [src/cadgetdata.c]. *)
Definition cadgetdata_config : config :=
  {| BUFFER_SAMPLES := 8192; TOTAL_HW_CHANNELS := 4;
     SELECTED_IDX := [1; 3]; MAX_EVENT_BATCH := 1000 |}.

(** [SELECTED_COUNT] is [sizeof(SELECTED_IDX)/sizeof(SELECTED_IDX[0])]. *)
Definition SELECTED_COUNT (cfg : config) : Z := Z.of_nat (length (SELECTED_IDX cfg)).

(** ** Machine arithmetic *)

(** [size_t] of the 64-bit Windows target: unsigned, 64 bits wide. *)
Definition SIZE_WIDTH : Z := 64.
Definition size_t (z : Z) : Z := z mod 2 ^ SIZE_WIDTH.

(** ** Calls and outcomes *)

(** The calls into stdio and the Win32 file API, in program order. *)
Inductive io_op :=
  | Printf (text : list Z)
  | FOpen (path : list Z) (ok : bool)            (* fopen(path, "wb") *)
  | FWrite (path : list Z) (bytes : list Z)      (* fwrite on the stream of path *)
  | FClose (path : list Z)
  | MoveFile (from to : list Z) (ok : bool).     (* MoveFileExA(from, to, REPLACE_EXISTING | WRITE_THROUGH) *)

(** A computation ends in one of four ways; when the process exits, or when
    the recorded environment ends inside a wait loop, the calls made so far
    are kept. *)
Inductive outcome (A : Type) : Type :=
  | Ok (a : A)                    (* the statement ran to its end *)
  | Undefined                     (* an access outside an object: undefined behaviour *)
  | Exited (tr : list io_op)      (* print_error_and_cleanup: the process called exit(1) *)
  | Stalled (tr : list io_op).    (* the recorded environment ended inside a wait loop *)
Arguments Ok {A} a.
Arguments Undefined {A}.
Arguments Exited {A} tr.
Arguments Stalled {A} tr.

#[global] Instance outcome_ret : MRet outcome := fun A a => Ok a.
#[global] Instance outcome_bind : MBind outcome := fun A B f m =>
  match m with
  | Ok a => f a
  | Undefined => Undefined
  | Exited tr => Exited tr
  | Stalled tr => Stalled tr
  end.

(** Reading [a[i]] from an array object: defined only inside the object. *)
Definition load {A} (a : list A) (i : Z) : outcome A :=
  if decide (0 <= i) then
    match a !! Z.to_nat i with
    | Some v => Ok v
    | None => Undefined
    end
  else Undefined.

(** Writing [a[i] = v]. *)
Definition store {A} (a : list A) (i : Z) (v : A) : outcome (list A) :=
  if decide (0 <= i < Z.of_nat (length a)) then Ok (<[Z.to_nat i := v]> a)
  else Undefined.

(** [for (i = start; i < start + n; ++i) body], for a loop whose trip count
    [n] is known on entry. *)
Fixpoint for_range {S} (n : nat) (i : Z) (body : Z -> S -> outcome S) (s : S)
  : outcome S :=
  match n with
  | O => Ok s
  | Datatypes.S n' => s' ← body i s; for_range n' (i + 1) body s'
  end.

(** ** Channel selector: [extract_selected_channels] *)

(** The body of the inner loop: [ch = SELECTED_IDX[k]; dst[out++] = src[base + ch]].
    The state is the destination buffer and the cursor [out]. *)
Definition extract_slot (cfg : config) (src : list Z) (base : Z) (k : Z)
    (st : list Z * Z) : outcome (list Z * Z) :=
  let '(dst, out) := st in
  ch ← load (SELECTED_IDX cfg) k;
  v ← load src (size_t (base + ch));
  dst' ← store dst out v;
  Ok (dst', size_t (out + 1)).

(** The body of the outer loop, one scan. *)
Definition extract_scan (cfg : config) (src : list Z) (i : Z)
    (st : list Z * Z) : outcome (list Z * Z) :=
  let base := size_t (i * TOTAL_HW_CHANNELS cfg) in
  for_range (length (SELECTED_IDX cfg)) 0 (extract_slot cfg src base) st.

(** [extract_selected_channels(src, dst)]: returns the destination buffer
    after the call, with the final value of the cursor [out]. *)
Definition extract_selected_channels (cfg : config) (src dst : list Z)
  : outcome (list Z * Z) :=
  for_range (Z.to_nat (BUFFER_SAMPLES cfg)) 0 (extract_scan cfg src) (dst, 0).

(** Every slot of the destination below the cursor holds the sample of its
    scan and channel: the loop invariant of the extraction. *)
Definition filled (cfg : config) (src dst : list Z) (st : list Z * Z) : Prop :=
  length st.1 = length dst /\
  forall (i : Z) (k : nat) (c : Z),
    0 <= i -> SELECTED_IDX cfg !! k = Some c ->
    i * SELECTED_COUNT cfg + Z.of_nat k < st.2 ->
    st.1 !! Z.to_nat (i * SELECTED_COUNT cfg + Z.of_nat k)
    = src !! Z.to_nat (i * TOTAL_HW_CHANNELS cfg + c).

(** The extraction as the specification words it: for each scan in order,
    for each selection entry in declared order, the sample
    [src[i * hardware_channel_count + selection[k]]]. *)
Definition extracted (cfg : config) (src : list Z) : list Z :=
  seqZ 0 (BUFFER_SAMPLES cfg) ≫= fun i =>
    (fun c => default 0 (src !! Z.to_nat (i * TOTAL_HW_CHANNELS cfg + c)))
      <$> SELECTED_IDX cfg.

(** What the channel selector relies on: the selection names scanned
    channels, and a half buffer and its extract are objects that fit in the
    address space. *)
Definition selection_wf (cfg : config) : Prop :=
  0 <= BUFFER_SAMPLES cfg /\
  Forall (fun c => 0 <= c < TOTAL_HW_CHANNELS cfg) (SELECTED_IDX cfg) /\
  BUFFER_SAMPLES cfg * TOTAL_HW_CHANNELS cfg < 2 ^ SIZE_WIDTH /\
  BUFFER_SAMPLES cfg * SELECTED_COUNT cfg < 2 ^ SIZE_WIDTH.

(** The configurations the programs are built for: as above, and the size
    in bytes of an extract fits in [size_t]. *)
Definition config_wf (cfg : config) : Prop :=
  0 <= BUFFER_SAMPLES cfg /\
  Forall (fun c => 0 <= c < TOTAL_HW_CHANNELS cfg) (SELECTED_IDX cfg) /\
  BUFFER_SAMPLES cfg * TOTAL_HW_CHANNELS cfg < 2 ^ SIZE_WIDTH /\
  BUFFER_SAMPLES cfg * SELECTED_COUNT cfg * 2 < 2 ^ SIZE_WIDTH.

(** The configuration of the worked scenario: selection {1,3} over four
    channels, two scans per half buffer. *)
Definition scenario_config : config :=
  {| BUFFER_SAMPLES := 2; TOTAL_HW_CHANNELS := 4;
     SELECTED_IDX := [1; 3]; MAX_EVENT_BATCH := 1000 |}.

(** ** Bytes, text and [printf] formats *)

(** A [U16] sample as it lies in memory on the little-endian target. *)
Definition u16_bytes (v : Z) : list Z := [v mod 256; (v / 256) mod 256].

(** The object representation of a [U16] array. *)
Definition bytes_of_u16s (l : list Z) : list Z := l ≫= u16_bytes.

(** The characters of a C string literal, as byte values. *)
Definition str (s : string) : list Z :=
  (fun a => Z.of_N (Ascii.N_of_ascii a)) <$> String.list_ascii_of_string s.

(** The newline character. *)
Definition NL : Z := 10.

(** Decimal digits of a non-negative [int], most significant first; an
    [int] has at most ten of them. *)
Fixpoint dec_digits (fuel : nat) (n : Z) : list Z :=
  match fuel with
  | O => []
  | Datatypes.S f =>
      (if n <? 10 then [] else dec_digits f (n / 10)) ++ [48 + n mod 10]
  end.

(** Zero padding on the left up to [w] characters. *)
Definition pad0 (w : nat) (ds : list Z) : list Z :=
  replicate (w - length ds) 48 ++ ds.

(** The conversion [%0wd]; [%d] is [fmt_0d 0]. *)
Definition fmt_0d (w : nat) (z : Z) : list Z :=
  if z <? 0 then 45 :: pad0 (w - 1) (dec_digits 10 (- z))
  else pad0 w (dec_digits 10 z).
Definition fmt_d (z : Z) : list Z := fmt_0d 0 z.

(** [snprintf(buf, size, ...)] keeps at most [size - 1] characters. *)
Definition snprintf (size : Z) (text : list Z) : list Z :=
  take (Z.to_nat (size - 1)) text.

(** [MAX_PATH] of [windows.h]. *)
Definition MAX_PATH : Z := 260.

Definition LOG_FOLDER : list Z := str "log".
Definition LIVE_FOLDER : list Z := str "live".
Definition LIVE_UI_FILENAME : list Z := str "live_acquisition_ui.bin".
Definition CODE_VERSION : list Z := str "Code trigger V.3".
Definition AUTHOR_NAME : list Z := str "Raihan Muhammad".

(** The fields of [struct tm] that the program reads. *)
Record tm := Tm {
  tm_year : Z; tm_mon : Z; tm_mday : Z; tm_hour : Z; tm_min : Z; tm_sec : Z
}.

(** ** The heap *)

(** Blocks obtained from [realloc]; a pointer is a block identifier and
    [None] is [NULL].  Every event buffer is only ever addressed from its
    first byte. *)
Abbreviation heap_t := (gmap positive (list Z)).

Record AcquisitionData := Acq { data : option positive; size : Z }.

(** [realloc(p, n)]; [ok] tells whether the allocator finds the memory.
    On success the old block is released and a block of [n] bytes that
    begins with the old contents is returned; the new tail is 0 here and is
    overwritten by the caller before it is read. *)
Definition realloc (h : heap_t) (p : option positive) (n : Z) (ok : bool)
  : outcome (option positive * heap_t) :=
  match p with
  | None =>
      if ok then
        let q := fresh (dom h) in
        Ok (Some q, <[q := replicate (Z.to_nat n) 0]> h)
      else Ok (None, h)
  | Some p0 =>
      match h !! p0 with
      | None => Undefined
      | Some old =>
          if ok then
            let h0 := delete p0 h in
            let q := fresh (dom h0) in
            Ok (Some q, <[q := take (Z.to_nat n)
                                 (old ++ replicate (Z.to_nat n - length old) 0)]> h0)
          else Ok (None, h)
      end
  end.

(** [free(p)]; [free(NULL)] does nothing. *)
Definition free (h : heap_t) (p : option positive) : outcome heap_t :=
  match p with
  | None => Ok h
  | Some p0 =>
      match h !! p0 with
      | None => Undefined
      | Some _ => Ok (delete p0 h)
      end
  end.

(** [memcpy((char* )p + off, src, n)]. *)
Definition memcpy (h : heap_t) (p : positive) (off : Z) (src : list Z) (n : Z)
  : outcome heap_t :=
  match h !! p with
  | None => Undefined
  | Some blk =>
      if decide (0 <= off ∧ 0 <= n ∧ off + n <= Z.of_nat (length blk)
                 ∧ n <= Z.of_nat (length src)) then
        Ok (<[p := take (Z.to_nat off) blk ++ take (Z.to_nat n) src
                    ++ drop (Z.to_nat (off + n)) blk]> h)
      else Undefined
  end.

(** The [n] bytes that [fwrite(p, 1, n, f)] reads. *)
Definition read_block (h : heap_t) (p : option positive) (n : Z)
  : outcome (list Z) :=
  match p with
  | None => if decide (n = 0) then Ok [] else Undefined
  | Some p0 =>
      match h !! p0 with
      | None => Undefined
      | Some blk =>
          if decide (0 <= n <= Z.of_nat (length blk)) then Ok (take (Z.to_nat n) blk)
          else Undefined
      end
  end.

(** ** Files *)

(** What each call does to the files on disk.  [MoveFileExA] replaces the
    destination in one step. *)
Definition fs_step (fs : gmap (list Z) (list Z)) (op : io_op)
  : gmap (list Z) (list Z) :=
  match op with
  | Printf _ => fs
  | FOpen p ok => if ok then <[p := []]> fs else fs
  | FWrite p bs =>
      match fs !! p with
      | Some old => <[p := old ++ bs]> fs
      | None => fs
      end
  | FClose _ => fs
  | MoveFile a b ok =>
      match fs !! a with
      | Some c => if ok then <[b := c]> (delete a fs) else fs
      | None => fs
      end
  end.

Definition fs_run (fs : gmap (list Z) (list Z)) (ops : list io_op)
  : gmap (list Z) (list Z) :=
  foldl fs_step fs ops.

(** ** Program state *)

Record world := World {
  heap : heap_t;
  g_data_buffer : list AcquisitionData;     (* AcquisitionData[MAX_EVENT_BATCH] *)
  g_buffered_count : Z;
  io : list io_op
}.

(** Static storage at program start. *)
Definition world0 (cfg : config) : world :=
  {| heap := ∅;
     g_data_buffer := replicate (Z.to_nat (MAX_EVENT_BATCH cfg)) (Acq None 0);
     g_buffered_count := 0;
     io := [] |}.

Definition emit (ops : list io_op) (w : world) : world :=
  {| heap := heap w; g_data_buffer := g_data_buffer w;
     g_buffered_count := g_buffered_count w; io := io w ++ ops |}.

(** ** Batch flush: [save_batch_to_file] *)

(** What the environment decides during one call: the clock and whether
    [fopen] succeeds. *)
Record flush_env := FlushEnv { f_time : tm; f_open : bool }.

Definition log_filepath (t : tm) (count : Z) : list Z :=
  snprintf MAX_PATH
    (LOG_FOLDER ++ str "\batch_log_"
     ++ fmt_0d 4 (tm_year t + 1900) ++ fmt_0d 2 (tm_mon t + 1) ++ fmt_0d 2 (tm_mday t)
     ++ str "_" ++ fmt_0d 2 (tm_hour t) ++ fmt_0d 2 (tm_min t) ++ fmt_0d 2 (tm_sec t)
     ++ str "_" ++ fmt_0d 4 count ++ str "_evt.bin").

(** The lines of the header, each without its newline. *)
Definition header_lines (t : tm) (count : Z) : list (list Z) :=
  [ str "TEST_DATE:" ++ fmt_0d 4 (tm_year t + 1900) ++ str "-" ++ fmt_0d 2 (tm_mon t + 1)
      ++ str "-" ++ fmt_0d 2 (tm_mday t) ++ str " " ++ fmt_0d 2 (tm_hour t)
      ++ str ":" ++ fmt_0d 2 (tm_min t) ++ str ":" ++ fmt_0d 2 (tm_sec t);
    str "CODE_VERSION:" ++ CODE_VERSION;
    str "AUTHOR:" ++ AUTHOR_NAME;
    str "BATCH_EVENT_COUNT:" ++ fmt_d count;
    str "SAVED_CHANNELS:CH1,CH3";
    str "INTERLEAVE_ORDER:CH1,CH3" ].

(** [char header[512]; snprintf(header, sizeof(header), ...)]: every line
    ends in a newline and one more newline ends the header. *)
Definition header (t : tm) (count : Z) : list Z :=
  snprintf 512 ((header_lines t count ≫= fun l => l ++ [NL]) ++ [NL]).

(** One turn of the write loop: write event [i], free it, clear its slot. *)
Definition save_event (path : list Z) (i : Z) (w : world) : outcome world :=
  slot ← load (g_data_buffer w) i;
  bytes ← read_block (heap w) (data slot) (size slot);
  h' ← free (heap w) (data slot);
  buf' ← store (g_data_buffer w) i (Acq None 0);
  Ok {| heap := h'; g_data_buffer := buf';
        g_buffered_count := g_buffered_count w;
        io := io w ++ [FWrite path bytes] |}.

(** [save_batch_to_file].  The programs of the repository differ only in
    the header they write and in the wording of the success message, which
    are the parameters [hdr] and [saved]. *)
Definition save_batch_with (hdr : tm -> Z -> list Z) (saved : list Z)
    (fe : flush_env) (w : world) : outcome world :=
  if decide (g_buffered_count w = 0) then Ok w
  else
    let path := log_filepath (f_time fe) (g_buffered_count w) in
    if f_open fe then
      let w1 := emit [FOpen path true;
                      FWrite path (hdr (f_time fe) (g_buffered_count w))] w in
      w2 ← for_range (Z.to_nat (g_buffered_count w)) 0 (save_event path) w1;
      Ok {| heap := heap w2; g_data_buffer := g_data_buffer w2;
            g_buffered_count := 0;
            io := io w2 ++ [FClose path;
                            Printf (str "Batch " ++ fmt_d (g_buffered_count w)
                                    ++ saved ++ path
                                    ++ str " (header+data)" ++ [NL])] |}
    else
      Ok (emit [FOpen path false;
                Printf (str "KRITIS: Gagal membuat file batch log: " ++ path ++ [NL])] w).

Definition save_batch_to_file : flush_env -> world -> outcome world :=
  save_batch_with header (str " event disimpan ke ").

(** ** Half-buffer drain loop *)

Definition live_filepath_tmp : list Z :=
  snprintf MAX_PATH (LIVE_FOLDER ++ str "\live_acquisition_ui.tmp").
Definition live_filepath_final : list Z :=
  snprintf MAX_PATH (LIVE_FOLDER ++ str "\" ++ LIVE_UI_FILENAME).

(** [sel_chunk_samps] and [sel_chunk_bytes], computed in [size_t]. *)
Definition sel_chunk_samps (cfg : config) : Z :=
  size_t (BUFFER_SAMPLES cfg * SELECTED_COUNT cfg).
Definition sel_chunk_bytes (cfg : config) : Z :=
  size_t (sel_chunk_samps cfg * 2).

(** What the environment decides during one turn of the drain loop: the
    answer of [WD_AI_AsyncDblBufferHalfReady], the contents of the two DMA
    buffers at that moment, whether [realloc] finds memory, and whether ESC
    was pressed. *)
Record poll := Poll {
  p_halfReady : bool;
  p_fStop : bool;
  p_ai_buf : list Z;
  p_ai_buf2 : list Z;
  p_realloc_ok : bool;
  p_esc : bool
}.

(** The locals of one trigger cycle that the drain loop changes, with the
    heap and the I/O trace. *)
Record drain_state := Drain {
  d_heap : heap_t;
  current_acq_buffer : option positive;
  current_acq_size : Z;
  sel_work : list Z;
  current_buffer_idx : Z;
  g_fStop : bool;
  exit_now : bool;
  d_io : list io_op
}.

(** The branch [if (halfReady) { ... }]; [f_out_live] tells whether the
    live temporary file is open. *)
Definition drain_half (cfg : config) (f_out_live : bool) (p : poll)
    (st : drain_state) : outcome drain_state :=
  let source_buffer :=
    if decide (current_buffer_idx st = 0) then p_ai_buf p else p_ai_buf2 p in
  '(work, _) ← extract_selected_channels cfg source_buffer (sel_work st);
  '(new_buffer, h1) ← realloc (d_heap st) (current_acq_buffer st)
                        (size_t (current_acq_size st + sel_chunk_bytes cfg))
                        (p_realloc_ok p);
  match new_buffer with
  | None =>
      h2 ← free h1 (current_acq_buffer st);
      Ok {| d_heap := h2; current_acq_buffer := None; current_acq_size := 0;
            sel_work := work;
            current_buffer_idx := 1 - current_buffer_idx st;
            g_fStop := true; exit_now := exit_now st; d_io := d_io st |}
  | Some q =>
      h2 ← memcpy h1 q (current_acq_size st) (bytes_of_u16s work) (sel_chunk_bytes cfg);
      Ok {| d_heap := h2; current_acq_buffer := Some q;
            current_acq_size := size_t (current_acq_size st + sel_chunk_bytes cfg);
            sel_work := work;
            current_buffer_idx := 1 - current_buffer_idx st;
            g_fStop := g_fStop st; exit_now := exit_now st;
            d_io := d_io st ++
                    (if f_out_live
                     then [FWrite live_filepath_tmp
                             (take (Z.to_nat (sel_chunk_bytes cfg)) (bytes_of_u16s work))]
                     else []) |}
  end.

(** One turn of [while (!g_fStop) { ... }]. *)
Definition drain_turn (cfg : config) (f_out_live : bool) (p : poll)
    (st : drain_state) : outcome drain_state :=
  (* WD_AI_AsyncDblBufferHalfReady(card, &halfReady, &g_fStop) *)
  let st0 := {| d_heap := d_heap st; current_acq_buffer := current_acq_buffer st;
                current_acq_size := current_acq_size st; sel_work := sel_work st;
                current_buffer_idx := current_buffer_idx st;
                g_fStop := p_fStop p; exit_now := exit_now st; d_io := d_io st |} in
  st1 ← (if p_halfReady p then drain_half cfg f_out_live p st0 else Ok st0);
  (* if (_kbhit() && _getch() == 27) { g_fStop = 1; exit_now = 1; } *)
  Ok (if p_esc p
      then {| d_heap := d_heap st1; current_acq_buffer := current_acq_buffer st1;
              current_acq_size := current_acq_size st1; sel_work := sel_work st1;
              current_buffer_idx := current_buffer_idx st1;
              g_fStop := true; exit_now := true; d_io := d_io st1 |}
      else st1).

(** The loop, over the recorded polls of this cycle.  It is entered with
    [g_fStop = 0]; it stalls when the record ends before the loop does. *)
Fixpoint drain (cfg : config) (f_out_live : bool) (polls : list poll)
    (st : drain_state) : outcome drain_state :=
  match polls with
  | [] => Stalled (d_io st)
  | p :: rest =>
      st' ← drain_turn cfg f_out_live p st;
      if g_fStop st' then Ok st' else drain cfg f_out_live rest st'
  end.

(** ** One trigger cycle of [main] *)

(** The arming loop [do { ... } while (!(trig_status & 0x4) && !exit_now)]:
    each recorded turn tells whether the trigger bit is set and whether ESC
    was pressed.  The result is [exit_now], or [None] when the record ends
    before the loop does. *)
Fixpoint wait_trigger (turns : list (bool * bool)) : option bool :=
  match turns with
  | [] => None
  | (trig, esc) :: rest =>
      if esc then Some true
      else if trig then Some false
      else wait_trigger rest
  end.

(** What the environment decides during one cycle. *)
Record cycle_env := CycleEnv {
  c_driver_err : bool;               (* a WD_AI_* set-up call returned an error *)
  c_arming : list (bool * bool);
  c_live_open : bool;                (* fopen of the live temporary file *)
  c_sel_work_ok : bool;              (* malloc(sel_chunk_bytes) *)
  c_polls : list poll;
  c_move_ok : bool;                  (* MoveFileExA *)
  c_flush : flush_env                (* used if the batch is flushed *)
}.

(** The end of the cycle: hand the event over to the batch and flush the
    batch when it is full.  [save] is the program's [save_batch_to_file] and
    [max] its [MAX_EVENT_BATCH]. *)
Definition batch_event_with (save : flush_env -> world -> outcome world) (max : Z)
    (fe : flush_env) (current_acq_buffer : option positive) (current_acq_size : Z)
    (w : world) : outcome world :=
  if decide (current_acq_buffer ≠ None ∧ current_acq_size > 0) then
    buf' ← store (g_data_buffer w) (g_buffered_count w)
             (Acq current_acq_buffer current_acq_size);
    let w' := {| heap := heap w; g_data_buffer := buf';
                 g_buffered_count := g_buffered_count w + 1; io := io w |} in
    if decide (g_buffered_count w' >= max) then save fe w' else Ok w'
  else Ok w.

Definition batch_event (cfg : config)
  : flush_env -> option positive -> Z -> world -> outcome world :=
  batch_event_with save_batch_to_file (MAX_EVENT_BATCH cfg).

(** The body of [while (!exit_now) { ... }]; the result carries [exit_now]. *)
Definition cycle (cfg : config) (e : cycle_env) (w : world)
  : outcome (world * bool) :=
  if c_driver_err e then Exited (io w)                     (* print_error_and_cleanup *)
  else
    match wait_trigger (c_arming e) with
    | None => Stalled (io w)
    | Some true => Ok (w, true)                             (* if (exit_now) break; *)
    | Some false =>
      let w1 := emit [FOpen live_filepath_tmp (c_live_open e)] w in
      if negb (c_sel_work_ok e) then Exited (io w1)         (* print_error_and_cleanup *)
      else
        d ← drain cfg (c_live_open e) (c_polls e)
              {| d_heap := heap w1; current_acq_buffer := None; current_acq_size := 0;
                 sel_work := replicate (Z.to_nat (sel_chunk_bytes cfg / 2)) 0;
                 current_buffer_idx := 0; g_fStop := false; exit_now := false;
                 d_io := io w1 |};
        let w2 := {| heap := d_heap d; g_data_buffer := g_data_buffer w1;
                     g_buffered_count := g_buffered_count w1;
                     io := d_io d ++
                           (if c_live_open e
                            then [FClose live_filepath_tmp;
                                  MoveFile live_filepath_tmp live_filepath_final
                                           (c_move_ok e)]
                            else []) |} in
        w3 ← batch_event cfg (c_flush e) (current_acq_buffer d) (current_acq_size d) w2;
        Ok (w3, exit_now d)
    end.

(** The loop of [main] over the recorded cycles; the result is the state
    at the last cycle boundary reached, with [exit_now]. *)
Fixpoint main_loop (cfg : config) (envs : list cycle_env) (w : world)
  : outcome (world * bool) :=
  match envs with
  | [] => Ok (w, false)
  | e :: rest =>
      '(w', stop) ← cycle cfg e w;
      if (stop : bool) then Ok (w', true) else main_loop cfg rest w'
  end.

(** ** The program around the loop

    [main] registers and configures the card, runs the loop, and on the way
    out flushes what is left of the batch.  Its console messages, the
    creation of the two folders and the release of the card act on nothing
    that the state or the trace keeps. *)
Record main_env := MainEnv {
  m_card : Z;                        (* the result of WD_Register_Card *)
  m_setup_err : bool;                (* WD_GetDeviceProperties, WD_AI_CH_Config or
                                        WD_AI_Config returned an error *)
  m_cycles : list cycle_env;
  m_exit_flush : flush_env           (* used by the flush on the way out *)
}.

(** The result carries the exit status of the process. *)
Definition main (cfg : config) (env : main_env) : outcome (world * Z) :=
  if decide (m_card env < 0) then Ok (world0 cfg, 1)          (* return 1; *)
  else if m_setup_err env then Exited []                      (* print_error_and_cleanup *)
  else
    '(w, stop) ← main_loop cfg (m_cycles env) (world0 cfg);
    if (stop : bool) then
      w' ← (if decide (g_buffered_count w > 0)
            then save_batch_to_file (m_exit_flush env) w else Ok w);
      Ok (w', 0)                                              (* return 0; *)
    else Stalled (io w).

(** ** The older program, [CodeTriggerExtBaru/ori.c]

    Two channels are scanned and kept whole: there is no channel selection,
    each half buffer is appended as it is.  The live temporary file is
    handled differently, and so is a failing [realloc]. *)
Module Ori.

Definition BUFFER_SAMPLES : Z := 8192.
Definition CHANNEL_COUNT : Z := 2.
Definition MAX_EVENT_BATCH : Z := 1000.

(** [chunk_size = sizeof(U16) * BUFFER_SAMPLES * CHANNEL_COUNT]. *)
Definition chunk_size : Z := size_t (size_t (2 * BUFFER_SAMPLES) * CHANNEL_COUNT).

Definition header_lines (t : tm) (count : Z) : list (list Z) :=
  [ str "TEST_DATE:" ++ fmt_0d 4 (tm_year t + 1900) ++ str "-" ++ fmt_0d 2 (tm_mon t + 1)
      ++ str "-" ++ fmt_0d 2 (tm_mday t) ++ str " " ++ fmt_0d 2 (tm_hour t)
      ++ str ":" ++ fmt_0d 2 (tm_min t) ++ str ":" ++ fmt_0d 2 (tm_sec t);
    str "CODE_VERSION:" ++ CODE_VERSION;
    str "AUTHOR:" ++ AUTHOR_NAME;
    str "BATCH_EVENT_COUNT:" ++ fmt_d count ].

Definition header (t : tm) (count : Z) : list Z :=
  snprintf 512 ((header_lines t count ≫= fun l => l ++ [NL]) ++ [NL]).

Definition save_batch_to_file : flush_env -> world -> outcome world :=
  save_batch_with header (str " event berhasil disimpan ke ").

(** The branch [if (halfReady) { ... }]; the flag of the result tells
    whether the branch left the loop with [break]. *)
Definition drain_half (p : poll) (st : drain_state)
  : outcome (drain_state * bool) :=
  let source_buffer :=
    if decide (current_buffer_idx st = 0) then p_ai_buf p else p_ai_buf2 p in
  '(new_buffer, h1) ← realloc (d_heap st) (current_acq_buffer st)
                        (size_t (current_acq_size st + chunk_size))
                        (p_realloc_ok p);
  match new_buffer with
  | None =>
      h2 ← free h1 (current_acq_buffer st);
      Ok ({| d_heap := h2; current_acq_buffer := None;
             current_acq_size := current_acq_size st;
             sel_work := sel_work st;
             current_buffer_idx := current_buffer_idx st;
             g_fStop := true; exit_now := exit_now st; d_io := d_io st |}, true)
  | Some q =>
      h2 ← memcpy h1 q (current_acq_size st) (bytes_of_u16s source_buffer) chunk_size;
      Ok ({| d_heap := h2; current_acq_buffer := Some q;
             current_acq_size := size_t (current_acq_size st + chunk_size);
             sel_work := sel_work st;
             current_buffer_idx := 1 - current_buffer_idx st;
             g_fStop := g_fStop st; exit_now := exit_now st;
             d_io := d_io st ++
                     [FWrite live_filepath_tmp
                        (take (Z.to_nat chunk_size) (bytes_of_u16s source_buffer))] |},
          false)
  end.

Definition drain_turn (p : poll) (st : drain_state)
  : outcome (drain_state * bool) :=
  let st0 := {| d_heap := d_heap st; current_acq_buffer := current_acq_buffer st;
                current_acq_size := current_acq_size st; sel_work := sel_work st;
                current_buffer_idx := current_buffer_idx st;
                g_fStop := p_fStop p; exit_now := exit_now st; d_io := d_io st |} in
  '(st1, brk) ← (if p_halfReady p then drain_half p st0 else Ok (st0, false));
  if (brk : bool) then Ok (st1, true)
  else
    Ok (if p_esc p
        then {| d_heap := d_heap st1; current_acq_buffer := current_acq_buffer st1;
                current_acq_size := current_acq_size st1; sel_work := sel_work st1;
                current_buffer_idx := current_buffer_idx st1;
                g_fStop := true; exit_now := true; d_io := d_io st1 |}
        else st1, false).

Fixpoint drain (polls : list poll) (st : drain_state) : outcome drain_state :=
  match polls with
  | [] => Stalled (d_io st)
  | p :: rest =>
      '(st', brk) ← drain_turn p st;
      if (brk || g_fStop st')%bool then Ok st' else drain rest st'
  end.

(** The body of [while (!exit_now) { ... }].  When the live temporary
    file cannot be opened the body is left at once with [continue]. *)
Definition cycle (e : cycle_env) (w : world) : outcome (world * bool) :=
  if c_driver_err e then Exited (io w)
  else
    match wait_trigger (c_arming e) with
    | None => Stalled (io w)
    | Some true => Ok (w, true)
    | Some false =>
      let w1 := emit [FOpen live_filepath_tmp (c_live_open e)] w in
      if negb (c_live_open e) then Ok (w1, false)         (* continue; *)
      else
        d ← drain (c_polls e)
              {| d_heap := heap w1; current_acq_buffer := None; current_acq_size := 0;
                 sel_work := []; current_buffer_idx := 0;
                 g_fStop := false; exit_now := false; d_io := io w1 |};
        let w2 := {| heap := d_heap d; g_data_buffer := g_data_buffer w1;
                     g_buffered_count := g_buffered_count w1;
                     io := d_io d ++
                           [FClose live_filepath_tmp;
                            MoveFile live_filepath_tmp live_filepath_final
                                     (c_move_ok e)] |} in
        w3 ← batch_event_with save_batch_to_file MAX_EVENT_BATCH (c_flush e)
               (current_acq_buffer d) (current_acq_size d) w2;
        Ok (w3, exit_now d)
    end.

Fixpoint main_loop (envs : list cycle_env) (w : world) : outcome (world * bool) :=
  match envs with
  | [] => Ok (w, false)
  | e :: rest =>
      '(w', stop) ← cycle e w;
      if (stop : bool) then Ok (w', true) else main_loop rest w'
  end.

(** Static storage at program start. *)
Definition world0 : world :=
  {| heap := ∅;
     g_data_buffer := replicate (Z.to_nat MAX_EVENT_BATCH) (Acq None 0);
     g_buffered_count := 0;
     io := [] |}.

End Ori.

(** ** The spectral variant, [CodeTriggerExtBaru/fft_zero.c]

    Its acquisition loop is the one of [ori.c].  What is its own is the
    version string of its header, a [save_batch_to_file] that prints
    nothing, and the spectral stage that follows each completed event:
    the loop of [main] that prepares its input, and
    [process_fft_and_save_onefile]. *)
Module FftZero.

Definition BUFFER_SAMPLES : Z := 8192.
Definition CHANNEL_COUNT : Z := 2.
Definition CODE_VERSION : list Z := str "Code trigger With FFT ZERO".

Definition header_lines (t : tm) (count : Z) : list (list Z) :=
  [ str "TEST_DATE:" ++ fmt_0d 4 (tm_year t + 1900) ++ str "-" ++ fmt_0d 2 (tm_mon t + 1)
      ++ str "-" ++ fmt_0d 2 (tm_mday t) ++ str " " ++ fmt_0d 2 (tm_hour t)
      ++ str ":" ++ fmt_0d 2 (tm_min t) ++ str ":" ++ fmt_0d 2 (tm_sec t);
    str "CODE_VERSION:" ++ CODE_VERSION;
    str "AUTHOR:" ++ AUTHOR_NAME;
    str "BATCH_EVENT_COUNT:" ++ fmt_d count ].

Definition header (t : tm) (count : Z) : list Z :=
  snprintf 512 ((header_lines t count ≫= fun l => l ++ [NL]) ++ [NL]).

(** [save_batch_to_file]: as in the other programs, without a message in
    either case. *)
Definition save_batch_to_file (fe : flush_env) (w : world) : outcome world :=
  if decide (g_buffered_count w = 0) then Ok w
  else
    let path := log_filepath (f_time fe) (g_buffered_count w) in
    if f_open fe then
      let w1 := emit [FOpen path true;
                      FWrite path (header (f_time fe) (g_buffered_count w))] w in
      w2 ← for_range (Z.to_nat (g_buffered_count w)) 0 (save_event path) w1;
      Ok {| heap := heap w2; g_data_buffer := g_data_buffer w2;
            g_buffered_count := 0;
            io := io w2 ++ [FClose path] |}
    else Ok (emit [FOpen path false] w).                      (* if (!f_log) return; *)

(** [src[i]] for [U16* src = (U16* )current_acq_buffer], read from the
    bytes of the event on the little-endian target. *)
Definition u16_at (bytes : list Z) (i : Z) : outcome Z :=
  lo ← load bytes (2 * i);
  hi ← load bytes (2 * i + 1);
  Ok (lo + 256 * hi).

(** The body of the loop that fills [ch0] and [ch1].  A [U16] converts to
    [float] without rounding, so the two arrays are kept as the integers
    they hold; [None] is the [NULL] that an unchecked [malloc] may have
    returned. *)
Definition split_step (src : list Z) (i : Z)
    (st : option (list Z) * option (list Z))
  : outcome (option (list Z) * option (list Z)) :=
  let '(ch0, ch1) := st in
  a ← u16_at src (i * CHANNEL_COUNT + 0);
  ch0' ← match ch0 with
         | None => Undefined
         | Some l => l' ← store l i a; Ok (Some l')
         end;
  b ← u16_at src (i * CHANNEL_COUNT + 1);
  ch1' ← match ch1 with
         | None => Undefined
         | Some l => l' ← store l i b; Ok (Some l')
         end;
  Ok (ch0', ch1').

(** The two [malloc]s and the loop; [ok0] and [ok1] tell whether the
    allocator finds the memory.  What [malloc] returns is 0 here and is
    overwritten by the loop before it is read. *)
Definition split_channels (src : list Z) (ok0 ok1 : bool)
  : outcome (option (list Z) * option (list Z)) :=
  let ch0 := if ok0 then Some (replicate (Z.to_nat BUFFER_SAMPLES) 0) else None in
  let ch1 := if ok1 then Some (replicate (Z.to_nat BUFFER_SAMPLES) 0) else None in
  for_range (Z.to_nat BUFFER_SAMPLES) 0 (split_step src) (ch0, ch1).

(** *** The spectral stage: [process_fft_and_save_onefile]

    A [float] or a [double] is a [spec_float]: a zero, an infinity, a NaN,
    or a sign, a mantissa and an exponent.  The operations are those of
    [SpecFloat], the standard library's specification of IEEE 754
    arithmetic: correctly rounded, to the nearest with ties to even, at 24
    bits of precision for [float] and at 53 bits for [double].  An
    expression of [float]s is evaluated in [float], as on the 64-bit
    target. *)
Definition FFT_SIZE : Z := BUFFER_SAMPLES.

Definition fadd : spec_float -> spec_float -> spec_float := SFadd 24 128.
Definition fsub : spec_float -> spec_float -> spec_float := SFsub 24 128.
Definition fmul : spec_float -> spec_float -> spec_float := SFmul 24 128.
Definition sqrtf : spec_float -> spec_float := SFsqrt 24 128.
Definition dadd : spec_float -> spec_float -> spec_float := SFadd 53 1024.
Definition ddiv : spec_float -> spec_float -> spec_float := SFdiv 53 1024.

(** The conversions: of a [float] to [double], which changes no value; of a
    [double] to [float], which rounds; of an [int] to [double]; and of a
    [U16] to [float]. *)
Definition double_of_float (x : spec_float) : spec_float :=
  match x with
  | S754_finite s m e => binary_round 53 1024 s m e
  | _ => x
  end.
Definition float_of_double (x : spec_float) : spec_float :=
  match x with
  | S754_finite s m e => binary_round 24 128 s m e
  | _ => x
  end.
Definition double_of_int (n : Z) : spec_float := binary_normalize 53 1024 n 0 false.
Definition float_of_U16 (v : Z) : spec_float := binary_normalize 24 128 v 0 false.

(** The four bytes of a [float] in memory on the little-endian target.  C
    leaves the sign and the payload of a NaN open; the image here is the
    positive quiet NaN. *)
Definition float_bits (x : spec_float) : Z :=
  match x with
  | S754_zero s => if s then 2 ^ 31 else 0
  | S754_infinity s => (if s then 2 ^ 31 else 0) + 255 * 2 ^ 23
  | S754_nan => 255 * 2 ^ 23 + 2 ^ 22
  | S754_finite s m e => (if s then 2 ^ 31 else 0) + (e + 149) * 2 ^ 23 + Z.pos m
  end.
Definition float_bytes (x : spec_float) : list Z :=
  let b := float_bits x in
  [b mod 256; (b / 2 ^ 8) mod 256; (b / 2 ^ 16) mod 256; (b / 2 ^ 24) mod 256].

(** The first loop: [sum0 += ch0[i]; sum1 += ch1[i];], in [double]. *)
Definition sum_step (ch0 ch1 : list spec_float) (i : Z)
    (st : spec_float * spec_float) : outcome (spec_float * spec_float) :=
  let '(sum0, sum1) := st in
  a ← load ch0 i;
  b ← load ch1 i;
  Ok (dadd sum0 (double_of_float a), dadd sum1 (double_of_float b)).

(** [mean0] and [mean1]. *)
Definition channel_means (ch0 ch1 : list spec_float)
  : outcome (spec_float * spec_float) :=
  '(sum0, sum1) ← for_range (Z.to_nat FFT_SIZE) 0 (sum_step ch0 ch1)
                    (S754_zero false, S754_zero false);
  Ok (float_of_double (ddiv sum0 (double_of_int FFT_SIZE)),
      float_of_double (ddiv sum1 (double_of_int FFT_SIZE))).

(** The second loop: [ch0[i] -= mean0; ch1[i] -= mean1;]. *)
Definition center_step (mean0 mean1 : spec_float) (i : Z)
    (st : list spec_float * list spec_float)
  : outcome (list spec_float * list spec_float) :=
  let '(ch0, ch1) := st in
  a ← load ch0 i;
  ch0' ← store ch0 i (fsub a mean0);
  b ← load ch1 i;
  ch1' ← store ch1 i (fsub b mean1);
  Ok (ch0', ch1').

(** Zero-centering: the two arrays of the caller are overwritten. *)
Definition zero_center (ch0 ch1 : list spec_float)
  : outcome (list spec_float * list spec_float) :=
  '(mean0, mean1) ← channel_means ch0 ch1;
  for_range (Z.to_nat FFT_SIZE) 0 (center_step mean0 mean1) (ch0, ch1).

(** [kiss_fft_cpx]. *)
Record kiss_fft_cpx := Cpx { r : spec_float; i : spec_float }.

(** Modelled from the spec: [kiss_fft.h] and [kiss_fft.c] are not among the
    sources.  The spec has the transform as the discrete Fourier transform
    of [N] samples into [N] complex bins.  Here bin [k] is the sum over [j]
    of [fin[j]] times the twiddle factor of index [(j * k) mod N], added up
    in [float] in the order of [j]; the twiddle factors are the table that
    the configuration of [kiss_fft_alloc] holds, with whatever values the
    cosine and the sine of the C library gave them. *)
Definition C_MUL (a b : kiss_fft_cpx) : kiss_fft_cpx :=
  Cpx (fsub (fmul (r a) (r b)) (fmul (i a) (i b)))
      (fadd (fmul (r a) (i b)) (fmul (i a) (r b))).
Definition C_ADD (a b : kiss_fft_cpx) : kiss_fft_cpx :=
  Cpx (fadd (r a) (r b)) (fadd (i a) (i b)).
Definition twiddle (twiddles : list kiss_fft_cpx) (n : Z) : kiss_fft_cpx :=
  default (Cpx (S754_zero false) (S754_zero false)) (twiddles !! Z.to_nat n).
Definition dft_bin (twiddles fin : list kiss_fft_cpx) (k : Z) : kiss_fft_cpx :=
  foldl (fun acc jx =>
           C_ADD acc (C_MUL jx.2 (twiddle twiddles ((jx.1 * k) mod Z.of_nat (length fin)))))
        (Cpx (S754_zero false) (S754_zero false))
        (zip (seqZ 0 (Z.of_nat (length fin))) fin).
Definition kiss_fft (twiddles fin : list kiss_fft_cpx) : list kiss_fft_cpx :=
  dft_bin twiddles fin <$> seqZ 0 (Z.of_nat (length fin)).

(** [fin[i].r = ch[i]; fin[i].i = 0;] for the array [in] of the source. *)
Definition fill_step (ch : list spec_float) (i : Z) (fin : list kiss_fft_cpx)
  : outcome (list kiss_fft_cpx) :=
  a ← load ch i;
  store fin i (Cpx a (S754_zero false)).

(** [mag[i] = sqrtf(out[i].r * out[i].r + out[i].i * out[i].i);] *)
Definition magnitude (c : kiss_fft_cpx) : spec_float :=
  sqrtf (fadd (fmul (r c) (r c)) (fmul (i c) (i c))).
Definition mag_step (fout : list kiss_fft_cpx) (i : Z) (mag : list spec_float)
  : outcome (list spec_float) :=
  c ← load fout i;
  store mag i (magnitude c).

Definition fft_filepath : list Z :=
  snprintf MAX_PATH (LIVE_FOLDER ++ str "\live_fft.bin").

(** The two [fwrite]s of one turn of the last loop. *)
Definition write_step (mag0 mag1 : list spec_float) (i : Z) (tr : list io_op)
  : outcome (list io_op) :=
  a ← load mag0 i;
  b ← load mag1 i;
  Ok (tr ++ [FWrite fft_filepath (float_bytes a); FWrite fft_filepath (float_bytes b)]).

(** What the environment decides: the result of [kiss_fft_alloc], [None]
    for [NULL] and otherwise the twiddle factors of the configuration;
    whether the two [malloc]s find memory; and whether [fopen] succeeds. *)
Record fft_env := FftEnv {
  p_cfg : option (list kiss_fft_cpx);
  p_in_ok : bool;
  p_out_ok : bool;
  p_open : bool
}.

(** [process_fft_and_save_onefile(ch0, ch1, len, LIVE_FOLDER)], for two
    arrays that do not overlap; [len] is not used.  None of the three
    allocations is checked.  What [malloc] returns and what the array
    [mag0] or [mag1] holds at first is 0 here and is overwritten before it
    is read.  The result has the two arrays of the caller as the function
    leaves them, and the calls on the file. *)
Definition process_fft_and_save_onefile (env : fft_env) (ch0 ch1 : list spec_float)
  : outcome (list spec_float * list spec_float * list io_op) :=
  let n := Z.to_nat FFT_SIZE in
  '(ch0, ch1) ← zero_center ch0 ch1;
  if negb (p_in_ok env) then Undefined
  else
    fin ← for_range n 0 (fill_step ch0)
            (replicate n (Cpx (S754_zero false) (S754_zero false)));
    match p_cfg env with
    | None => Undefined
    | Some twiddles =>
      if negb (p_out_ok env) then Undefined
      else
        mag0 ← for_range n 0 (mag_step (kiss_fft twiddles fin))
                 (replicate n (S754_zero false));
        fin ← for_range n 0 (fill_step ch1) fin;
        mag1 ← for_range n 0 (mag_step (kiss_fft twiddles fin))
                 (replicate n (S754_zero false));
        tr ← (if p_open env then
                tr ← for_range n 0 (write_step mag0 mag1) [FOpen fft_filepath true];
                Ok (tr ++ [FClose fft_filepath])
              else Ok [FOpen fft_filepath false]);
        Ok (ch0, ch1, tr)
    end.

End FftZero.

(** ** Notions used to state the properties *)

(** The bytes one half buffer contributes to an event. *)
Definition chunk (cfg : config) (src : list Z) : list Z :=
  bytes_of_u16s (extracted cfg src).

(** Both DMA buffers are the static arrays
    [U16 ai_buf[BUFFER_SAMPLES * TOTAL_HW_CHANNELS]]. *)
Definition poll_wf (cfg : config) (p : poll) : Prop :=
  Z.of_nat (length (p_ai_buf p)) = BUFFER_SAMPLES cfg * TOTAL_HW_CHANNELS cfg /\
  Z.of_nat (length (p_ai_buf2 p)) = BUFFER_SAMPLES cfg * TOTAL_HW_CHANNELS cfg.

(** The half buffers the driver delivers during the recorded polls, in
    order of arrival: the driver fills [ai_buf] and [ai_buf2] in turn,
    starting with the buffer numbered [idx], and reports each filled half
    once. *)
Fixpoint delivered (idx : Z) (polls : list poll) : list (list Z) :=
  match polls with
  | [] => []
  | p :: rest =>
      if p_halfReady p
      then (if decide (idx = 0) then p_ai_buf p else p_ai_buf2 p)
           :: delivered (1 - idx) rest
      else delivered idx rest
  end.

(** The state of the drain loop between two turns, for a cycle entered
    with heap [h0], when the event holds the bytes [acc] so far. *)
Definition drain_inv (cfg : config) (h0 : heap_t) (acc : list Z)
    (st : drain_state) : Prop :=
  Z.of_nat (length (sel_work st)) = BUFFER_SAMPLES cfg * SELECTED_COUNT cfg /\
  (current_buffer_idx st = 0 \/ current_buffer_idx st = 1) /\
  current_acq_size st = Z.of_nat (length acc) /\
  match current_acq_buffer st with
  | None => acc = [] /\ d_heap st = h0
  | Some q => h0 !! q = None /\ d_heap st = <[q := acc]> h0
  end.

(** A turn of the drain loop in which nothing goes wrong: [realloc] finds
    memory and ESC is not pressed. *)
Definition quiet (cfg : config) (p : poll) : Prop :=
  poll_wf cfg p /\ p_realloc_ok p = true /\ p_esc p = false.

(** The writes to the live temporary file that the chunks [cs] cause. *)
Definition live_writes (f_out_live : bool) (cs : list (list Z)) : list io_op :=
  if f_out_live then FWrite live_filepath_tmp <$> cs else [].

(** Sample inputs for the worked scenarios: two filled half buffers of the
    scenario configuration, and the locals of a cycle on entry of the drain
    loop. *)
Definition scenario_buf0 : list Z := [10;20;30;40; 11;21;31;41].
Definition scenario_buf1 : list Z := [110;120;130;140; 111;121;131;141].
Definition scenario_poll (stop ok esc : bool) : poll :=
  {| p_halfReady := true; p_fStop := stop;
     p_ai_buf := scenario_buf0; p_ai_buf2 := scenario_buf1;
     p_realloc_ok := ok; p_esc := esc |}.
Definition scenario_entry : drain_state :=
  {| d_heap := ∅; current_acq_buffer := None; current_acq_size := 0;
     sel_work := [0; 0; 0; 0]; current_buffer_idx := 0;
     g_fStop := false; exit_now := false; d_io := [] |}.

(** A cycle that completes a non-empty event: the set-up calls succeed, the
    trigger arrives, [malloc] finds the work buffer, and the drain loop
    sees quiet turns until the driver reports the end of the acquisition,
    having delivered at least one half buffer. *)
Definition completes (cfg : config) (e : cycle_env) : Prop :=
  c_driver_err e = false /\
  wait_trigger (c_arming e) = Some false /\
  c_sel_work_ok e = true /\
  exists pre last rest,
    c_polls e = pre ++ last :: rest
    /\ Forall (fun p => quiet cfg p /\ p_fStop p = false) pre
    /\ quiet cfg last /\ p_fStop last = true
    /\ delivered 0 (pre ++ [last]) ≠ []
    /\ Z.of_nat (length (delivered 0 (pre ++ [last]))) * sel_chunk_bytes cfg
       < 2 ^ SIZE_WIDTH.

(** The bytes of the event that the recorded polls of a cycle deliver up to
    the first stop reported by the driver. *)
Fixpoint event_polls (polls : list poll) : list poll :=
  match polls with
  | [] => []
  | p :: rest => if p_fStop p then [p] else p :: event_polls rest
  end.
Definition event_bytes (cfg : config) (e : cycle_env) : list Z :=
  concat (chunk cfg <$> delivered 0 (event_polls (c_polls e))).

(** The I/O of the live file during a cycle whose event has the chunks [cs]. *)
Definition live_ops (e : cycle_env) (cs : list (list Z)) : list io_op :=
  FOpen live_filepath_tmp (c_live_open e)
  :: live_writes (c_live_open e) cs
  ++ (if c_live_open e
      then [FClose live_filepath_tmp;
            MoveFile live_filepath_tmp live_filepath_final (c_move_ok e)]
      else []).

(** A cycle of the full-size programs in which one half buffer of zeros
    arrives and the acquisition ends; [live] and [flush] are the outcomes of
    the two [fopen] calls. *)
Definition one_half_cycle (channels : Z) (live flush : bool) : cycle_env :=
  let zeros := replicate (Z.to_nat (8192 * channels)) 0 in
  {| c_driver_err := false;
     c_arming := [(true, false)];
     c_live_open := live;
     c_sel_work_ok := true;
     c_polls := [ {| p_halfReady := true; p_fStop := true;
                     p_ai_buf := zeros; p_ai_buf2 := zeros;
                     p_realloc_ok := true; p_esc := false |} ];
     c_move_ok := true;
     c_flush := {| f_time := Tm 125 9 30 14 5 7; f_open := flush |} |}.

(** The event count after a cycle that ran to its end. *)
Definition count_after (o : outcome (world * bool)) : option Z :=
  match o with
  | Ok (w, _) => Some (g_buffered_count w)
  | _ => None
  end.

(** A batch of the full-size program that holds 999 events. *)
Definition nearly_full_world : world :=
  {| heap := ∅;
     g_data_buffer := replicate 999 (Acq (Some 1%positive) 8) ++ [Acq None 0];
     g_buffered_count := 999;
     io := [] |}.

(** A cycle of the scenario configuration in which [realloc] fails on the
    second chunk. *)
Definition second_chunk_fails : cycle_env :=
  {| c_driver_err := false; c_arming := [(false, false); (true, false)];
     c_live_open := true; c_sel_work_ok := true;
     c_polls := [scenario_poll false true false; scenario_poll false false false];
     c_move_ok := true;
     c_flush := {| f_time := Tm 125 9 30 14 5 7; f_open := true |} |}.

(** ** The live snapshot as a reader sees it *)

(** One complete publication: the temporary file is created, the chunks
    [cs] are written to it, it is closed, and it is renamed onto the
    visible path. *)
Definition session (cs : list (list Z)) : list io_op :=
  FOpen live_filepath_tmp true
  :: (FWrite live_filepath_tmp <$> cs)
  ++ [FClose live_filepath_tmp;
      MoveFile live_filepath_tmp live_filepath_final true].

(** The calls that leave the visible path as it is. *)
Definition neutral (op : io_op) : Prop :=
  match op with
  | Printf _ | FClose _ => True
  | FOpen p _ | FWrite p _ => p ≠ live_filepath_final
  | MoveFile a b ok => ok = false \/ (a ≠ live_filepath_final /\ b ≠ live_filepath_final)
  end.

(** What a reader may find at the visible path after the calls [tr], the
    files having been [fs0] at program start: what was there at the start,
    or the whole contents of one complete publication among [tr]. *)
Definition visible_ok (fs0 : gmap (list Z) (list Z)) (tr : list io_op) : Prop :=
  fs_run fs0 tr !! live_filepath_final = fs0 !! live_filepath_final
  \/ exists tr1 cs tr2,
       tr = tr1 ++ session cs ++ tr2
       /\ fs_run fs0 tr !! live_filepath_final = Some (concat cs).

(** The property at every moment of a run: after each call of the trace. *)
Definition always_visible_ok (fs0 : gmap (list Z) (list Z)) (tr : list io_op) : Prop :=
  forall pre, pre `prefix_of` tr -> visible_ok fs0 pre.

(** The world after [ops] more calls that leave the visible path alone. *)
Definition extends_neutrally (w w' : world) : Prop :=
  exists ops, io w' = io w ++ ops /\ Forall neutral ops.


(** The calls a computation has made when it ends, if it ends without
    undefined behaviour. *)
Definition trace_of {A} (proj : A -> list io_op) (o : outcome A)
  : option (list io_op) :=
  match o with
  | Ok a => Some (proj a)
  | Exited tr | Stalled tr => Some tr
  | Undefined => None
  end.

(** The computations that neither exit nor wait. *)
Definition plain {A} (o : outcome A) : Prop :=
  match o with
  | Ok _ | Undefined => True
  | Exited _ | Stalled _ => False
  end.

(** A cycle of the scenario configuration that completes an event of two
    half buffers and publishes it. *)
Definition two_halves_cycle : cycle_env :=
  {| c_driver_err := false; c_arming := [(true, false)];
     c_live_open := true; c_sel_work_ok := true;
     c_polls := [scenario_poll false true false; scenario_poll true true false];
     c_move_ok := true;
     c_flush := {| f_time := Tm 125 9 30 14 5 7; f_open := true |} |}.

(** ** A reader of batch log files

    The repository has no reader of its own; this one follows the format of
    the specification: newline-terminated [key:value] lines, an empty line,
    then the payloads back to back. *)

(** The text up to the first newline, and what follows that newline. *)
Fixpoint read_line (s : list Z) : list Z * list Z :=
  match s with
  | [] => ([], [])
  | c :: s' =>
      if decide (c = NL) then ([], s')
      else let '(l, r) := read_line s' in (c :: l, r)
  end.

(** The lines up to the first empty line, and what follows it. *)
Fixpoint read_header (fuel : nat) (s : list Z) : option (list (list Z) * list Z) :=
  match fuel with
  | O => None
  | Datatypes.S f =>
      let '(l, r) := read_line s in
      match l with
      | [] => Some ([], r)
      | _ => '(ls, r') ← read_header f r; Some (l :: ls, r')
      end
  end.

Fixpoint strip_prefix (key s : list Z) : option (list Z) :=
  match key, s with
  | [], _ => Some s
  | k :: key', c :: s' => if decide (k = c) then strip_prefix key' s' else None
  | _ :: _, [] => None
  end.

(** The value of the first line that begins with [key]. *)
Fixpoint header_field (key : list Z) (lines : list (list Z)) : option (list Z) :=
  match lines with
  | [] => None
  | l :: rest =>
      match strip_prefix key l with
      | Some v => Some v
      | None => header_field key rest
      end
  end.

Definition parse_digit (acc : option Z) (c : Z) : option Z :=
  a ← acc; if decide (48 <= c <= 57) then Some (10 * a + (c - 48)) else None.

Definition parse_decimal (ds : list Z) : option Z :=
  match ds with
  | [] => None
  | _ => foldl parse_digit (Some 0) ds
  end.

(** The declared event count of a log file, and the bytes after its header. *)
Definition read_log (file : list Z) : option (Z * list Z) :=
  '(lines, payload) ← read_header (Datatypes.S (length file)) file;
  v ← header_field (str "BATCH_EVENT_COUNT:") lines;
  n ← parse_decimal v;
  Some (n, payload).

(** Cutting the payload bytes into events of known sizes. *)
Fixpoint split_sizes (sizes : list nat) (bytes : list Z) : list (list Z) :=
  match sizes with
  | [] => []
  | n :: rest => take n bytes :: split_sizes rest (drop n bytes)
  end.

(** The batch of [w] holds the events [evs], each as its block and its
    bytes: the count is their number, slot [i] of the array points to the
    block of event [i] and records its size, and no two events share a
    block. *)
Definition batch_holds (w : world) (evs : list (positive * list Z)) : Prop :=
  g_buffered_count w = Z.of_nat (length evs) /\
  NoDup evs.*1 /\
  forall (i : nat) (p : positive) (bytes : list Z),
    evs !! i = Some (p, bytes) ->
    g_data_buffer w !! i = Some (Acq (Some p) (Z.of_nat (length bytes)))
    /\ heap w !! p = Some bytes.

(** The state of the write loop of [save_batch_to_file] before turn [j],
    for a batch [w] that holds the events [evs]: the events before [j] are
    written and freed, the others are untouched. *)
Definition flushed (path : list Z) (w : world) (evs : list (positive * list Z))
    (base : list io_op) (j : Z) (s : world) : Prop :=
  io s = base ++ (FWrite path <$> take (Z.to_nat j) evs.*2) /\
  length (g_data_buffer s) = length (g_data_buffer w) /\
  (forall i : nat, (Z.to_nat j <= i)%nat -> g_data_buffer s !! i = g_data_buffer w !! i) /\
  (forall i : nat, (i < Z.to_nat j)%nat -> g_data_buffer s !! i = Some (Acq None 0)) /\
  (forall p, heap s !! p
             = if decide (p ∈ take (Z.to_nat j) evs.*1) then None else heap w !! p).


(** A batch of two small events. *)
Definition two_event_world : world :=
  {| heap := <[1%positive := [1; 2; 3]]> (<[2%positive := [4; 5]]> ∅);
     g_data_buffer := [Acq (Some 1%positive) 3; Acq (Some 2%positive) 2; Acq None 0];
     g_buffered_count := 2;
     io := [] |}.

(** ** The batch over a whole run *)

(** The batch of [w] is in order for an array of [max] slots: it holds the
    events [evs], and the heap has no block besides their buffers. *)
Definition batch_ok (max : Z) (w : world) (evs : list (positive * list Z)) : Prop :=
  batch_holds w evs /\
  (forall p, p ∉ evs.*1 -> heap w !! p = None) /\
  Z.of_nat (length (g_data_buffer w)) = max.

(** An event is a whole, positive number of extracted chunks. *)
Definition event_ok (cfg : config) (bytes : list Z) : Prop :=
  exists k, 0 < k /\ Z.of_nat (length bytes) = k * sel_chunk_bytes cfg.

(** The recorded polls of a cycle show the two DMA buffers at their
    declared size, and an event that takes a chunk at every poll still fits
    in [size_t]. *)
Definition polls_wf (cfg : config) (e : cycle_env) : Prop :=
  Forall (poll_wf cfg) (c_polls e) /\
  Z.of_nat (length (c_polls e)) * sel_chunk_bytes cfg < 2 ^ SIZE_WIDTH.

(** A run that is in order at the point it has reached: it has not left
    defined behaviour, and at a cycle boundary the batch is in order, below
    its capacity, and made of whole events. *)
Definition run_ok (cfg : config) (o : outcome (world * bool)) : Prop :=
  match o with
  | Ok (w, _) =>
      exists evs, batch_ok (MAX_EVENT_BATCH cfg) w evs
                  /\ Z.of_nat (length evs) < MAX_EVENT_BATCH cfg
                  /\ Forall (fun ev => event_ok cfg ev.2) evs
  | Undefined => False
  | Exited _ | Stalled _ => True
  end.

(** ** The cycle counter and the [int]s of the program

    [main] counts its trigger cycles in [int event_count], incremented at
    the top of every cycle and read nowhere; [cycle] and [main_loop] leave
    it out.  [main_loop_counting] is the loop with the counter:
    [event_count++] on an [int] that holds [INT_MAX] is undefined
    behaviour. *)
Definition INT_MAX : Z := 2 ^ 31 - 1.

Fixpoint main_loop_counting (cfg : config) (envs : list cycle_env)
    (event_count : Z) (w : world) : outcome (world * bool) :=
  match envs with
  | [] => Ok (w, false)
  | e :: rest =>
      if decide (event_count < INT_MAX) then                  (* event_count++; *)
        '(w', stop) ← cycle cfg e w;
        if (stop : bool) then Ok (w', true)
        else main_loop_counting cfg rest (event_count + 1) w'
      else Undefined
  end.

(** The constants of a configuration are [int]s, as is the product
    [BUFFER_SAMPLES * TOTAL_HW_CHANNELS] that [main] computes in [int]; the
    batch counter [g_buffered_count] and the index of the selection loop
    are [int]s that run up to [MAX_EVENT_BATCH] and [SELECTED_COUNT]. *)
Definition config_ints (cfg : config) : Prop :=
  MAX_EVENT_BATCH cfg <= INT_MAX /\
  BUFFER_SAMPLES cfg <= INT_MAX /\
  TOTAL_HW_CHANNELS cfg <= INT_MAX /\
  BUFFER_SAMPLES cfg * TOTAL_HW_CHANNELS cfg <= INT_MAX /\
  SELECTED_COUNT cfg <= INT_MAX.

(** Sample inputs for worked runs: the scenario configuration with a batch
    of two events, and a cycle in which ESC is pressed while the program
    waits for the trigger. *)
Definition two_slot_config : config :=
  {| BUFFER_SAMPLES := 2; TOTAL_HW_CHANNELS := 4;
     SELECTED_IDX := [1; 3]; MAX_EVENT_BATCH := 2 |}.
Definition esc_while_armed : cycle_env :=
  {| c_driver_err := false; c_arming := [(false, false); (false, true)];
     c_live_open := true; c_sel_work_ok := true; c_polls := [];
     c_move_ok := true;
     c_flush := {| f_time := Tm 125 9 30 14 5 7; f_open := true |} |}.

(** ** Cancellation *)

(** The poll [p] without its key press. *)
Definition no_esc (p : poll) : poll :=
  {| p_halfReady := p_halfReady p; p_fStop := p_fStop p;
     p_ai_buf := p_ai_buf p; p_ai_buf2 := p_ai_buf2 p;
     p_realloc_ok := p_realloc_ok p; p_esc := false |}.

(** The locals of the drain loop after [g_fStop = 1; exit_now = 1]. *)
Definition cancelled (st : drain_state) : drain_state :=
  {| d_heap := d_heap st; current_acq_buffer := current_acq_buffer st;
     current_acq_size := current_acq_size st; sel_work := sel_work st;
     current_buffer_idx := current_buffer_idx st;
     g_fStop := true; exit_now := true; d_io := d_io st |}.

(** A cycle of the scenario configuration in which ESC is pressed in the
    turn that delivers the first half buffer. *)
Definition esc_after_first_half : cycle_env :=
  {| c_driver_err := false; c_arming := [(true, false)];
     c_live_open := true; c_sel_work_ok := true;
     c_polls := [scenario_poll false true true; scenario_poll true true false];
     c_move_ok := true;
     c_flush := {| f_time := Tm 125 9 30 14 5 7; f_open := true |} |}.

(** ** The names of the log files *)

(** The broken-down times that [localtime] returns, for years of four
    digits. *)
Definition tm_wf (t : tm) : Prop :=
  0 <= tm_year t + 1900 < 10000 /\ 0 <= tm_mon t < 12 /\ 1 <= tm_mday t <= 31 /\
  0 <= tm_hour t < 24 /\ 0 <= tm_min t < 60 /\ 0 <= tm_sec t <= 60.

(** A flush in order: [fopen] gives the log file, and [localtime] gives a
    time of the calendar, so that [tm_year + 1900] and [tm_mon + 1] are
    sums of [int]s that do not overflow. *)
Definition flush_wf (fe : flush_env) : Prop :=
  f_open fe = true /\ tm_wf (f_time fe).

(** ** Notions for [ori.c] *)

(** Both DMA buffers are the static arrays
    [U16 ai_buf[BUFFER_SAMPLES * CHANNEL_COUNT]]. *)
Definition ori_poll_wf (p : poll) : Prop :=
  Z.of_nat (length (p_ai_buf p)) = Ori.BUFFER_SAMPLES * Ori.CHANNEL_COUNT /\
  Z.of_nat (length (p_ai_buf2 p)) = Ori.BUFFER_SAMPLES * Ori.CHANNEL_COUNT.

(** The state of the drain loop of [ori.c] between two turns, for a cycle
    entered with heap [h0], when the event holds the bytes [acc] so far. *)
Definition ori_drain_inv (h0 : heap_t) (acc : list Z) (st : drain_state) : Prop :=
  (current_buffer_idx st = 0 \/ current_buffer_idx st = 1) /\
  current_acq_size st = Z.of_nat (length acc) /\
  match current_acq_buffer st with
  | None => acc = [] /\ d_heap st = h0
  | Some q => h0 !! q = None /\ d_heap st = <[q := acc]> h0
  end.

(** A turn in which nothing goes wrong. *)
Definition ori_quiet (p : poll) : Prop :=
  ori_poll_wf p /\ p_realloc_ok p = true /\ p_esc p = false.

(** A cycle of [ori.c] that completes a non-empty event: the set-up calls
    succeed, the trigger arrives, the live temporary file opens, and the
    drain loop sees quiet turns until the driver reports the end of the
    acquisition, having delivered at least one half buffer. *)
Definition ori_completes (e : cycle_env) : Prop :=
  c_driver_err e = false /\
  wait_trigger (c_arming e) = Some false /\
  c_live_open e = true /\
  exists pre last rest,
    c_polls e = pre ++ last :: rest
    /\ Forall (fun p => ori_quiet p /\ p_fStop p = false) pre
    /\ ori_quiet last /\ p_fStop last = true
    /\ delivered 0 (pre ++ [last]) ≠ []
    /\ Z.of_nat (length (delivered 0 (pre ++ [last]))) * Ori.chunk_size
       < 2 ^ SIZE_WIDTH.

(** The bytes of the event of such a cycle: the half buffers as they are. *)
Definition ori_event_bytes (e : cycle_env) : list Z :=
  concat (bytes_of_u16s <$> delivered 0 (event_polls (c_polls e))).

(** Sample inputs for [ori.c]: a poll that shows two half buffers of
    zeros, and a cycle in which [realloc] fails on the second half buffer
    while ESC is pressed. *)
Definition ori_poll (stop ok esc : bool) : poll :=
  {| p_halfReady := true; p_fStop := stop;
     p_ai_buf := replicate (Z.to_nat (8192 * 2)) 0;
     p_ai_buf2 := replicate (Z.to_nat (8192 * 2)) 0;
     p_realloc_ok := ok; p_esc := esc |}.
Definition ori_second_half_fails : cycle_env :=
  {| c_driver_err := false; c_arming := [(true, false)];
     c_live_open := true; c_sel_work_ok := true;
     c_polls := [ori_poll false true false; ori_poll false false true];
     c_move_ok := true;
     c_flush := {| f_time := Tm 125 9 30 14 5 7; f_open := true |} |}.

(** ** Notions for [fft_zero.c] *)

(** The samples of channel [c] in the scans of one half buffer of two
    interleaved channels. *)
Definition channel_of (c : Z) (B : list Z) : list Z :=
  (fun i => default 0 (B !! Z.to_nat (i * FftZero.CHANNEL_COUNT + c)))
    <$> seqZ 0 FftZero.BUFFER_SAMPLES.

(** The spectral stage in the words of the specification: the mean of a
    channel is the sum of its samples, added up in [double], over the
    number of samples; zero-centering takes the mean of a channel from each
    of its samples; the spectrum of a channel has the magnitude of each bin
    of the transform of its samples; and the file has the magnitudes of the
    two channels in turn, bin by bin. *)
Definition mean (ch : list spec_float) : spec_float :=
  FftZero.float_of_double
    (FftZero.ddiv
       (foldl (fun sum x => FftZero.dadd sum (FftZero.double_of_float x))
              (S754_zero false) ch)
       (FftZero.double_of_int (Z.of_nat (length ch)))).
Definition centred (ch : list spec_float) : list spec_float :=
  (fun x => FftZero.fsub x (mean ch)) <$> ch.
Definition spectrum (twiddles : list FftZero.kiss_fft_cpx) (ch : list spec_float)
  : list spec_float :=
  FftZero.magnitude
    <$> FftZero.kiss_fft twiddles ((fun x => FftZero.Cpx x (S754_zero false)) <$> ch).
Definition spectrum_file (mag0 mag1 : list spec_float) (opened : bool) : list io_op :=
  if opened then
    [FOpen FftZero.fft_filepath true]
    ++ (zip mag0 mag1 ≫= fun ab =>
          [FWrite FftZero.fft_filepath (FftZero.float_bytes ab.1);
           FWrite FftZero.fft_filepath (FftZero.float_bytes ab.2)])
    ++ [FClose FftZero.fft_filepath]
  else [FOpen FftZero.fft_filepath false].

(** The numbers of [float]: zeros, and the finite values of binary32. *)
Definition float_finite (x : spec_float) : bool :=
  match x with
  | S754_zero _ => true
  | S754_finite _ m e => bounded 24 128 m e
  | _ => false
  end.
Definition cpx_finite (c : FftZero.kiss_fft_cpx) : bool :=
  float_finite (FftZero.r c) && float_finite (FftZero.i c).

(** A channel of [FFT_SIZE] samples that all are [c]. *)
Definition constant_channel (c : spec_float) : list spec_float :=
  replicate (Z.to_nat FftZero.FFT_SIZE) c.

(** An environment in which the stage finds its memory and its file, with
    a table of twiddle factors that all are 1. *)
Definition plain_fft_env : FftZero.fft_env :=
  {| FftZero.p_cfg :=
       Some (replicate (Z.to_nat FftZero.FFT_SIZE)
               (FftZero.Cpx (FftZero.float_of_U16 1) (S754_zero false)));
     FftZero.p_in_ok := true; FftZero.p_out_ok := true; FftZero.p_open := true |}.

(** The number of binary digits of a positive integer, and the normal
    number of precision [prec] with sign [s] and magnitude [a * 2 ^ e]. *)
Definition dig (a : Z) : Z := Z.log2 a + 1.
Definition canon (prec : Z) (s : bool) (a e : Z) : spec_float :=
  S754_finite s (Z.to_pos (a * 2 ^ (prec - dig a))) (e - (prec - dig a)).

(** ** Files that a call leaves alone *)

(** The calls that leave the file at [p] as it is. *)
Definition leaves (p : list Z) (op : io_op) : Prop :=
  match op with
  | Printf _ | FClose _ => True
  | FOpen q _ | FWrite q _ => q ≠ p
  | MoveFile a b ok => ok = false \/ (a ≠ p /\ b ≠ p)
  end.

(** A cycle of the scenario configuration that completes an event of two
    half buffers; its flush, if there is one, reads the clock at 14:05 and
    [sec] seconds. *)
Definition two_halves_cycle_at (sec : Z) : cycle_env :=
  {| c_driver_err := false; c_arming := [(true, false)];
     c_live_open := true; c_sel_work_ok := true;
     c_polls := [scenario_poll false true false; scenario_poll true true false];
     c_move_ok := true;
     c_flush := {| f_time := Tm 125 9 30 14 5 sec; f_open := true |} |}.
(** * Properties *)

Lemma size_t_small z : 0 <= z < 2 ^ SIZE_WIDTH -> size_t z = z.
Proof. intros H. unfold size_t. by apply Z.mod_small. Qed.

Lemma bind_Ok {A B} (m : outcome A) (f : A -> outcome B) a :
  m = Ok a -> (m ≫= f) = f a.
Proof. by intros ->. Qed.

Lemma load_Ok {A} (a : list A) (i : nat) v :
  a !! i = Some v -> load a (Z.of_nat i) = Ok v.
Proof.
  intros H. unfold load. rewrite decide_True by lia. by rewrite Nat2Z.id, H.
Qed.

Lemma store_Ok {A} (a : list A) (i : Z) v :
  0 <= i < Z.of_nat (length a) -> store a i v = Ok (<[Z.to_nat i := v]> a).
Proof. intros H. unfold store. by rewrite decide_True. Qed.

(** The invariant rule of a counted loop. *)
Lemma for_range_inv {S} (P : Z -> S -> Prop) (body : Z -> S -> outcome S) n i s :
  P i s ->
  (forall j t, i <= j < i + Z.of_nat n -> P j t ->
     exists t', body j t = Ok t' /\ P (j + 1) t') ->
  exists s', for_range n i body s = Ok s' /\ P (i + Z.of_nat n) s'.
Proof.
  revert i s. induction n as [|n IH]; intros i s Hi Hstep.
  - exists s. split; [done|]. by replace (i + Z.of_nat 0) with i by lia.
  - destruct (Hstep i s) as (t & Ht & HP); [lia|done|].
    destruct (IH (i + 1) t) as (s' & Hs' & HP'); [done| |].
    + intros j u Hj. apply Hstep. lia.
    + exists s'. split.
      * cbn [for_range]. by rewrite (bind_Ok _ _ _ Ht).
      * by replace (i + Z.of_nat (Datatypes.S n)) with (i + 1 + Z.of_nat n) by lia.
Qed.

Section Extract.
Variable cfg : config.
Variables src dst : list Z.

Local Abbreviation N := (BUFFER_SAMPLES cfg).
Local Abbreviation hw := (TOTAL_HW_CHANNELS cfg).
Local Abbreviation m := (SELECTED_COUNT cfg).

Hypothesis N_nonneg : 0 <= N.
Hypothesis src_len : Z.of_nat (length src) = N * hw.
Hypothesis dst_len : Z.of_nat (length dst) = N * m.
Hypothesis sel_range : Forall (fun c => 0 <= c < hw) (SELECTED_IDX cfg).
Hypothesis src_fits : N * hw < 2 ^ SIZE_WIDTH.
Hypothesis dst_fits : N * m < 2 ^ SIZE_WIDTH.

Local Abbreviation filled := (filled cfg src dst).

Lemma sel_lookup_range (k : nat) c :
  SELECTED_IDX cfg !! k = Some c -> 0 <= c < hw /\ Z.of_nat k < m.
Proof.
  intros H. split.
  - by eapply (proj1 (Forall_lookup _ _) sel_range).
  - apply lookup_lt_Some in H. unfold SELECTED_COUNT. lia.
Qed.

Lemma extract_slot_step (i j : Z) (st : list Z * Z) :
  0 <= i < N -> 0 <= j < m ->
  st.2 = i * m + j -> filled st ->
  exists st', extract_slot cfg src (size_t (i * hw)) j st = Ok st'
              /\ st'.2 = i * m + (j + 1) /\ filled st'.
Proof.
  intros Hi Hj Hout [Hlen Hfill]. destruct st as [d out]; simpl in *. subst out.
  assert (Hk : (Z.to_nat j < length (SELECTED_IDX cfg))%nat)
    by (unfold SELECTED_COUNT in Hj; lia).
  destruct (lookup_lt_is_Some_2 _ _ Hk) as [c Hc].
  destruct (sel_lookup_range _ _ Hc) as [Hcr _].
  assert (Hbase : size_t (i * hw) = i * hw) by (apply size_t_small; nia).
  assert (Hidx : size_t (i * hw + c) = i * hw + c) by (apply size_t_small; nia).
  assert (Hsrc : (Z.to_nat (i * hw + c) < length src)%nat) by nia.
  destruct (lookup_lt_is_Some_2 _ _ Hsrc) as [v Hv].
  assert (Hdst : 0 <= i * m + j < Z.of_nat (length d)) by nia.
  eexists. split; [|split].
  - unfold extract_slot.
    rewrite <- (Z2Nat.id j) at 1 by lia.
    rewrite (bind_Ok _ _ _ (load_Ok _ _ _ Hc)).
    rewrite Hbase, Hidx.
    rewrite <- (Z2Nat.id (i * hw + c)) by nia.
    rewrite (bind_Ok _ _ _ (load_Ok _ _ _ Hv)).
    rewrite (bind_Ok _ _ _ (store_Ok _ _ _ Hdst)). reflexivity.
  - simpl. rewrite size_t_small by nia. lia.
  - split; simpl.
    + by rewrite length_insert.
    + intros i' k' c' Hi' Hc' Hlt.
      destruct (sel_lookup_range _ _ Hc') as [_ Hk'].
      rewrite size_t_small in Hlt by nia.
      destruct (decide (i' * m + Z.of_nat k' = i * m + j)) as [Heq|Hne].
      * assert (i' = i) by nia. subst i'.
        assert (k' = Z.to_nat j) by lia. subst k'.
        rewrite Hc in Hc'. injection Hc' as <-.
        rewrite Heq. rewrite list_lookup_insert_eq by (rewrite length_insert || idtac; lia). by rewrite Hv.
      * assert (0 <= i' * m) by nia. assert (0 <= i * m) by nia.
        rewrite list_lookup_insert_ne by lia. apply Hfill; [done..|lia].
Qed.

Lemma extract_scan_step (i : Z) (st : list Z * Z) :
  0 <= i < N -> st.2 = i * m -> filled st ->
  exists st', extract_scan cfg src i st = Ok st'
              /\ st'.2 = (i + 1) * m /\ filled st'.
Proof.
  intros Hi Hout Hfill. unfold extract_scan.
  destruct (for_range_inv (fun j st => st.2 = i * m + j /\ filled st)
              (extract_slot cfg src (size_t (i * TOTAL_HW_CHANNELS cfg)))
              (length (SELECTED_IDX cfg)) 0 st) as (st' & Hrun & Hout' & Hfill').
  - split; [lia|done].
  - intros j t Hj [Ht1 Ht2].
    destruct (extract_slot_step i j t) as (t' & ? & ? & ?);
      [done|unfold SELECTED_COUNT; lia|done|done|].
    exists t'. split; [done|]. split; [lia|done].
  - exists st'. split; [done|]. split; [|done].
    rewrite Hout'. unfold SELECTED_COUNT. lia.
Qed.

Lemma extract_selected_channels_filled :
  exists dst', extract_selected_channels cfg src dst = Ok (dst', N * m)
               /\ filled (dst', N * m).
Proof.
  unfold extract_selected_channels.
  destruct (for_range_inv (fun i st => st.2 = i * m /\ filled st)
              (extract_scan cfg src) (Z.to_nat (BUFFER_SAMPLES cfg)) 0 (dst, 0))
    as ([d out] & Hrun & Hout & Hfill).
  - split; [simpl; lia|]. split; [done|]. simpl. intros i k c Hi Hc Hlt.
    destruct (sel_lookup_range _ _ Hc). nia.
  - intros j t Hj [Ht1 Ht2].
    destruct (extract_scan_step j t) as (t' & ? & ? & ?); [lia|done|done|].
    exists t'. split; [done|]. by split.
  - simpl in Hout. assert (out = N * m) by (rewrite Hout; f_equal; lia).
    clear Hout. subst out. exists d. split; assumption.
Qed.
End Extract.

(** Lookup in the concatenation of rows of one length. *)
Lemma lookup_bind_rows {A B} (f : A -> list B) (l : list A) (w i k : nat) :
  (forall x, x ∈ l -> length (f x) = w) -> (k < w)%nat ->
  (l ≫= f) !! (i * w + k)%nat = l !! i ≫= fun x => f x !! k.
Proof.
  revert i. induction l as [|a l IH]; intros i Hlen Hk.
  - by destruct i.
  - assert (Ha : length (f a) = w) by (apply Hlen; left).
    cbn [mbind list_bind]. destruct i as [|i].
    + cbn. apply lookup_app_l. lia.
    + rewrite lookup_app_r by (cbn; lia).
      replace (Datatypes.S i * w + k - length (f a))%nat with (i * w + k)%nat
        by (rewrite Ha; cbn; lia).
      cbn. apply IH; [|done]. intros x Hx. apply Hlen. by right.
Qed.

Lemma length_bind_rows {A B} (f : A -> list B) (l : list A) (w : nat) :
  (forall x, x ∈ l -> length (f x) = w) -> length (l ≫= f) = (length l * w)%nat.
Proof.
  induction l as [|a l IH]; intros Hlen; [done|].
  cbn [mbind list_bind]. rewrite length_app, Hlen by left. cbn.
  rewrite <- IH; [done|]. intros x Hx. apply Hlen. by right.
Qed.

Lemma extracted_length cfg src :
  0 <= BUFFER_SAMPLES cfg ->
  Z.of_nat (length (extracted cfg src)) = BUFFER_SAMPLES cfg * SELECTED_COUNT cfg.
Proof.
  intros HN. unfold extracted.
  rewrite (length_bind_rows _ _ (length (SELECTED_IDX cfg))).
  - rewrite length_seqZ. unfold SELECTED_COUNT. lia.
  - intros x _. by rewrite length_fmap.
Qed.

Lemma extracted_lookup cfg src (i : Z) (k : nat) c v :
  0 <= i < BUFFER_SAMPLES cfg ->
  SELECTED_IDX cfg !! k = Some c ->
  src !! Z.to_nat (i * TOTAL_HW_CHANNELS cfg + c) = Some v ->
  extracted cfg src !! Z.to_nat (i * SELECTED_COUNT cfg + Z.of_nat k) = Some v.
Proof.
  intros Hi Hc Hv. unfold extracted, SELECTED_COUNT.
  replace (Z.to_nat (i * Z.of_nat (length (SELECTED_IDX cfg)) + Z.of_nat k))
    with (Z.to_nat i * length (SELECTED_IDX cfg) + k)%nat by nia.
  rewrite (lookup_bind_rows _ _ (length (SELECTED_IDX cfg))).
  - rewrite (lookup_seqZ_lt 0 (BUFFER_SAMPLES cfg) (Z.to_nat i)) by lia. cbn.
    rewrite list_lookup_fmap, Hc. cbn.
    replace (0 + Z.of_nat (Z.to_nat i)) with i by lia. by rewrite Hv.
  - intros x _. by rewrite length_fmap.
  - by apply lookup_lt_Some in Hc.
Qed.

(** [extract_selected_channels] is defined on well-formed input, leaves the
    cursor at the end of the destination, and every slot holds the sample
    of its scan and channel. *)
Lemma config_wf_selection cfg : config_wf cfg -> selection_wf cfg.
Proof.
  intros (HN & Hsel & Hfit & Hfit2). repeat split; try done.
  assert (0 <= SELECTED_COUNT cfg) by (unfold SELECTED_COUNT; lia). nia.
Qed.

Lemma extract_selected_channels_ok cfg src dst :
  selection_wf cfg ->
  Z.of_nat (length src) = BUFFER_SAMPLES cfg * TOTAL_HW_CHANNELS cfg ->
  Z.of_nat (length dst) = BUFFER_SAMPLES cfg * SELECTED_COUNT cfg ->
  extract_selected_channels cfg src dst
  = Ok (extracted cfg src, BUFFER_SAMPLES cfg * SELECTED_COUNT cfg).
Proof.
  intros (HN & Hsel & Hfit & Hfit2) Hsrc Hdst.
  assert (0 <= SELECTED_COUNT cfg) by (unfold SELECTED_COUNT; lia).
  destruct (extract_selected_channels_filled cfg src dst) as (d & Hrun & Hlen & Hfill);
    [done..|].
  rewrite Hrun. do 2 f_equal. simpl in *.
  apply list_eq_same_length with (length dst); [|done|].
  { apply Nat2Z.inj. rewrite extracted_length by done. lia. }
  intros t x y Ht Hx Hy.
  assert (Hm : 0 < SELECTED_COUNT cfg) by nia.
  set (i := Z.of_nat t / SELECTED_COUNT cfg).
  set (k := Z.to_nat (Z.of_nat t mod SELECTED_COUNT cfg)).
  assert (Hk : 0 <= Z.of_nat t mod SELECTED_COUNT cfg < SELECTED_COUNT cfg)
    by (apply Z.mod_pos_bound; lia).
  assert (Ht' : Z.of_nat t = i * SELECTED_COUNT cfg + Z.of_nat k).
  { unfold i, k. rewrite Z2Nat.id by lia.
    rewrite (Z.div_mod (Z.of_nat t) (SELECTED_COUNT cfg)) at 1 by lia. lia. }
  assert (Hi : 0 <= i < BUFFER_SAMPLES cfg).
  { split; [apply Z.div_pos; lia|]. apply Z.div_lt_upper_bound; lia. }
  assert (Hkl : (k < length (SELECTED_IDX cfg))%nat) by (unfold k; unfold SELECTED_COUNT in Hk |- *; lia).
  destruct (lookup_lt_is_Some_2 _ _ Hkl) as [c Hc].
  assert (Hcr : 0 <= c < TOTAL_HW_CHANNELS cfg)
    by (by eapply (proj1 (Forall_lookup _ _) Hsel)).
  assert (Hs : (Z.to_nat (i * TOTAL_HW_CHANNELS cfg + c) < length src)%nat) by nia.
  destruct (lookup_lt_is_Some_2 _ _ Hs) as [v Hv].
  replace t with (Z.to_nat (i * SELECTED_COUNT cfg + Z.of_nat k)) in Hx, Hy by (rewrite <- Ht'; lia).
  rewrite (extracted_lookup _ _ _ _ _ _ Hi Hc Hv) in Hy.
  rewrite (Hfill i k c) in Hx by (done || lia).
  congruence.
Qed.

(** C1. For every half buffer of [BUFFER_SAMPLES] scans of
    [TOTAL_HW_CHANNELS] interleaved samples and every selection whose
    entries name scanned channels, [extract_selected_channels] runs to its
    end having written exactly [BUFFER_SAMPLES * SELECTED_COUNT] samples,
    and for each scan [i] and each selection entry [k] the output slot
    [i * SELECTED_COUNT + k] holds [src[i * TOTAL_HW_CHANNELS + SELECTED_IDX[k]]]. *)
Theorem extract_selected_channels_correct cfg (src dst : list Z) :
  selection_wf cfg ->
  Z.of_nat (length src) = BUFFER_SAMPLES cfg * TOTAL_HW_CHANNELS cfg ->
  Z.of_nat (length dst) = BUFFER_SAMPLES cfg * SELECTED_COUNT cfg ->
  exists out : list Z,
    extract_selected_channels cfg src dst
      = Ok (out, BUFFER_SAMPLES cfg * SELECTED_COUNT cfg)
    /\ Z.of_nat (length out) = BUFFER_SAMPLES cfg * SELECTED_COUNT cfg
    /\ out = extracted cfg src
    /\ forall (i : Z) (k : nat) (c : Z),
         0 <= i < BUFFER_SAMPLES cfg -> SELECTED_IDX cfg !! k = Some c ->
         out !! Z.to_nat (i * SELECTED_COUNT cfg + Z.of_nat k)
         = src !! Z.to_nat (i * TOTAL_HW_CHANNELS cfg + c)
         /\ is_Some (src !! Z.to_nat (i * TOTAL_HW_CHANNELS cfg + c)).
Proof.
  intros Hwf Hsrc Hdst. exists (extracted cfg src).
  split; [by apply extract_selected_channels_ok|].
  destruct Hwf as (HN & Hsel & Hfit & Hfit2).
  split; [by apply extracted_length|]. split; [done|].
  intros i k c Hi Hc.
  assert (Hcr : 0 <= c < TOTAL_HW_CHANNELS cfg)
    by (by eapply (proj1 (Forall_lookup _ _) Hsel)).
  assert (Hs : (Z.to_nat (i * TOTAL_HW_CHANNELS cfg + c) < length src)%nat) by nia.
  destruct (lookup_lt_is_Some_2 _ _ Hs) as [v Hv].
  rewrite Hv. split; [|by eexists]. by eapply extracted_lookup.
Qed.

Lemma scenario_config_wf : config_wf scenario_config.
Proof.
  unfold config_wf. cbn. split; [lia|]. split; [|split; reflexivity].
  repeat constructor; lia.
Qed.

(** The worked scenario of C1: selection {1,3} over four channels, two
    scans, source [10,20,30,40, 11,21,31,41] gives [20,40, 21,41]. *)
Lemma extract_selected_channels_scenario :
  extract_selected_channels scenario_config [10;20;30;40; 11;21;31;41] [0;0;0;0]
  = Ok ([20;40; 21;41], 4).
Proof.
  destruct (extract_selected_channels_correct scenario_config
              [10;20;30;40; 11;21;31;41] [0;0;0;0]
              (config_wf_selection _ scenario_config_wf) eq_refl eq_refl)
    as (out & Hrun & _ & Hout & _).
  rewrite Hrun, Hout. reflexivity.
Defined.

(** ** The drain loop *)

Lemma length_bytes_of_u16s (l : list Z) :
  length (bytes_of_u16s l) = (2 * length l)%nat.
Proof.
  unfold bytes_of_u16s. rewrite (length_bind_rows _ _ 2); [lia|done].
Qed.

Lemma chunk_length cfg src :
  config_wf cfg -> Z.of_nat (length (chunk cfg src)) = sel_chunk_bytes cfg.
Proof.
  intros (HN & _ & _ & Hfit). unfold chunk.
  assert (0 <= SELECTED_COUNT cfg) by (unfold SELECTED_COUNT; lia).
  rewrite length_bytes_of_u16s, Nat2Z.inj_mul, extracted_length by done.
  unfold sel_chunk_bytes, sel_chunk_samps.
  rewrite (size_t_small (_ * SELECTED_COUNT cfg)) by nia.
  rewrite size_t_small by nia. lia.
Qed.

Lemma length_concat_chunks cfg (ds : list (list Z)) :
  config_wf cfg ->
  Z.of_nat (length (concat (chunk cfg <$> ds)))
  = Z.of_nat (length ds) * sel_chunk_bytes cfg.
Proof.
  intros Hwf. induction ds as [|x d IHd]; [done|].
  cbn. rewrite length_app, Nat2Z.inj_add, IHd, chunk_length by done. lia.
Qed.

Lemma sel_chunk_bytes_nonneg cfg : 0 <= sel_chunk_bytes cfg.
Proof. unfold sel_chunk_bytes, size_t. apply Z.mod_pos_bound. reflexivity. Qed.

Section DrainHalf.
Variable cfg : config.
Variable live : bool.
Variable h0 : heap_t.
Variable p : poll.
Variable st : drain_state.
Variable acc : list Z.

Hypothesis cfg_wf : config_wf cfg.
Hypothesis p_wf : poll_wf cfg p.
Hypothesis st_inv : drain_inv cfg h0 acc st.

Local Abbreviation source_buffer :=
  (if decide (current_buffer_idx st = 0) then p_ai_buf p else p_ai_buf2 p).

Lemma drain_half_extract :
  extract_selected_channels cfg source_buffer (sel_work st)
  = Ok (extracted cfg source_buffer, BUFFER_SAMPLES cfg * SELECTED_COUNT cfg).
Proof.
  destruct st_inv as (Hw & _). destruct p_wf as [H1 H2].
  apply extract_selected_channels_ok; [by apply config_wf_selection| |done].
  by case_decide.
Qed.

(** The chunk is appended when [realloc] finds the memory. *)
Lemma drain_half_grow :
  p_realloc_ok p = true ->
  Z.of_nat (length acc) + sel_chunk_bytes cfg < 2 ^ SIZE_WIDTH ->
  exists q,
    h0 !! q = None /\
    drain_half cfg live p st
    = Ok {| d_heap := <[q := acc ++ chunk cfg source_buffer]> h0;
            current_acq_buffer := Some q;
            current_acq_size := current_acq_size st + sel_chunk_bytes cfg;
            sel_work := extracted cfg source_buffer;
            current_buffer_idx := 1 - current_buffer_idx st;
            g_fStop := g_fStop st; exit_now := exit_now st;
            d_io := d_io st ++
                    (if live then [FWrite live_filepath_tmp (chunk cfg source_buffer)]
                     else []) |}.
Proof.
  intros Hok Hfit.
  pose proof (chunk_length cfg source_buffer cfg_wf) as Hcl.
  pose proof (sel_chunk_bytes_nonneg cfg) as Hcb.
  destruct st_inv as (Hw & Hidx & Hsize & Hbuf).
  set (q := fresh (dom h0)).
  assert (Hq : h0 !! q = None) by (apply not_elem_of_dom, is_fresh).
  exists q. split; [done|].
  unfold drain_half. rewrite drain_half_extract. cbn [mbind outcome_bind].
  rewrite Hok, Hsize, size_t_small by lia.
  fold (chunk cfg source_buffer).
  set (sb := source_buffer) in *.
  set (c := chunk cfg sb) in *.
  assert (Hcn : Z.to_nat (sel_chunk_bytes cfg) = length c) by lia.
  assert (Han : Z.to_nat (Z.of_nat (length acc) + sel_chunk_bytes cfg)
                = (length acc + length c)%nat) by lia.
  assert (Htc : take (length c) c = c) by (by apply take_ge).
  destruct (current_acq_buffer st) as [p0|] eqn:Hcur.
  - destruct Hbuf as [Hp0 Hheap]. unfold realloc.
    rewrite Hheap, lookup_insert_eq, (delete_insert_id _ _ _ Hp0).
    fold q. rewrite Han. cbn [mbind outcome_bind]. unfold memcpy.
    rewrite lookup_insert_eq.
    rewrite decide_True
      by (rewrite length_take, length_app, length_replicate; lia).
    rewrite insert_insert_eq, Han, Hcn, Nat2Z.id, Htc. cbn [mbind outcome_bind].
    rewrite take_take, Nat.min_l, take_app_length by lia.
    rewrite drop_ge, app_nil_r by (rewrite length_take; lia).
    reflexivity.
  - destruct Hbuf as [-> Hheap]. unfold realloc. rewrite Hheap. fold q.
    cbn [mbind outcome_bind]. unfold memcpy. rewrite lookup_insert_eq.
    cbn [length] in *.
    rewrite length_replicate, decide_True by lia.
    rewrite insert_insert_eq, Hcn, Htc. cbn [mbind outcome_bind].
    rewrite drop_ge by (rewrite length_replicate; lia).
    cbn. by rewrite app_nil_r.
Qed.

(** The event is given up when [realloc] fails: what was accumulated is
    freed and the loop is told to stop. *)
Lemma drain_half_fail :
  p_realloc_ok p = false ->
  drain_half cfg live p st
  = Ok {| d_heap := h0; current_acq_buffer := None; current_acq_size := 0;
          sel_work := extracted cfg source_buffer;
          current_buffer_idx := 1 - current_buffer_idx st;
          g_fStop := true; exit_now := exit_now st; d_io := d_io st |}.
Proof.
  intros Hno. destruct st_inv as (Hw & Hidx & Hsize & Hbuf).
  unfold drain_half. rewrite drain_half_extract. cbn [mbind outcome_bind].
  rewrite Hno. destruct (current_acq_buffer st) as [p0|] eqn:Hcur.
  - destruct Hbuf as [Hp0 Hheap]. unfold realloc, free.
    rewrite Hheap, lookup_insert_eq. cbn [mbind outcome_bind].
    rewrite lookup_insert_eq. cbn [mbind outcome_bind].
    by rewrite (delete_insert_id _ _ _ Hp0).
  - destruct Hbuf as [_ Hheap]. unfold realloc, free. cbn [mbind outcome_bind].
    by rewrite Hheap.
Qed.
End DrainHalf.

Lemma drain_inv_read cfg h0 acc st :
  drain_inv cfg h0 acc st ->
  read_block (d_heap st) (current_acq_buffer st) (current_acq_size st) = Ok acc.
Proof.
  intros (_ & _ & Hsize & Hbuf). unfold read_block.
  destruct (current_acq_buffer st) as [q|].
  - destruct Hbuf as [_ ->]. rewrite lookup_insert_eq, Hsize, Nat2Z.id.
    rewrite decide_True by lia. by rewrite firstn_all.
  - destruct Hbuf as [-> _]. by rewrite Hsize.
Qed.

Lemma live_writes_nil live : live_writes live [] = [].
Proof. by destruct live. Qed.

Lemma live_writes_app live cs1 cs2 :
  live_writes live (cs1 ++ cs2) = live_writes live cs1 ++ live_writes live cs2.
Proof. unfold live_writes. destruct live; [by rewrite fmap_app|done]. Qed.

Section DrainTurn.
Variable cfg : config.
Variable live : bool.
Variable h0 : heap_t.
Hypothesis cfg_wf : config_wf cfg.

(** One turn in which nothing goes wrong appends the delivered half
    buffer, if there is one, and leaves the stop flag as the driver
    reported it. *)
Lemma drain_turn_quiet p st acc :
  quiet cfg p -> drain_inv cfg h0 acc st ->
  Z.of_nat (length acc)
    + Z.of_nat (length (delivered (current_buffer_idx st) [p])) * sel_chunk_bytes cfg
    < 2 ^ SIZE_WIDTH ->
  exists st1,
    drain_turn cfg live p st = Ok st1
    /\ drain_inv cfg h0
         (acc ++ concat (chunk cfg <$> delivered (current_buffer_idx st) [p])) st1
    /\ g_fStop st1 = p_fStop p
    /\ exit_now st1 = exit_now st
    /\ d_io st1 = d_io st
                  ++ live_writes live (chunk cfg <$> delivered (current_buffer_idx st) [p])
    /\ current_buffer_idx st1
       = (if p_halfReady p then 1 - current_buffer_idx st else current_buffer_idx st).
Proof.
  intros (Hwf & Hok & Hesc) Hinv Hfit. unfold drain_turn.
  cbn [delivered] in *. rewrite Hesc.
  destruct (p_halfReady p) eqn:Hready.
  - set (st0 := Drain _ _ _ _ _ (p_fStop p) _ _).
    assert (Hinv0 : drain_inv cfg h0 acc st0) by exact Hinv.
    destruct (drain_half_grow cfg live h0 p st0 acc cfg_wf Hwf Hinv0 Hok)
      as (q & Hq & Hrun).
    { cbn [length] in Hfit. lia. }
    rewrite Hrun. cbn [mbind outcome_bind]. eexists. split; [reflexivity|].
    destruct Hinv as (Hw & Hidx & Hsize & _).
    unfold drain_inv. cbn. rewrite app_nil_r.
    repeat split; try done; try lia.
    all: try (apply extracted_length, cfg_wf).
    all: try (rewrite length_app, Nat2Z.inj_add, chunk_length by done; lia).
    all: unfold live_writes; by destruct live.
  - cbn [mbind outcome_bind]. eexists. split; [reflexivity|].
    unfold drain_inv in *. cbn. rewrite !app_nil_r.
    rewrite live_writes_nil, app_nil_r. repeat split; apply Hinv.
Qed.

(** A turn in which [realloc] fails gives the event up. *)
Lemma drain_turn_fail p st acc :
  poll_wf cfg p -> drain_inv cfg h0 acc st ->
  p_halfReady p = true -> p_realloc_ok p = false ->
  exists st1,
    drain_turn cfg live p st = Ok st1
    /\ d_heap st1 = h0
    /\ current_acq_buffer st1 = None
    /\ current_acq_size st1 = 0
    /\ g_fStop st1 = true
    /\ exit_now st1 = (exit_now st || p_esc p)%bool
    /\ d_io st1 = d_io st.
Proof.
  intros Hwf Hinv Hready Hno. unfold drain_turn. rewrite Hready.
  set (st0 := Drain _ _ _ _ _ (p_fStop p) _ _).
  assert (Hinv0 : drain_inv cfg h0 acc st0) by exact Hinv.
  rewrite (drain_half_fail cfg live h0 p st0 acc cfg_wf Hwf Hinv0 Hno).
  cbn [mbind outcome_bind]. eexists. split; [reflexivity|].
  destruct (p_esc p); cbn; repeat split; try done; by rewrite ?orb_true_r, ?orb_false_r.
Qed.

(** A run of quiet turns that the driver does not stop. *)
Lemma drain_quiet_prefix pre : forall st acc,
  Forall (fun p => quiet cfg p /\ p_fStop p = false) pre ->
  drain_inv cfg h0 acc st ->
  Z.of_nat (length acc)
    + Z.of_nat (length (delivered (current_buffer_idx st) pre)) * sel_chunk_bytes cfg
    < 2 ^ SIZE_WIDTH ->
  exists st',
    (forall rest, drain cfg live (pre ++ rest) st = drain cfg live rest st')
    /\ drain_inv cfg h0
         (acc ++ concat (chunk cfg <$> delivered (current_buffer_idx st) pre)) st'
    /\ exit_now st' = exit_now st
    /\ d_io st' = d_io st
                  ++ live_writes live (chunk cfg <$> delivered (current_buffer_idx st) pre)
    /\ (forall rest, delivered (current_buffer_idx st) (pre ++ rest)
                     = delivered (current_buffer_idx st) pre
                       ++ delivered (current_buffer_idx st') rest).
Proof.
  pose proof (sel_chunk_bytes_nonneg cfg) as Hcb.
  induction pre as [|p pre IH]; intros st acc Hall Hinv Hfit.
  - exists st. cbn. rewrite live_writes_nil, !app_nil_r.
    split; [done|]. split; [done|]. split; [done|]. split; done.
  - apply Forall_cons in Hall as [[Hq Hstop] Hall].
    set (d1 := delivered (current_buffer_idx st) [p]).
    assert (Hd : forall rest, delivered (current_buffer_idx st) (p :: rest)
               = d1 ++ delivered (if p_halfReady p then 1 - current_buffer_idx st
                                  else current_buffer_idx st) rest).
    { intros rest. unfold d1. cbn [delivered]. destruct (p_halfReady p); reflexivity. }
    rewrite Hd in Hfit. rewrite length_app in Hfit.
    destruct (drain_turn_quiet p st acc Hq Hinv) as (st1 & Hrun & Hinv1 & Hs1 & He1 & Hio1 & Hi1).
    { fold d1. nia. }
    fold d1 in Hinv1, Hio1. rewrite <- Hi1 in Hd, Hfit.
    destruct (IH st1 _ Hall Hinv1) as (st' & Hrun' & Hinv' & He' & Hio' & Hd').
    { rewrite length_app, Nat2Z.inj_add, length_concat_chunks by done. lia. }
    exists st'. split; [|split; [|split; [|split]]].
    + intros rest. cbn [app drain]. rewrite Hrun. cbn [mbind outcome_bind].
      rewrite Hs1, Hstop. apply Hrun'.
    + rewrite Hd, fmap_app, concat_app, app_assoc. exact Hinv'.
    + congruence.
    + by rewrite Hio', Hio1, Hd, fmap_app, live_writes_app, <- app_assoc.
    + intros rest. cbn [app]. rewrite !Hd, Hd', app_assoc. done.
Qed.
End DrainTurn.

Lemma delivered_wf cfg idx polls :
  Forall (poll_wf cfg) polls ->
  Forall (fun B => Z.of_nat (length B) = BUFFER_SAMPLES cfg * TOTAL_HW_CHANNELS cfg)
         (delivered idx polls).
Proof.
  intros Hall. revert idx. induction Hall as [|p polls [H1 H2] _ IH]; intros idx.
  - constructor.
  - cbn [delivered]. destruct (p_halfReady p); [|apply IH].
    constructor; [by case_decide|apply IH].
Qed.

Lemma delivered_prefix_length idx pre rest :
  (length (delivered idx pre) <= length (delivered idx (pre ++ rest)))%nat.
Proof.
  revert idx. induction pre as [|p pre IH]; intros idx; cbn; [lia|].
  destruct (p_halfReady p); cbn; [specialize (IH (1 - idx))|specialize (IH idx)]; lia.
Qed.

(** A run of quiet turns ended by the driver's stop. *)
Lemma drain_completes cfg (live : bool) (h0 : heap_t) (pre : list poll)
    (last : poll) (rest : list poll) (st0 : drain_state) :
  config_wf cfg ->
  drain_inv cfg h0 [] st0 ->
  current_buffer_idx st0 = 0 ->
  Forall (fun p => quiet cfg p /\ p_fStop p = false) pre ->
  quiet cfg last -> p_fStop last = true ->
  Z.of_nat (length (delivered 0 (pre ++ [last]))) * sel_chunk_bytes cfg < 2 ^ SIZE_WIDTH ->
  let cs := chunk cfg <$> delivered 0 (pre ++ [last]) in
  exists st',
    drain cfg live (pre ++ last :: rest) st0 = Ok st'
    /\ drain_inv cfg h0 (concat cs) st'
    /\ exit_now st' = exit_now st0
    /\ d_io st' = d_io st0 ++ live_writes live cs.
Proof.
  intros Hwf Hinv0 Hidx Hpre Hlast Hstop Hfit cs.
  pose proof (sel_chunk_bytes_nonneg cfg) as Hcb.
  destruct (drain_quiet_prefix cfg live h0 Hwf pre st0 [] Hpre Hinv0)
    as (st1 & Hrun1 & Hinv1 & He1 & Hio1 & Hd).
  { rewrite Hidx. cbn [length].
    pose proof (delivered_prefix_length 0 pre [last]). nia. }
  rewrite Hidx in Hd, Hinv1, Hio1. cbn [app] in Hinv1.
  destruct (drain_turn_quiet cfg live h0 Hwf last st1 _ Hlast Hinv1)
    as (st2 & Hrun2 & Hinv2 & Hs2 & He2 & Hio2 & _).
  { rewrite length_concat_chunks by done.
    rewrite Hd, length_app in Hfit. lia. }
  rewrite <- concat_app, <- fmap_app, <- Hd in Hinv2.
  exists st2. split; [|split; [|split]].
  - rewrite Hrun1. cbn [drain]. rewrite Hrun2. cbn [mbind outcome_bind].
    by rewrite Hs2, Hstop.
  - exact Hinv2.
  - congruence.
  - rewrite Hio2, Hio1, <- app_assoc, <- live_writes_app, <- fmap_app, <- Hd. done.
Qed.

(** C2. When the driver delivers the half buffers B0, B1, B2, ... in order
    during one event, with no allocation failure and no cancellation, the
    drain loop ends when the driver reports the end of the acquisition, and
    the event buffer then holds exactly the bytes of extract(B0) followed by
    those of extract(B1), extract(B2), ... in the order of arrival; each
    extract(B) is what [extract_selected_channels] writes for [B]. *)
Theorem drain_event_is_concatenation cfg (live : bool) (pre : list poll)
    (last : poll) (rest : list poll) (st0 : drain_state) :
  config_wf cfg ->
  current_acq_buffer st0 = None ->
  current_acq_size st0 = 0 ->
  current_buffer_idx st0 = 0 ->
  Z.of_nat (length (sel_work st0)) = BUFFER_SAMPLES cfg * SELECTED_COUNT cfg ->
  Forall (fun p => quiet cfg p /\ p_fStop p = false) pre ->
  quiet cfg last -> p_fStop last = true ->
  Z.of_nat (length (delivered 0 (pre ++ [last]))) * sel_chunk_bytes cfg < 2 ^ SIZE_WIDTH ->
  let halves := delivered 0 (pre ++ [last]) in
  exists st',
    drain cfg live (pre ++ last :: rest) st0 = Ok st'
    /\ read_block (d_heap st') (current_acq_buffer st') (current_acq_size st')
       = Ok (concat (chunk cfg <$> halves))
    /\ current_acq_size st' = Z.of_nat (length (concat (chunk cfg <$> halves)))
    /\ Forall (fun B => forall dst,
                 Z.of_nat (length dst) = BUFFER_SAMPLES cfg * SELECTED_COUNT cfg ->
                 extract_selected_channels cfg B dst
                 = Ok (extracted cfg B, BUFFER_SAMPLES cfg * SELECTED_COUNT cfg)
                 /\ chunk cfg B = bytes_of_u16s (extracted cfg B)) halves.
Proof.
  intros Hwf Hcur Hsize Hidx Hwork Hpre Hlast Hstop Hfit halves.
  assert (Hinv0 : drain_inv cfg (d_heap st0) [] st0).
  { unfold drain_inv. rewrite Hcur, Hsize, Hidx. by auto. }
  destruct (drain_completes cfg live (d_heap st0) pre last rest st0
              Hwf Hinv0 Hidx Hpre Hlast Hstop Hfit) as (st' & Hrun & Hinv & _).
  fold halves in Hinv. exists st'. split; [done|]. split; [|split].
  - by eapply drain_inv_read.
  - apply Hinv.
  - assert (Hall : Forall (poll_wf cfg) (pre ++ [last])).
    { apply Forall_app. split; [|by repeat constructor; apply Hlast].
      eapply Forall_impl; [exact Hpre|]. by intros p [[? _] _]. }
    eapply Forall_impl; [exact (delivered_wf cfg 0 _ Hall)|].
    intros B HB dst Hdst. split; [|done].
    by apply extract_selected_channels_ok; [apply config_wf_selection|..].
Qed.

Lemma scenario_poll_quiet stop : quiet scenario_config (scenario_poll stop true false).
Proof. by repeat split. Qed.

(** An event of two half buffers in the scenario configuration. *)
Lemma drain_event_is_concatenation_scenario :
  exists st',
    drain scenario_config true
      [scenario_poll false true false; scenario_poll true true false] scenario_entry
    = Ok st'
    /\ read_block (d_heap st') (current_acq_buffer st') (current_acq_size st')
       = Ok [20;0; 40;0; 21;0; 41;0; 120;0; 140;0; 121;0; 141;0].
Proof.
  destruct (drain_event_is_concatenation scenario_config true
              [scenario_poll false true false] (scenario_poll true true false) []
              scenario_entry scenario_config_wf eq_refl eq_refl eq_refl eq_refl)
    as (st' & Hrun & Hread & _).
  - repeat constructor.
  - apply scenario_poll_quiet.
  - reflexivity.
  - reflexivity.
  - exists st'. split; [exact Hrun|exact Hread].
Defined.

(** ** One trigger cycle *)

Lemma sel_chunk_bytes_eq cfg :
  config_wf cfg ->
  sel_chunk_bytes cfg = BUFFER_SAMPLES cfg * SELECTED_COUNT cfg * 2.
Proof.
  intros (HN & _ & _ & Hfit). unfold sel_chunk_bytes, sel_chunk_samps.
  assert (0 <= SELECTED_COUNT cfg) by (unfold SELECTED_COUNT; lia).
  rewrite (size_t_small (_ * SELECTED_COUNT cfg)) by nia.
  apply size_t_small. nia.
Qed.

Lemma sel_work_entry_length cfg :
  config_wf cfg ->
  Z.of_nat (length (replicate (Z.to_nat (sel_chunk_bytes cfg / 2)) 0))
  = BUFFER_SAMPLES cfg * SELECTED_COUNT cfg.
Proof.
  intros Hwf. rewrite length_replicate, (sel_chunk_bytes_eq cfg Hwf), Z.div_mul by lia.
  destruct Hwf as (HN & _). assert (0 <= SELECTED_COUNT cfg) by (unfold SELECTED_COUNT; lia).
  nia.
Qed.

(** The locals on entry of the drain loop satisfy its invariant. *)
Lemma drain_entry_inv cfg (w : world) (ops : list io_op) :
  config_wf cfg ->
  drain_inv cfg (heap w) []
    {| d_heap := heap w; current_acq_buffer := None; current_acq_size := 0;
       sel_work := replicate (Z.to_nat (sel_chunk_bytes cfg / 2)) 0;
       current_buffer_idx := 0; g_fStop := false; exit_now := false;
       d_io := ops |}.
Proof.
  intros Hwf. unfold drain_inv. cbn. split; [by apply sel_work_entry_length|]. auto.
Qed.

(** C6. When growing the event buffer fails on some chunk, the cycle still
    runs to its end: every block the event had obtained is freed (the heap
    is the one the cycle started with), the batch and its event count are
    unchanged, the process has neither exited nor misbehaved, and, unless
    ESC was pressed in that same turn, [main] goes on with the next
    trigger cycle. *)
Theorem alloc_failure_discards_event cfg (e : cycle_env) (w : world)
    (pre : list poll) (p : poll) (rest : list poll) :
  config_wf cfg ->
  c_driver_err e = false ->
  wait_trigger (c_arming e) = Some false ->
  c_sel_work_ok e = true ->
  c_polls e = pre ++ p :: rest ->
  Forall (fun p => quiet cfg p /\ p_fStop p = false) pre ->
  poll_wf cfg p -> p_halfReady p = true -> p_realloc_ok p = false ->
  Z.of_nat (length (delivered 0 pre)) * sel_chunk_bytes cfg < 2 ^ SIZE_WIDTH ->
  exists w',
    cycle cfg e w = Ok (w', p_esc p)
    /\ heap w' = heap w
    /\ g_data_buffer w' = g_data_buffer w
    /\ g_buffered_count w' = g_buffered_count w
    /\ (p_esc p = false ->
        forall es, main_loop cfg (e :: es) w = main_loop cfg es w').
Proof.
  intros Hwf Herr Harm Hsel Hpolls Hpre Hp Hready Hno Hfit.
  unfold cycle. rewrite Herr, Harm, Hsel, Hpolls. cbn [mbind outcome_bind negb].
  set (st0 := Drain _ _ _ _ _ _ _ _).
  assert (Hinv0 : drain_inv cfg (heap w) [] st0) by exact (drain_entry_inv cfg w _ Hwf).
  destruct (drain_quiet_prefix cfg (c_live_open e) (heap w) Hwf pre st0 [] Hpre Hinv0)
    as (st1 & Hrun1 & Hinv1 & He1 & _); [cbn; lia|].
  destruct (drain_turn_fail cfg (c_live_open e) (heap w) Hwf p st1 _ Hp Hinv1 Hready Hno)
    as (st2 & Hrun2 & Hh2 & Hc2 & Hs2 & Hstop2 & He2 & _).
  rewrite Hrun1. cbn [drain]. rewrite Hrun2. cbn [mbind outcome_bind].
  rewrite Hstop2. cbn [mbind outcome_bind].
  unfold batch_event, batch_event_with. rewrite Hc2, Hs2.
  rewrite decide_False by (intros [? _]; done).
  cbn [mbind outcome_bind]. rewrite He2, He1. cbn.
  eexists. split; [reflexivity|]. cbn. split; [done|]. split; [done|]. split; [done|].
  intros Hesc es. cbn [main_loop]. unfold cycle.
  rewrite Herr, Harm, Hsel, Hpolls. cbn [mbind outcome_bind negb].
  fold st0. rewrite Hrun1. cbn [drain]. rewrite Hrun2. cbn [mbind outcome_bind].
  rewrite Hstop2. cbn [mbind outcome_bind].
  unfold batch_event, batch_event_with. rewrite Hc2, Hs2.
  rewrite decide_False by (intros [? _]; done).
  cbn [mbind outcome_bind]. by rewrite He2, He1, Hesc.
Qed.

(** ** The batch *)

Section BatchEvent.
Variable cfg : config.
Variable fe : flush_env.
Variable w : world.
Variable q : positive.
Variable n : Z.
Hypothesis n_pos : n > 0.

Lemma batch_event_append :
  0 <= g_buffered_count w < Z.of_nat (length (g_data_buffer w)) ->
  g_buffered_count w + 1 < MAX_EVENT_BATCH cfg ->
  batch_event cfg fe (Some q) n w
  = Ok {| heap := heap w;
          g_data_buffer := <[Z.to_nat (g_buffered_count w) := Acq (Some q) n]>
                             (g_data_buffer w);
          g_buffered_count := g_buffered_count w + 1; io := io w |}.
Proof.
  intros Hrange Hroom. unfold batch_event, batch_event_with.
  rewrite decide_True by done. rewrite store_Ok by done.
  cbn [mbind outcome_bind g_buffered_count]. by rewrite decide_False by lia.
Qed.

Lemma batch_event_flush_fail :
  0 <= g_buffered_count w < Z.of_nat (length (g_data_buffer w)) ->
  g_buffered_count w + 1 >= MAX_EVENT_BATCH cfg ->
  f_open fe = false ->
  let path := log_filepath (f_time fe) (g_buffered_count w + 1) in
  batch_event cfg fe (Some q) n w
  = Ok {| heap := heap w;
          g_data_buffer := <[Z.to_nat (g_buffered_count w) := Acq (Some q) n]>
                             (g_data_buffer w);
          g_buffered_count := g_buffered_count w + 1;
          io := io w ++ [FOpen path false;
                         Printf (str "KRITIS: Gagal membuat file batch log: "
                                 ++ path ++ [NL])] |}.
Proof.
  intros Hrange Hfull Hopen path. unfold batch_event, batch_event_with.
  rewrite decide_True by done. rewrite store_Ok by done.
  cbn [mbind outcome_bind g_buffered_count]. rewrite decide_True by lia.
  unfold save_batch_to_file, save_batch_with. cbn [g_buffered_count].
  rewrite decide_False by lia. by rewrite Hopen.
Qed.

(** Appending to a batch whose count has reached the length of the array
    writes outside the array. *)
Lemma batch_event_overflow :
  g_buffered_count w >= Z.of_nat (length (g_data_buffer w)) ->
  batch_event cfg fe (Some q) n w = Undefined.
Proof.
  intros Hfull. unfold batch_event, batch_event_with.
  rewrite decide_True by done. unfold store. by rewrite decide_False by lia.
Qed.
End BatchEvent.

Lemma event_polls_stop pre last rest :
  Forall (fun p => p_fStop p = false) pre -> p_fStop last = true ->
  event_polls (pre ++ last :: rest) = pre ++ [last].
Proof.
  intros Hpre Hlast. induction Hpre as [|p pre Hp _ IH]; cbn.
  - by rewrite Hlast.
  - by rewrite Hp, IH.
Qed.

(** A cycle that completes a non-empty event hands the buffer of that event
    over to the batch, whether or not the live file could be opened. *)
Lemma cycle_completes cfg (e : cycle_env) (w : world) :
  config_wf cfg -> 0 < sel_chunk_bytes cfg -> completes cfg e ->
  let cs := chunk cfg <$> delivered 0 (event_polls (c_polls e)) in
  exists q,
    heap w !! q = None
    /\ 0 < Z.of_nat (length (event_bytes cfg e))
    /\ cycle cfg e w
       = (w3 ← batch_event cfg (c_flush e) (Some q) (Z.of_nat (length (event_bytes cfg e)))
                 {| heap := <[q := event_bytes cfg e]> (heap w);
                    g_data_buffer := g_data_buffer w;
                    g_buffered_count := g_buffered_count w;
                    io := io w ++ live_ops e cs |};
          Ok (w3, false)).
Proof.
  intros Hwf Hcb (Herr & Harm & Hsel & pre & last & rest & Hpolls & Hpre & Hlast & Hstop
                  & Hne & Hfit) cs.
  assert (Hev : event_polls (c_polls e) = pre ++ [last]).
  { rewrite Hpolls. apply event_polls_stop; [|done].
    eapply Forall_impl; [exact Hpre|]. by intros p [_ ?]. }
  unfold event_bytes, cs. rewrite Hev.
  set (halves := delivered 0 (pre ++ [last])) in *.
  assert (Hlen : 0 < Z.of_nat (length (concat (chunk cfg <$> halves)))).
  { rewrite length_concat_chunks by done. destruct halves; [done|]. cbn [length]. nia. }
  unfold cycle. rewrite Herr, Harm, Hsel, Hpolls. cbn [mbind outcome_bind negb].
  set (st0 := Drain _ _ _ _ _ _ _ _).
  assert (Hinv0 : drain_inv cfg (heap w) [] st0) by exact (drain_entry_inv cfg w _ Hwf).
  destruct (drain_completes cfg (c_live_open e) (heap w) pre last rest st0
              Hwf Hinv0 eq_refl Hpre Hlast Hstop Hfit) as (st' & Hrun & Hinv & Hex & Hio).
  fold halves in Hinv, Hio. rewrite Hrun. cbn [mbind outcome_bind].
  destruct Hinv as (_ & _ & Hsize & Hbuf).
  destruct (current_acq_buffer st') as [q|] eqn:Hcur.
  - destruct Hbuf as [Hq Hheap]. exists q. split; [done|]. split; [done|].
    rewrite Hsize, Hheap, Hio, Hex. cbn [exit_now d_io st0 io emit g_data_buffer g_buffered_count].
    unfold live_ops. by rewrite <- !app_assoc.
  - destruct Hbuf as [Hnil _]. rewrite Hnil in Hlen. cbn in Hlen. lia.
Qed.

(** ** The loop of [main] *)

Lemma main_loop_app cfg (es1 es2 : list cycle_env) (w : world) :
  main_loop cfg (es1 ++ es2) w
  = ('(w', stop) ← main_loop cfg es1 w;
     if (stop : bool) then Ok (w', true) else main_loop cfg es2 w').
Proof.
  revert w. induction es1 as [|e es1 IH]; intros w; [done|].
  cbn [app main_loop]. destruct (cycle cfg e w) as [[w1 [|]]| |tr|tr]; cbn; [done| |done..].
  apply IH.
Qed.

(** Completed events fill the batch one slot at a time; when the flush of
    the full batch cannot open its file the count stays at the capacity. *)
Lemma main_loop_fills_batch cfg (es : list cycle_env) : forall w : world,
  config_wf cfg -> 0 < sel_chunk_bytes cfg ->
  Forall (fun e => completes cfg e /\ f_open (c_flush e) = false) es ->
  0 <= g_buffered_count w ->
  Z.of_nat (length (g_data_buffer w)) = MAX_EVENT_BATCH cfg ->
  g_buffered_count w + Z.of_nat (length es) <= MAX_EVENT_BATCH cfg ->
  exists w',
    main_loop cfg es w = Ok (w', false)
    /\ g_buffered_count w' = g_buffered_count w + Z.of_nat (length es)
    /\ length (g_data_buffer w') = length (g_data_buffer w).
Proof.
  induction es as [|e es IH]; intros w Hwf Hcb Hall Hcount Hlen Hroom.
  - exists w. cbn. split; [done|]. split; [lia|done].
  - apply Forall_cons in Hall as [[He Hopen] Hall]. cbn [length] in Hroom.
    destruct (cycle_completes cfg e w Hwf Hcb He) as (q & _ & Hn & Hrun).
    set (w2 := World _ _ _ _) in Hrun.
    assert (Hstep : exists w1, batch_event cfg (c_flush e) (Some q)
                                 (Z.of_nat (length (event_bytes cfg e))) w2 = Ok w1
                               /\ g_buffered_count w1 = g_buffered_count w + 1
                               /\ length (g_data_buffer w1) = length (g_data_buffer w)).
    { destruct (decide (g_buffered_count w + 1 < MAX_EVENT_BATCH cfg)).
      - rewrite batch_event_append by (cbn; lia).
        eexists. split; [reflexivity|]. cbn. by rewrite length_insert.
      - rewrite batch_event_flush_fail by (cbn; done || lia).
        eexists. split; [reflexivity|]. cbn. by rewrite length_insert. }
    destruct Hstep as (w1 & Hb & Hc1 & Hl1).
    destruct (IH w1) as (w' & Hrun' & Hc' & Hl'); [done..|lia|lia|lia|].
    exists w'. split; [|split; [cbn [length]; lia|congruence]].
    cbn [main_loop]. rewrite Hrun, Hb. cbn [mbind outcome_bind]. exact Hrun'.
Qed.

(** C4. When the log file cannot be opened, [save_batch_to_file] gives the
    flush up and returns to its caller: the heap (no event buffer is
    freed), the batch array and the event count are as before, [fopen] was
    tried once, and one diagnostic line was printed.  The cycle that filled
    the batch ends like any other, and [main] goes on with the next
    trigger. *)
Theorem flush_open_failure_keeps_batch (fe : flush_env) :
  f_open fe = false ->
  (forall w : world,
     g_buffered_count w ≠ 0 ->
     let path := log_filepath (f_time fe) (g_buffered_count w) in
     save_batch_to_file fe w
     = Ok {| heap := heap w; g_data_buffer := g_data_buffer w;
             g_buffered_count := g_buffered_count w;
             io := io w ++ [FOpen path false;
                            Printf (str "KRITIS: Gagal membuat file batch log: "
                                    ++ path ++ [NL])] |})
  /\ (forall cfg (e : cycle_env) (w : world),
        config_wf cfg -> 0 < sel_chunk_bytes cfg -> completes cfg e ->
        c_flush e = fe ->
        0 <= g_buffered_count w < Z.of_nat (length (g_data_buffer w)) ->
        g_buffered_count w + 1 >= MAX_EVENT_BATCH cfg ->
        exists w',
          cycle cfg e w = Ok (w', false)
          /\ g_buffered_count w' = g_buffered_count w + 1
          /\ (forall es, main_loop cfg (e :: es) w = main_loop cfg es w')).
Proof.
  intros Hopen. split.
  - intros w Hcount path. unfold save_batch_to_file, save_batch_with.
    rewrite decide_False by done. by rewrite Hopen.
  - intros cfg e w Hwf Hcb He Hfe Hrange Hfull.
    destruct (cycle_completes cfg e w Hwf Hcb He) as (q & _ & Hn & Hrun).
    rewrite Hfe in Hrun.
    rewrite batch_event_flush_fail in Hrun by (cbn; done || lia).
    cbn [mbind outcome_bind] in Hrun.
    eexists. split; [exact Hrun|]. split; [done|].
    intros es. cbn [main_loop]. by rewrite Hrun.
Qed.

Lemma cadgetdata_config_wf : config_wf cadgetdata_config.
Proof.
  unfold config_wf. cbn. split; [lia|]. split; [|split; reflexivity].
  repeat constructor; lia.
Qed.

Lemma single_poll_completes cfg (B : list Z) (live ok : bool) (fe : flush_env) :
  Z.of_nat (length B) = BUFFER_SAMPLES cfg * TOTAL_HW_CHANNELS cfg ->
  sel_chunk_bytes cfg < 2 ^ SIZE_WIDTH ->
  completes cfg
    {| c_driver_err := false; c_arming := [(true, false)]; c_live_open := live;
       c_sel_work_ok := true;
       c_polls := [ {| p_halfReady := true; p_fStop := true;
                       p_ai_buf := B; p_ai_buf2 := B;
                       p_realloc_ok := true; p_esc := false |} ];
       c_move_ok := ok; c_flush := fe |}.
Proof.
  intros HB Hfit. unfold completes. cbn [c_driver_err c_arming c_sel_work_ok c_polls].
  split; [reflexivity|]. split; [reflexivity|]. split; [reflexivity|].
  eexists [], _, []. split; [reflexivity|]. split; [constructor|].
  split; [|split; [reflexivity|split]].
  - split; [|split; reflexivity]. split; exact HB.
  - cbn [app delivered p_halfReady]. discriminate.
  - cbn [app delivered p_halfReady length]. lia.
Qed.

Lemma zeros_length (channels : Z) :
  0 <= channels ->
  Z.of_nat (length (replicate (Z.to_nat (8192 * channels)) 0)) = 8192 * channels.
Proof. intros H. rewrite length_replicate. lia. Qed.

Lemma one_half_cycle_completes (live flush : bool) :
  completes cadgetdata_config (one_half_cycle 4 live flush).
Proof.
  exact (single_poll_completes cadgetdata_config (replicate (Z.to_nat (8192 * 4)) 0)
           live true _ (zeros_length 4 ltac:(lia)) eq_refl).
Qed.

Lemma world0_batch cfg :
  0 <= MAX_EVENT_BATCH cfg ->
  g_buffered_count (world0 cfg) = 0
  /\ Z.of_nat (length (g_data_buffer (world0 cfg))) = MAX_EVENT_BATCH cfg.
Proof.
  intros H. unfold world0. cbn [g_buffered_count g_data_buffer].
  rewrite length_replicate. lia.
Qed.

Lemma full_batch_overflows cfg (e : cycle_env) (w : world) :
  config_wf cfg -> 0 < sel_chunk_bytes cfg -> completes cfg e ->
  g_buffered_count w >= Z.of_nat (length (g_data_buffer w)) ->
  cycle cfg e w = Undefined.
Proof.
  intros Hwf Hcb He Hfull.
  destruct (cycle_completes cfg e w Hwf Hcb He) as (q & _ & Hn & ->).
  rewrite batch_event_overflow; [reflexivity|lia|exact Hfull].
Qed.

Lemma main_loop_app_running cfg (es1 es2 : list cycle_env) (w w1 : world) :
  main_loop cfg es1 w = Ok (w1, false) ->
  main_loop cfg (es1 ++ es2) w = main_loop cfg es2 w1.
Proof. intros H. by rewrite main_loop_app, H. Qed.

Lemma main_loop_undefined cfg (e : cycle_env) (es : list cycle_env) (w : world) :
  cycle cfg e w = Undefined -> main_loop cfg (e :: es) w = Undefined.
Proof. intros H. cbn [main_loop]. by rewrite H. Qed.

(** C3. The capacity of the batch does not survive a flush that fails.  In
    [src/cadgetdata.c], after 1000 completed events whose flush cannot open
    the log file, the batch still holds all 1000 events, and the next
    completed event is stored as the 1001st element of the array of 1000:
    the run has undefined behaviour. *)
Theorem batch_overflows_after_failed_flush :
  let e := one_half_cycle 4 true false in
  (exists w,
     main_loop cadgetdata_config (replicate 1000 e) (world0 cadgetdata_config)
     = Ok (w, false)
     /\ g_buffered_count w = MAX_EVENT_BATCH cadgetdata_config)
  /\ main_loop cadgetdata_config (replicate 1000 e ++ [e]) (world0 cadgetdata_config)
     = Undefined.
Proof.
  intros e.
  destruct (world0_batch cadgetdata_config) as [Hc0 Hl0]; [cbn; lia|].
  destruct (main_loop_fills_batch cadgetdata_config (replicate 1000 e)
              (world0 cadgetdata_config) cadgetdata_config_wf eq_refl)
    as (w & Hrun & Hcount & Hlen).
  - apply Forall_replicate. split; [apply one_half_cycle_completes|reflexivity].
  - rewrite Hc0. lia.
  - exact Hl0.
  - rewrite Hc0, length_replicate. cbn [MAX_EVENT_BATCH cadgetdata_config]. lia.
  - rewrite Hc0, length_replicate in Hcount.
    cbn [MAX_EVENT_BATCH cadgetdata_config] in *. split.
    + exists w. split; [exact Hrun|lia].
    + rewrite (main_loop_app_running _ _ _ _ _ Hrun).
      apply main_loop_undefined.
      apply (full_batch_overflows cadgetdata_config e w cadgetdata_config_wf eq_refl
               (one_half_cycle_completes true false)).
      rewrite Hlen, Hl0. lia.
Qed.

(** C10. The index of the append is not always below the capacity of the
    array.  When the event that fills the batch is appended and the flush
    cannot open its file, [save_batch_to_file] returns without resetting
    [g_buffered_count], which is then equal to [MAX_EVENT_BATCH]; the write
    [g_data_buffer[g_buffered_count]] of the next completed event is
    outside the array. *)
Theorem append_index_reaches_capacity cfg (fe : flush_env) (q : positive) (n : Z)
    (w : world) :
  n > 0 ->
  0 < MAX_EVENT_BATCH cfg ->
  g_buffered_count w = MAX_EVENT_BATCH cfg - 1 ->
  Z.of_nat (length (g_data_buffer w)) = MAX_EVENT_BATCH cfg ->
  f_open fe = false ->
  exists w1,
    batch_event cfg fe (Some q) n w = Ok w1
    /\ g_buffered_count w1 = MAX_EVENT_BATCH cfg
    /\ Z.of_nat (length (g_data_buffer w1)) = MAX_EVENT_BATCH cfg
    /\ (forall x, store (g_data_buffer w1) (g_buffered_count w1) x = Undefined)
    /\ (forall fe' q' n', n' > 0 -> batch_event cfg fe' (Some q') n' w1 = Undefined).
Proof.
  intros Hn Hmax Hcount Hlen Hopen.
  rewrite batch_event_flush_fail by (exact Hn || exact Hopen || lia).
  eexists. split; [reflexivity|]. cbn [g_buffered_count g_data_buffer].
  rewrite length_insert. split; [lia|]. split; [exact Hlen|]. split.
  - intros x. unfold store. rewrite length_insert. by rewrite decide_False by lia.
  - intros fe' q' n' Hn'. apply batch_event_overflow; [exact Hn'|].
    cbn [g_buffered_count g_data_buffer]. rewrite length_insert. lia.
Qed.

(** The full-size instance of C10: the batch holds 999 events. *)
Lemma append_index_reaches_capacity_full_size :
  exists w1,
    batch_event cadgetdata_config (FlushEnv (Tm 125 9 30 14 5 7) false)
      (Some 2%positive) 8 nearly_full_world = Ok w1
    /\ g_buffered_count w1 = 1000
    /\ (forall x, store (g_data_buffer w1) 1000 x = Undefined).
Proof.
  destruct (append_index_reaches_capacity cadgetdata_config
              (FlushEnv (Tm 125 9 30 14 5 7) false) 2%positive 8 nearly_full_world)
    as (w1 & Hrun & Hcount & _ & Hstore & _).
  - reflexivity.
  - reflexivity.
  - reflexivity.
  - reflexivity.
  - reflexivity.
  - exists w1. split; [exact Hrun|]. split; [exact Hcount|].
    intros x. rewrite <- Hcount at 1. apply Hstore.
Defined.

(** The scenario of C6: the allocation fails on the second chunk. *)
Lemma alloc_failure_on_second_chunk :
  exists w',
    cycle scenario_config second_chunk_fails (world0 scenario_config) = Ok (w', false)
    /\ heap w' = ∅
    /\ g_buffered_count w' = 0
    /\ main_loop scenario_config [second_chunk_fails; second_chunk_fails]
         (world0 scenario_config)
       = main_loop scenario_config [second_chunk_fails] w'.
Proof.
  destruct (alloc_failure_discards_event scenario_config second_chunk_fails
              (world0 scenario_config) [scenario_poll false true false]
              (scenario_poll false false false) [] scenario_config_wf
              eq_refl eq_refl eq_refl eq_refl)
    as (w' & Hrun & Hheap & _ & Hcount & Hnext).
  - repeat constructor.
  - by split.
  - reflexivity.
  - reflexivity.
  - reflexivity.
  - exists w'. split; [exact Hrun|]. split; [exact Hheap|]. split; [exact Hcount|].
    apply Hnext. reflexivity.
Defined.

(** An instance of C4: the flush of a batch of 999 events cannot open its
    file. *)
Lemma flush_open_failure_keeps_nearly_full_batch :
  exists w',
    save_batch_to_file (FlushEnv (Tm 125 9 30 14 5 7) false) nearly_full_world = Ok w'
    /\ heap w' = heap nearly_full_world
    /\ g_data_buffer w' = g_data_buffer nearly_full_world
    /\ g_buffered_count w' = 999.
Proof.
  pose proof (proj1 (flush_open_failure_keeps_batch
                       (FlushEnv (Tm 125 9 30 14 5 7) false) eq_refl)
                nearly_full_world) as Hrun.
  eexists. split; [apply Hrun; discriminate|]. repeat split.
Defined.

(** ** The live file cannot be opened *)

(** In [src/cadgetdata.c] only the publication is skipped: the event is
    drained and appended to the batch as usual. *)
Lemma cycle_without_live_file cfg (e : cycle_env) (w : world) :
  config_wf cfg -> 0 < sel_chunk_bytes cfg -> completes cfg e ->
  c_live_open e = false ->
  0 <= g_buffered_count w < Z.of_nat (length (g_data_buffer w)) ->
  g_buffered_count w + 1 < MAX_EVENT_BATCH cfg ->
  exists q,
    heap w !! q = None
    /\ cycle cfg e w
       = Ok ({| heap := <[q := event_bytes cfg e]> (heap w);
                g_data_buffer :=
                  <[Z.to_nat (g_buffered_count w)
                    := Acq (Some q) (Z.of_nat (length (event_bytes cfg e)))]>
                    (g_data_buffer w);
                g_buffered_count := g_buffered_count w + 1;
                io := io w ++ [FOpen live_filepath_tmp false] |}, false).
Proof.
  intros Hwf Hcb He Hlive Hrange Hroom.
  destruct (cycle_completes cfg e w Hwf Hcb He) as (q & Hq & Hn & Hrun).
  exists q. split; [exact Hq|]. rewrite Hrun.
  rewrite batch_event_append by (cbn [g_buffered_count g_data_buffer]; lia).
  cbn [mbind outcome_bind heap g_data_buffer g_buffered_count io].
  unfold live_ops, live_writes. rewrite Hlive. reflexivity.
Qed.

Lemma count_after_Ok (o : outcome (world * bool)) (w : world) (b : bool) :
  o = Ok (w, b) -> count_after o = Some (g_buffered_count w).
Proof. by intros ->. Qed.

(** C7. In [CodeTriggerExtBaru/ori.c] (and, by the same statement, in
    [fft_zero.c]) a live temporary file that cannot be opened ends the
    trigger cycle at once: the drain loop does not run and nothing is added
    to the batch, whatever the driver would have delivered.  The same cycle
    is drained and batched when the file opens, and in [src/cadgetdata.c]
    it is drained and batched in both cases. *)
Theorem live_open_failure_skips_event_in_ori :
  (forall (e : cycle_env) (w : world),
     c_driver_err e = false -> wait_trigger (c_arming e) = Some false ->
     c_live_open e = false ->
     Ori.cycle e w = Ok (emit [FOpen live_filepath_tmp false] w, false))
  /\ count_after (Ori.cycle (one_half_cycle 2 false false) Ori.world0) = Some 0
  /\ count_after (Ori.cycle (one_half_cycle 2 true false) Ori.world0) = Some 1
  /\ count_after (cycle cadgetdata_config (one_half_cycle 4 false false)
                    (world0 cadgetdata_config)) = Some 1.
Proof.
  split; [|split; [|split]].
  - intros e w Herr Harm Hlive. unfold Ori.cycle.
    by rewrite Herr, Harm, Hlive.
  - reflexivity.
  - vm_compute. reflexivity.
  - destruct (world0_batch cadgetdata_config) as [Hc0 Hl0];
      [cbn [MAX_EVENT_BATCH cadgetdata_config]; lia|].
    destruct (cycle_without_live_file cadgetdata_config (one_half_cycle 4 false false)
                (world0 cadgetdata_config) cadgetdata_config_wf eq_refl
                (one_half_cycle_completes false false) eq_refl) as (q & _ & Hrun).
    + rewrite Hl0, Hc0. cbn [MAX_EVENT_BATCH cadgetdata_config]. lia.
    + rewrite Hc0. cbn [MAX_EVENT_BATCH cadgetdata_config]. lia.
    + rewrite (count_after_Ok _ _ _ Hrun). cbn [g_buffered_count]. by rewrite Hc0.
Qed.

(** ** The live snapshot *)

Lemma tmp_ne_final : live_filepath_tmp ≠ live_filepath_final.
Proof. intros H. vm_compute in H. discriminate. Qed.

Lemma log_ne_final t n : log_filepath t n ≠ live_filepath_final.
Proof.
  intros H. apply (f_equal (fun l : list Z => l !! 1%nat)) in H.
  vm_compute in H. discriminate.
Qed.

Lemma fs_run_app fs (tr1 tr2 : list io_op) :
  fs_run fs (tr1 ++ tr2) = fs_run (fs_run fs tr1) tr2.
Proof. apply foldl_app. Qed.

Lemma fs_step_neutral fs op :
  neutral op -> fs_step fs op !! live_filepath_final = fs !! live_filepath_final.
Proof.
  destruct op as [|p ok|p bs|p|a b ok]; cbn; intros H; try done.
  - destruct ok; [|done]. by rewrite lookup_insert_ne.
  - destruct (fs !! p); [|done]. by rewrite lookup_insert_ne.
  - destruct (fs !! a); [|done]. destruct ok; [|done].
    destruct H as [|[Ha Hb]]; [done|].
    by rewrite lookup_insert_ne, lookup_delete_ne.
Qed.

Lemma fs_run_neutral (ops : list io_op) : forall fs,
  Forall neutral ops ->
  fs_run fs ops !! live_filepath_final = fs !! live_filepath_final.
Proof.
  induction ops as [|op ops IH]; intros fs Hall; [done|].
  apply Forall_cons in Hall as [Hop Hall]. cbn.
  fold (fs_run (fs_step fs op) ops). by rewrite IH, fs_step_neutral.
Qed.

(** Writing the chunks one after the other leaves their concatenation. *)
Lemma fs_run_writes (cs : list (list Z)) : forall fs (acc : list Z),
  fs !! live_filepath_tmp = Some acc ->
  fs_run fs (FWrite live_filepath_tmp <$> cs) !! live_filepath_tmp
  = Some (acc ++ concat cs).
Proof.
  induction cs as [|c cs IH]; intros fs acc Hacc.
  - cbn. by rewrite app_nil_r.
  - cbn. rewrite Hacc. fold (fs_run (<[live_filepath_tmp := acc ++ c]> fs)
                               (FWrite live_filepath_tmp <$> cs)).
    rewrite (IH _ (acc ++ c)) by apply lookup_insert_eq. by rewrite app_assoc.
Qed.

(** A complete publication puts the whole of what was written at the
    visible path. *)
Lemma fs_run_session fs (cs : list (list Z)) :
  fs_run fs (session cs) !! live_filepath_final = Some (concat cs).
Proof.
  unfold session. cbn [fs_run foldl fs_step].
  fold (fs_run (<[live_filepath_tmp := []]> fs)
          ((FWrite live_filepath_tmp <$> cs)
           ++ [FClose live_filepath_tmp;
               MoveFile live_filepath_tmp live_filepath_final true])).
  rewrite fs_run_app. cbn [fs_run foldl fs_step].
  fold (fs_run (<[live_filepath_tmp := []]> fs) (FWrite live_filepath_tmp <$> cs)).
  rewrite (fs_run_writes cs _ []) by apply lookup_insert_eq.
  cbn [app]. apply lookup_insert_eq.
Qed.

Lemma visible_ok_neutral fs0 (tr ops : list io_op) :
  visible_ok fs0 tr -> Forall neutral ops -> visible_ok fs0 (tr ++ ops).
Proof.
  intros [Hsame|(tr1 & cs & tr2 & Htr & Hvis)] Hops.
  - left. by rewrite fs_run_app, fs_run_neutral.
  - right. exists tr1, cs, (tr2 ++ ops). split.
    + by rewrite Htr, <- !app_assoc.
    + by rewrite fs_run_app, fs_run_neutral.
Qed.

Lemma visible_ok_session fs0 (tr : list io_op) (cs : list (list Z)) :
  visible_ok fs0 (tr ++ session cs).
Proof.
  right. exists tr, cs, []. split; [by rewrite app_nil_r|].
  by rewrite fs_run_app, fs_run_session.
Qed.

Lemma prefix_app_cases {A} (pre l1 l2 : list A) :
  pre `prefix_of` l1 ++ l2 ->
  pre `prefix_of` l1 \/ exists pre', pre = l1 ++ pre' /\ pre' `prefix_of` l2.
Proof.
  revert pre. induction l1 as [|x l1 IH]; intros pre Hpre.
  - right. by exists pre.
  - destruct pre as [|y pre]; [left; apply prefix_nil|].
    cbn [app] in Hpre. apply prefix_cons_inv_1 in Hpre as Hxy.
    apply prefix_cons_inv_2 in Hpre. subst y.
    destruct (IH pre Hpre) as [H|(pre' & -> & H)].
    + left. by apply prefix_cons.
    + right. by exists pre'.
Qed.

Lemma prefix_of_self {A} (l : list A) : l `prefix_of` l.
Proof. exists []. by rewrite app_nil_r. Qed.

Lemma Forall_prefix {A} (P : A -> Prop) (pre l : list A) :
  pre `prefix_of` l -> Forall P l -> Forall P pre.
Proof. intros [k ->] H. by apply Forall_app in H as [? _]. Qed.

Lemma always_visible_ok_neutral fs0 (tr ops : list io_op) :
  always_visible_ok fs0 tr -> Forall neutral ops -> always_visible_ok fs0 (tr ++ ops).
Proof.
  intros Htr Hops pre Hpre.
  destruct (prefix_app_cases _ _ _ Hpre) as [H|(pre' & -> & H)]; [by apply Htr|].
  apply visible_ok_neutral; [by apply Htr|]. by eapply Forall_prefix.
Qed.

Lemma always_visible_ok_session fs0 (tr : list io_op) (cs : list (list Z)) :
  always_visible_ok fs0 tr -> always_visible_ok fs0 (tr ++ session cs).
Proof.
  intros Htr pre Hpre.
  assert (Hinit : Forall neutral (FOpen live_filepath_tmp true
                                  :: (FWrite live_filepath_tmp <$> cs)
                                  ++ [FClose live_filepath_tmp])).
  { constructor; [exact tmp_ne_final|]. apply Forall_app. split; [|by repeat constructor].
    apply Forall_fmap, Forall_forall. intros c _. exact tmp_ne_final. }
  assert (Hsplit : session cs
                   = (FOpen live_filepath_tmp true
                      :: (FWrite live_filepath_tmp <$> cs) ++ [FClose live_filepath_tmp])
                     ++ [MoveFile live_filepath_tmp live_filepath_final true]).
  { unfold session. cbn [app]. by rewrite <- app_assoc. }
  rewrite Hsplit, app_assoc in Hpre.
  destruct (prefix_app_cases _ _ _ Hpre) as [H|(pre' & -> & H)].
  - by apply (always_visible_ok_neutral fs0 tr _ Htr Hinit).
  - destruct pre' as [|op pre'].
    + rewrite app_nil_r. apply (always_visible_ok_neutral fs0 tr _ Htr Hinit).
      done.
    + apply prefix_cons_inv_1 in H as Hop. apply prefix_cons_inv_2 in H.
      apply prefix_nil_inv in H. subst op pre'.
      rewrite <- app_assoc, <- Hsplit. apply visible_ok_session.
Qed.

(** The calls of one cycle on the live file, followed by calls that leave
    the visible path alone. *)
Lemma always_visible_ok_cycle fs0 (tr : list io_op) (e : cycle_env)
    (cs : list (list Z)) (ops : list io_op) :
  always_visible_ok fs0 tr -> Forall neutral ops ->
  always_visible_ok fs0 (tr ++ live_ops e cs ++ ops).
Proof.
  intros Htr Hops. rewrite app_assoc. apply always_visible_ok_neutral; [|done].
  unfold live_ops, live_writes. destruct (c_live_open e); [destruct (c_move_ok e)|].
  - by apply always_visible_ok_session.
  - apply always_visible_ok_neutral; [done|].
    constructor; [exact tmp_ne_final|]. apply Forall_app. split.
    + apply Forall_fmap, Forall_forall. intros c _. exact tmp_ne_final.
    + repeat constructor.
  - apply always_visible_ok_neutral; [done|]. repeat constructor. exact tmp_ne_final.
Qed.

(** *** The trace of a cycle *)

Lemma bind_Ok_inv {A B} (m : outcome A) (f : A -> outcome B) (b : B) :
  (m ≫= f) = Ok b -> exists a, m = Ok a /\ f a = Ok b.
Proof. destruct m as [a| |tr|tr]; cbn; intros H; try discriminate. by exists a. Qed.

Lemma drain_half_io cfg live p st st' :
  drain_half cfg live p st = Ok st' ->
  exists cs, d_io st' = d_io st ++ live_writes live cs.
Proof.
  unfold drain_half. intros H.
  apply bind_Ok_inv in H as ([work out] & _ & H).
  apply bind_Ok_inv in H as ([new_buffer h1] & _ & H).
  destruct new_buffer as [q|].
  - apply bind_Ok_inv in H as (h2 & _ & H). injection H as <-. cbn [d_io].
    eexists [_]. unfold live_writes. by destruct live.
  - apply bind_Ok_inv in H as (h2 & _ & H). injection H as <-. cbn [d_io].
    exists []. by rewrite live_writes_nil, app_nil_r.
Qed.

Lemma drain_turn_io cfg live p st st' :
  drain_turn cfg live p st = Ok st' ->
  exists cs, d_io st' = d_io st ++ live_writes live cs.
Proof.
  unfold drain_turn. intros H. apply bind_Ok_inv in H as (st1 & H1 & H).
  assert (Hio : exists cs, d_io st1 = d_io st ++ live_writes live cs).
  { destruct (p_halfReady p).
    - apply drain_half_io in H1. exact H1.
    - injection H1 as <-. exists []. by rewrite live_writes_nil, app_nil_r. }
  injection H as <-. by destruct (p_esc p).
Qed.

Lemma drain_io cfg live polls : forall st st',
  drain cfg live polls st = Ok st' ->
  exists cs, d_io st' = d_io st ++ live_writes live cs.
Proof.
  induction polls as [|p polls IH]; intros st st' H; [discriminate|].
  cbn [drain] in H. apply bind_Ok_inv in H as (st1 & H1 & H).
  apply drain_turn_io in H1 as [cs1 H1].
  destruct (g_fStop st1).
  - injection H as <-. by exists cs1.
  - apply IH in H as [cs2 H]. exists (cs1 ++ cs2).
    by rewrite H, H1, live_writes_app, app_assoc.
Qed.

(** A relation that every turn of a counted loop keeps holds between the
    state before the loop and the state after it. *)
Lemma for_range_rel {S} (R : S -> S -> Prop) (body : Z -> S -> outcome S) :
  (forall s, R s s) ->
  (forall a b c, R a b -> R b c -> R a c) ->
  (forall j t t', body j t = Ok t' -> R t t') ->
  forall n i s s', for_range n i body s = Ok s' -> R s s'.
Proof.
  intros Hrefl Htrans Hbody. induction n as [|n IH]; intros i s s' H.
  - injection H as <-. apply Hrefl.
  - cbn [for_range] in H. apply bind_Ok_inv in H as (t & Ht & H).
    eapply Htrans; [by eapply Hbody|by eapply IH].
Qed.

Lemma extends_neutrally_refl w : extends_neutrally w w.
Proof. exists []. by rewrite app_nil_r. Qed.

Lemma extends_neutrally_trans a b c :
  extends_neutrally a b -> extends_neutrally b c -> extends_neutrally a c.
Proof.
  intros (o1 & H1 & F1) (o2 & H2 & F2). exists (o1 ++ o2). split.
  - by rewrite H2, H1, app_assoc.
  - by apply Forall_app.
Qed.

Lemma save_event_io t n i w w' :
  save_event (log_filepath t n) i w = Ok w' -> extends_neutrally w w'.
Proof.
  unfold save_event. intros H.
  apply bind_Ok_inv in H as (slot & _ & H).
  apply bind_Ok_inv in H as (bytes & _ & H).
  apply bind_Ok_inv in H as (h' & _ & H).
  apply bind_Ok_inv in H as (buf' & _ & H).
  injection H as <-. eexists. split; [reflexivity|].
  repeat constructor. apply log_ne_final.
Qed.

Lemma save_batch_with_io hdr saved fe w w' :
  save_batch_with hdr saved fe w = Ok w' -> extends_neutrally w w'.
Proof.
  unfold save_batch_with. intros H. case_decide.
  - injection H as <-. apply extends_neutrally_refl.
  - destruct (f_open fe).
    + apply bind_Ok_inv in H as (w2 & Hloop & H). injection H as <-.
      apply (for_range_rel extends_neutrally _ extends_neutrally_refl
               extends_neutrally_trans) in Hloop;
        [|intros j t t'; apply save_event_io].
      destruct Hloop as (ops & Hio & Hops). cbn [io emit] in Hio.
      eexists. split; [cbn [io]; rewrite Hio, <- !app_assoc; reflexivity|].
      apply Forall_app. split; [repeat constructor; apply log_ne_final|].
      apply Forall_app. split; [done|]. repeat constructor.
    + injection H as <-. eexists. split; [reflexivity|].
      repeat constructor. apply log_ne_final.
Qed.

Lemma batch_event_with_io save max fe buf n w w' :
  (forall fe w w', save fe w = Ok w' -> extends_neutrally w w') ->
  batch_event_with save max fe buf n w = Ok w' -> extends_neutrally w w'.
Proof.
  intros Hsave. unfold batch_event_with. intros H. case_decide.
  - apply bind_Ok_inv in H as (buf' & _ & H). case_decide.
    + apply Hsave in H as (ops & Hio & Hops). by exists ops.
    + injection H as <-. exists []. by rewrite app_nil_r.
  - injection H as <-. apply extends_neutrally_refl.
Qed.

Lemma ori_drain_half_io p st st' brk :
  Ori.drain_half p st = Ok (st', brk) ->
  exists cs, d_io st' = d_io st ++ (FWrite live_filepath_tmp <$> cs).
Proof.
  unfold Ori.drain_half. intros H.
  apply bind_Ok_inv in H as ([new_buffer h1] & _ & H).
  destruct new_buffer as [q|].
  - apply bind_Ok_inv in H as (h2 & _ & H). injection H as <- _. cbn [d_io].
    by eexists [_].
  - apply bind_Ok_inv in H as (h2 & _ & H). injection H as <- _. cbn [d_io].
    exists []. by rewrite app_nil_r.
Qed.

Lemma ori_drain_turn_io p st st' brk :
  Ori.drain_turn p st = Ok (st', brk) ->
  exists cs, d_io st' = d_io st ++ (FWrite live_filepath_tmp <$> cs).
Proof.
  unfold Ori.drain_turn. intros H. apply bind_Ok_inv in H as ([st1 b1] & H1 & H).
  assert (Hio : exists cs, d_io st1 = d_io st ++ (FWrite live_filepath_tmp <$> cs)).
  { destruct (p_halfReady p).
    - apply ori_drain_half_io in H1. exact H1.
    - injection H1 as <- _. exists []. by rewrite app_nil_r. }
  destruct b1; injection H as <- _; [done|]. by destruct (p_esc p).
Qed.

Lemma ori_drain_io polls : forall st st',
  Ori.drain polls st = Ok st' ->
  exists cs, d_io st' = d_io st ++ (FWrite live_filepath_tmp <$> cs).
Proof.
  induction polls as [|p polls IH]; intros st st' H; [discriminate|].
  cbn [Ori.drain] in H. apply bind_Ok_inv in H as ([st1 brk] & H1 & H).
  apply ori_drain_turn_io in H1 as [cs1 H1].
  destruct (brk || g_fStop st1)%bool.
  - injection H as <-. by exists cs1.
  - apply IH in H as [cs2 H]. exists (cs1 ++ cs2).
    by rewrite H, H1, fmap_app, app_assoc.
Qed.


(** *** Computations that neither exit nor wait *)

Lemma plain_bind {A B} (m : outcome A) (f : A -> outcome B) :
  plain m -> (forall a, plain (f a)) -> plain (m ≫= f).
Proof. destruct m; cbn; intros Hm Hf; by try apply Hf. Qed.

Lemma plain_load {A} (a : list A) i : plain (load a i).
Proof. unfold load. case_decide; [|done]. by destruct (a !! Z.to_nat i). Qed.

Lemma plain_store {A} (a : list A) i v : plain (store a i v).
Proof. unfold store. by case_decide. Qed.

Lemma plain_realloc h p n ok : plain (realloc h p n ok).
Proof.
  unfold realloc. destruct p as [p0|]; [destruct (h !! p0)|]; by destruct ok.
Qed.

Lemma plain_free h p : plain (free h p).
Proof. unfold free. destruct p as [p0|]; [by destruct (h !! p0)|done]. Qed.

Lemma plain_memcpy h p off src n : plain (memcpy h p off src n).
Proof. unfold memcpy. destruct (h !! p); [by case_decide|done]. Qed.

Lemma plain_read_block h p n : plain (read_block h p n).
Proof.
  unfold read_block. destruct p as [p0|]; [destruct (h !! p0)|]; by try case_decide.
Qed.

Lemma plain_for_range {S} (body : Z -> S -> outcome S) n :
  (forall j s, plain (body j s)) -> forall i s, plain (for_range n i body s).
Proof.
  intros Hbody. induction n as [|n IH]; intros i s; [done|].
  cbn [for_range]. apply plain_bind; [apply Hbody|]. intros a. apply IH.
Qed.

Lemma plain_extract cfg src dst : plain (extract_selected_channels cfg src dst).
Proof.
  apply plain_for_range. intros i st. apply plain_for_range. intros k [d out].
  unfold extract_slot.
  apply plain_bind; [apply plain_load|]. intros ch.
  apply plain_bind; [apply plain_load|]. intros v.
  apply plain_bind; [apply plain_store|]. done.
Qed.

Lemma plain_drain_half cfg live p st : plain (drain_half cfg live p st).
Proof.
  unfold drain_half. apply plain_bind; [apply plain_extract|]. intros [work out].
  apply plain_bind; [apply plain_realloc|]. intros [[q|] h1].
  - apply plain_bind; [apply plain_memcpy|]. done.
  - apply plain_bind; [apply plain_free|]. done.
Qed.

Lemma plain_drain_turn cfg live p st : plain (drain_turn cfg live p st).
Proof.
  unfold drain_turn. apply plain_bind; [|done].
  destruct (p_halfReady p); [apply plain_drain_half|done].
Qed.

Lemma plain_save_batch_with hdr saved fe w : plain (save_batch_with hdr saved fe w).
Proof.
  unfold save_batch_with. case_decide; [done|]. destruct (f_open fe); [|done].
  apply plain_bind; [|done]. apply plain_for_range. intros j s. unfold save_event.
  apply plain_bind; [apply plain_load|]. intros slot.
  apply plain_bind; [apply plain_read_block|]. intros bytes.
  apply plain_bind; [apply plain_free|]. intros h'.
  apply plain_bind; [apply plain_store|]. done.
Qed.

Lemma plain_batch_event_with save max fe buf n w :
  (forall fe w, plain (save fe w)) -> plain (batch_event_with save max fe buf n w).
Proof.
  intros Hsave. unfold batch_event_with. case_decide; [|done].
  apply plain_bind; [apply plain_store|]. intros buf'. by case_decide.
Qed.

Lemma plain_ori_drain_turn p st : plain (Ori.drain_turn p st).
Proof.
  unfold Ori.drain_turn. apply plain_bind.
  - destruct (p_halfReady p); [|done]. unfold Ori.drain_half.
    apply plain_bind; [apply plain_realloc|]. intros [[q|] h1].
    + apply plain_bind; [apply plain_memcpy|]. done.
    + apply plain_bind; [apply plain_free|]. done.
  - intros [st1 brk]. by destruct brk.
Qed.

(** The trace of a computation that comes after another one. *)
Lemma trace_of_bind {A B} (pa : A -> list io_op) (pb : B -> list io_op)
    (m : outcome A) (f : A -> outcome B) (tr : list io_op) :
  trace_of pb (m ≫= f) = Some tr ->
  (plain m -> False) /\ trace_of pa m = Some tr
  \/ exists a, m = Ok a /\ trace_of pb (f a) = Some tr.
Proof.
  destruct m as [a| |tr'|tr']; cbn; intros H; try discriminate.
  - right. by exists a.
  - left. split; [tauto|done].
  - left. split; [tauto|done].
Qed.

(** *** The trace of the drain loop, however it ends *)

Lemma drain_trace cfg live polls : forall st tr,
  trace_of d_io (drain cfg live polls st) = Some tr ->
  exists cs, tr = d_io st ++ live_writes live cs.
Proof.
  induction polls as [|p polls IH]; intros st tr H.
  - injection H as <-. exists []. by rewrite live_writes_nil, app_nil_r.
  - cbn [drain] in H.
    apply (trace_of_bind d_io) in H as [[Hno _]|(st1 & H1 & H)].
    { destruct Hno. apply plain_drain_turn. }
    apply drain_turn_io in H1 as [cs1 H1]. destruct (g_fStop st1).
    + injection H as <-. by exists cs1.
    + apply IH in H as [cs2 ->]. exists (cs1 ++ cs2).
      by rewrite H1, live_writes_app, app_assoc.
Qed.

Lemma ori_drain_trace polls : forall st tr,
  trace_of d_io (Ori.drain polls st) = Some tr ->
  exists cs, tr = d_io st ++ (FWrite live_filepath_tmp <$> cs).
Proof.
  induction polls as [|p polls IH]; intros st tr H.
  - injection H as <-. exists []. by rewrite app_nil_r.
  - cbn [Ori.drain] in H.
    apply (trace_of_bind (fun x : drain_state * bool => d_io x.1)) in H
      as [[Hno _]|([st1 brk] & H1 & H)].
    { destruct Hno. apply plain_ori_drain_turn. }
    apply ori_drain_turn_io in H1 as [cs1 H1]. destruct (brk || g_fStop st1)%bool.
    + injection H as <-. by exists cs1.
    + apply IH in H as [cs2 ->]. exists (cs1 ++ cs2).
      by rewrite H1, fmap_app, app_assoc.
Qed.

Lemma live_writes_neutral live cs : Forall neutral (live_writes live cs).
Proof.
  unfold live_writes. destruct live; [|constructor].
  apply Forall_fmap, Forall_forall. intros c _. exact tmp_ne_final.
Qed.

(** The end of a cycle, from the hand-over to the batch on. *)
Lemma batch_event_with_trace save max fe buf n w tr :
  (forall fe w, plain (save fe w)) ->
  (forall fe w w', save fe w = Ok w' -> extends_neutrally w w') ->
  trace_of io (batch_event_with save max fe buf n w) = Some tr ->
  exists ops, tr = io w ++ ops /\ Forall neutral ops.
Proof.
  intros Hplain Hsave H.
  pose proof (plain_batch_event_with save max fe buf n w Hplain) as Hp.
  destruct (batch_event_with save max fe buf n w) as [w'| | |] eqn:Hb; try done.
  injection H as <-. by apply (batch_event_with_io save max fe buf n w w' Hsave).
Qed.

(** One cycle of [src/cadgetdata.c] keeps the visible path complete at
    every moment, however the cycle ends. *)
Lemma cycle_visible cfg fs0 e w tr :
  always_visible_ok fs0 (io w) ->
  trace_of (fun x : world * bool => io x.1) (cycle cfg e w) = Some tr ->
  always_visible_ok fs0 tr.
Proof.
  intros Hw. unfold cycle. destruct (c_driver_err e).
  { intros H. by injection H as <-. }
  destruct (wait_trigger (c_arming e)) as [[|]|].
  { intros H. by injection H as <-. }
  2: { intros H. by injection H as <-. }
  assert (Hopen : always_visible_ok fs0
                    (io (emit [FOpen live_filepath_tmp (c_live_open e)] w))).
  { apply always_visible_ok_neutral; [done|]. repeat constructor. exact tmp_ne_final. }
  destruct (c_sel_work_ok e); cbn [negb].
  2: { intros H. by injection H as <-. }
  intros H. apply (trace_of_bind d_io) in H as [[_ H]|(d & Hd & H)].
  - apply drain_trace in H as [cs ->]. cbn [d_io].
    apply always_visible_ok_neutral; [done|apply live_writes_neutral].
  - apply (trace_of_bind io) in H as [[Hno H]|(w3 & Hb & H)].
    + destruct Hno. apply plain_batch_event_with. apply plain_save_batch_with.
    + injection H as <-.
      apply (batch_event_with_io _ _ _ _ _ _ _ (save_batch_with_io _ _)) in Hb
        as (ops & Hio & Hops).
      apply (f_equal (trace_of d_io)) in Hd. cbn [trace_of] in Hd.
      apply drain_trace in Hd as [cs Hd]. cbn [d_io io emit] in Hd.
      cbn [io fst] in *. rewrite Hio, Hd.
      replace (((io w ++ [FOpen live_filepath_tmp (c_live_open e)])
                ++ live_writes (c_live_open e) cs)
               ++ (if c_live_open e
                   then [FClose live_filepath_tmp;
                         MoveFile live_filepath_tmp live_filepath_final (c_move_ok e)]
                   else []))
        with (io w ++ live_ops e cs)
        by (unfold live_ops; cbn [app]; by rewrite <- !app_assoc).
      rewrite <- app_assoc. by apply always_visible_ok_cycle.
Qed.

(** The same for one cycle of [ori.c]. *)
Lemma ori_cycle_visible fs0 e w tr :
  always_visible_ok fs0 (io w) ->
  trace_of (fun x : world * bool => io x.1) (Ori.cycle e w) = Some tr ->
  always_visible_ok fs0 tr.
Proof.
  intros Hw. unfold Ori.cycle. destruct (c_driver_err e).
  { intros H. by injection H as <-. }
  destruct (wait_trigger (c_arming e)) as [[|]|].
  { intros H. by injection H as <-. }
  2: { intros H. by injection H as <-. }
  assert (Hopen : always_visible_ok fs0
                    (io (emit [FOpen live_filepath_tmp (c_live_open e)] w))).
  { apply always_visible_ok_neutral; [done|]. repeat constructor. exact tmp_ne_final. }
  destruct (c_live_open e) eqn:Hlive; cbn [negb].
  2: { intros H. by injection H as <-. }
  intros H. apply (trace_of_bind d_io) in H as [[_ H]|(d & Hd & H)].
  - apply ori_drain_trace in H as [cs ->]. cbn [d_io].
    apply always_visible_ok_neutral; [done|]. apply (live_writes_neutral true).
  - apply (trace_of_bind io) in H as [[Hno H]|(w3 & Hb & H)].
    + destruct Hno. apply plain_batch_event_with. apply plain_save_batch_with.
    + injection H as <-.
      apply (batch_event_with_io _ _ _ _ _ _ _ (save_batch_with_io _ _)) in Hb
        as (ops & Hio & Hops).
      apply (f_equal (trace_of d_io)) in Hd. cbn [trace_of] in Hd.
      apply ori_drain_trace in Hd as [cs Hd]. cbn [d_io io emit] in Hd.
      cbn [io fst] in *. rewrite Hio, Hd.
      replace (((io w ++ [FOpen live_filepath_tmp true])
                ++ (FWrite live_filepath_tmp <$> cs))
               ++ [FClose live_filepath_tmp;
                   MoveFile live_filepath_tmp live_filepath_final (c_move_ok e)])
        with (io w ++ live_ops e cs)
        by (unfold live_ops, live_writes; rewrite Hlive; cbn [app];
            by rewrite <- !app_assoc).
      rewrite <- app_assoc. by apply always_visible_ok_cycle.
Qed.

Lemma always_visible_ok_nil fs0 : always_visible_ok fs0 [].
Proof. intros pre Hpre. apply prefix_nil_inv in Hpre as ->. by left. Qed.

Lemma main_loop_visible cfg fs0 envs : forall w tr,
  always_visible_ok fs0 (io w) ->
  trace_of (fun x : world * bool => io x.1) (main_loop cfg envs w) = Some tr ->
  always_visible_ok fs0 tr.
Proof.
  induction envs as [|e envs IH]; intros w tr Hw H.
  - by injection H as <-.
  - cbn [main_loop] in H.
    apply (trace_of_bind (fun x : world * bool => io x.1)) in H
      as [[_ H]|([w1 stop] & H1 & H)].
    + by eapply cycle_visible.
    + assert (Hw1 : always_visible_ok fs0 (io w1)).
      { eapply cycle_visible; [exact Hw|]. by rewrite H1. }
      destruct stop; [by injection H as <-|]. by eapply IH.
Qed.

Lemma ori_main_loop_visible fs0 envs : forall w tr,
  always_visible_ok fs0 (io w) ->
  trace_of (fun x : world * bool => io x.1) (Ori.main_loop envs w) = Some tr ->
  always_visible_ok fs0 tr.
Proof.
  induction envs as [|e envs IH]; intros w tr Hw H.
  - by injection H as <-.
  - cbn [Ori.main_loop] in H.
    apply (trace_of_bind (fun x : world * bool => io x.1)) in H
      as [[_ H]|([w1 stop] & H1 & H)].
    + by eapply ori_cycle_visible.
    + assert (Hw1 : always_visible_ok fs0 (io w1)).
      { eapply ori_cycle_visible; [exact Hw|]. by rewrite H1. }
      destruct stop; [by injection H as <-|]. by eapply IH.
Qed.

(** What a completed cycle publishes is the whole event. *)
Lemma cycle_publishes_event (cfg : config) (e : cycle_env) (w w' : world) (b : bool)
    (fs : gmap (list Z) (list Z)) :
  config_wf cfg -> 0 < sel_chunk_bytes cfg -> completes cfg e ->
  c_live_open e = true -> c_move_ok e = true ->
  cycle cfg e w = Ok (w', b) ->
  fs_run fs (io w') !! live_filepath_final = Some (event_bytes cfg e).
Proof.
  intros Hwf Hcb He Hlive Hmove Hrun.
  destruct (cycle_completes cfg e w Hwf Hcb He) as (q & _ & _ & Hc).
  rewrite Hc in Hrun. apply bind_Ok_inv in Hrun as (w3 & Hb & Hrun).
  injection Hrun as <- _.
  apply (batch_event_with_io _ _ _ _ _ _ _ (save_batch_with_io _ _)) in Hb
    as (ops & Hio & Hops).
  cbn [io] in Hio. rewrite Hio, !fs_run_app, fs_run_neutral by done.
  unfold live_ops, live_writes. rewrite Hlive, Hmove. apply fs_run_session.
Qed.

(** C8. At every moment of every run, of [src/cadgetdata.c] and of
    [ori.c], that is after each call the program has made so far, whether
    the run goes on, exits or waits, the visible live path holds what it
    held at program start or the whole contents of one complete
    publication: a temporary file that was created, written, closed and
    only then renamed onto the visible path.  A cycle that completes its
    event publishes exactly the bytes of that event. *)
Theorem live_snapshot_always_complete (fs0 : gmap (list Z) (list Z))
    (envs : list cycle_env) (tr pre : list io_op) :
  pre `prefix_of` tr ->
  (forall cfg : config,
     trace_of (fun x : world * bool => io x.1) (main_loop cfg envs (world0 cfg))
     = Some tr -> visible_ok fs0 pre)
  /\ (trace_of (fun x : world * bool => io x.1) (Ori.main_loop envs Ori.world0)
      = Some tr -> visible_ok fs0 pre)
  /\ (forall (cfg : config) (e : cycle_env) (w w' : world) (b : bool),
        config_wf cfg -> 0 < sel_chunk_bytes cfg -> completes cfg e ->
        c_live_open e = true -> c_move_ok e = true ->
        cycle cfg e w = Ok (w', b) ->
        fs_run fs0 (io w') !! live_filepath_final = Some (event_bytes cfg e)).
Proof.
  intros Hpre. split; [|split].
  - intros cfg H.
    by apply (main_loop_visible cfg fs0 envs (world0 cfg) tr (always_visible_ok_nil fs0) H).
  - intros H.
    by apply (ori_main_loop_visible fs0 envs Ori.world0 tr (always_visible_ok_nil fs0) H).
  - intros cfg e w w' b. apply cycle_publishes_event.
Qed.

(** A run of one cycle in the scenario configuration: after the last call
    the visible file holds the two extracted half buffers. *)
Lemma live_snapshot_scenario :
  exists tr,
    trace_of (fun x : world * bool => io x.1)
      (main_loop scenario_config [two_halves_cycle] (world0 scenario_config)) = Some tr
    /\ visible_ok ∅ tr
    /\ fs_run ∅ tr !! live_filepath_final
       = Some [20;0; 40;0; 21;0; 41;0; 120;0; 140;0; 121;0; 141;0].
Proof.
  eexists. split; [vm_compute; reflexivity|]. split.
  - eapply (proj1 (live_snapshot_always_complete ∅ [two_halves_cycle] _ _
                     (prefix_of_self _)) scenario_config).
    vm_compute; reflexivity.
  - vm_compute; reflexivity.
Defined.

(** ** The log file *)

Lemma dec_digits_range fuel : forall n, Forall (fun c => 48 <= c <= 57) (dec_digits fuel n).
Proof.
  induction fuel as [|f IH]; intros n; [constructor|]. cbn [dec_digits].
  apply Forall_app. split.
  - destruct (n <? 10); [constructor|apply IH].
  - repeat constructor; pose proof (Z.mod_pos_bound n 10); lia.
Qed.

Lemma dec_digits_length fuel : forall n, (length (dec_digits fuel n) <= fuel)%nat.
Proof.
  induction fuel as [|f IH]; intros n; [done|]. cbn [dec_digits].
  rewrite length_app. cbn [length]. destruct (n <? 10); [cbn; lia|].
  specialize (IH (n / 10)). lia.
Qed.

Lemma dec_digits_nonempty fuel n : dec_digits (Datatypes.S fuel) n ≠ [].
Proof. cbn [dec_digits]. by destruct (if n <? 10 then [] else dec_digits fuel (n / 10)). Qed.

(** Reading back the digits of a number gives the number. *)
Lemma dec_digits_parse fuel : forall n,
  0 <= n < 10 ^ Z.of_nat fuel ->
  foldl parse_digit (Some 0) (dec_digits fuel n) = Some n.
Proof.
  induction fuel as [|f IH]; intros n Hn.
  - cbn in Hn. assert (n = 0) by lia. by subst.
  - cbn [dec_digits]. rewrite foldl_app. cbn [foldl].
    pose proof (Z.mod_pos_bound n 10) as Hm.
    destruct (n <? 10) eqn:Hlt.
    + apply Z.ltb_lt in Hlt. cbn [foldl]. unfold parse_digit. cbn.
      rewrite decide_True by lia. rewrite Z.mod_small by lia. f_equal. lia.
    + apply Z.ltb_ge in Hlt. rewrite IH.
      * unfold parse_digit. cbn. rewrite decide_True by lia. f_equal.
        pose proof (Z.div_mod n 10). lia.
      * rewrite Nat2Z.inj_succ, Z.pow_succ_r in Hn by lia. split.
        -- apply Z.div_pos; lia.
        -- apply Z.div_lt_upper_bound; lia.
Qed.

Lemma fmt_d_nonneg n : 0 <= n -> fmt_d n = dec_digits 10 n.
Proof.
  intros Hn. unfold fmt_d, fmt_0d. destruct (n <? 0) eqn:Hlt; [apply Z.ltb_lt in Hlt; lia|].
  unfold pad0. done.
Qed.

Lemma parse_decimal_fmt_d n : 0 <= n < 2 ^ 31 -> parse_decimal (fmt_d n) = Some n.
Proof.
  intros Hn. rewrite fmt_d_nonneg by lia. unfold parse_decimal.
  pose proof (dec_digits_nonempty 9 n) as Hne.
  destruct (dec_digits 10 n) eqn:Hd; [done|]. rewrite <- Hd.
  apply dec_digits_parse. split; [lia|]. apply Z.lt_trans with (2 ^ 31); [lia|reflexivity].
Qed.

Lemma fmt_0d_range w z : Forall (fun c => 45 <= c <= 57) (fmt_0d w z).
Proof.
  assert (Hd : forall n, Forall (fun c => 45 <= c <= 57) (dec_digits 10 n)).
  { intros n. eapply Forall_impl; [apply dec_digits_range|]. cbn. lia. }
  assert (Hp : forall k n, Forall (fun c => 45 <= c <= 57) (pad0 k (dec_digits 10 n))).
  { intros k n. unfold pad0. apply Forall_app. split; [|apply Hd].
    apply Forall_replicate. lia. }
  unfold fmt_0d. destruct (z <? 0); [|apply Hp]. constructor; [lia|apply Hp].
Qed.

Lemma fmt_0d_length w z : (w <= 10)%nat -> (length (fmt_0d w z) <= 11)%nat.
Proof.
  intros Hw.
  assert (Hp : forall k n, (k <= 10)%nat -> (length (pad0 k (dec_digits 10 n)) <= 10)%nat).
  { intros k n Hk. unfold pad0. rewrite length_app, length_replicate.
    pose proof (dec_digits_length 10 n). lia. }
  unfold fmt_0d. destruct (z <? 0); cbn [length].
  - specialize (Hp (w - 1)%nat (- z)). lia.
  - specialize (Hp w z). lia.
Qed.

Lemma read_line_spec (l rest : list Z) :
  Forall (fun c => c ≠ NL) l -> read_line (l ++ NL :: rest) = (l, rest).
Proof.
  induction 1 as [|c l Hc _ IH]; cbn [app read_line].
  - by rewrite decide_True.
  - by rewrite decide_False, IH.
Qed.

(** The header is read back line by line. *)
Lemma read_header_spec (lines : list (list Z)) (payload : list Z) : forall fuel,
  Forall (fun l => l ≠ [] /\ Forall (fun c => c ≠ NL) l) lines ->
  (length lines < fuel)%nat ->
  read_header fuel ((lines ≫= fun l => l ++ [NL]) ++ NL :: payload)
  = Some (lines, payload).
Proof.
  induction lines as [|l lines IH]; intros fuel Hall Hfuel.
  - destruct fuel; [cbn in Hfuel; lia|]. cbn. by rewrite decide_True.
  - apply Forall_cons in Hall as [[Hne Hl] Hall].
    destruct fuel as [|fuel]; [cbn in Hfuel; lia|]. cbn [length] in Hfuel.
    cbn [mbind list_bind read_header]. rewrite <- !app_assoc. cbn [app].
    rewrite (read_line_spec l _ Hl). destruct l as [|c l]; [done|].
    change (foldr _ _ _) with (lines ≫= fun l => l ++ [NL]) || idtac.
    rewrite IH by (done || lia). done.
Qed.

Lemma strip_prefix_app (key v : list Z) : strip_prefix key (key ++ v) = Some v.
Proof.
  induction key as [|k key IH]; cbn; [by destruct v|]. by rewrite decide_True.
Qed.

Lemma fmt_0d_no_newline w z : Forall (fun c => c ≠ NL) (fmt_0d w z).
Proof. eapply Forall_impl; [apply fmt_0d_range|]. unfold NL. cbn. lia. Qed.

Lemma str_no_newline (s : string) :
  forallb (fun c => negb (c =? NL)) (str s) = true ->
  Forall (fun c => c ≠ NL) (str s).
Proof.
  intros H. apply Forall_forall. intros c Hc.
  apply list_elem_of_In in Hc. rewrite forallb_forall in H. specialize (H c Hc).
  apply negb_true_iff, Z.eqb_neq in H. exact H.
Qed.

Lemma header_lines_wf t n :
  Forall (fun l => l ≠ [] /\ Forall (fun c => c ≠ NL) l) (header_lines t n).
Proof.
  unfold header_lines, fmt_d, CODE_VERSION, AUTHOR_NAME.
  repeat constructor; try discriminate;
    repeat (apply Forall_app; split);
    try apply fmt_0d_no_newline;
    by apply str_no_newline.
Qed.

Lemma bind_lines_length (lines : list (list Z)) :
  (length lines <= length (lines ≫= fun l => l ++ [NL]))%nat.
Proof.
  induction lines as [|l lines IH]; [done|].
  cbn [mbind list_bind length]. rewrite !length_app. cbn [length].
  change (foldr _ _ _) with (lines ≫= fun l => l ++ [NL]) || idtac. cbn in IH |- *. lia.
Qed.

(** The header always fits in its buffer of 512 characters. *)
Lemma header_untruncated t n :
  header t n = (header_lines t n ≫= fun l => l ++ [NL]) ++ [NL].
Proof.
  unfold header, snprintf. apply take_ge. unfold header_lines, fmt_d.
  pose proof (fmt_0d_length 4 (tm_year t + 1900)).
  pose proof (fmt_0d_length 2 (tm_mon t + 1)).
  pose proof (fmt_0d_length 2 (tm_mday t)).
  pose proof (fmt_0d_length 2 (tm_hour t)).
  pose proof (fmt_0d_length 2 (tm_min t)).
  pose proof (fmt_0d_length 2 (tm_sec t)).
  pose proof (fmt_0d_length 0 n).
  cbn [mbind list_bind foldr]. rewrite !length_app.
  change (length (str "TEST_DATE:")) with 10%nat.
  change (length (str "-")) with 1%nat.
  change (length (str " ")) with 1%nat.
  change (length (str ":")) with 1%nat.
  change (length (str "CODE_VERSION:")) with 13%nat.
  change (length CODE_VERSION) with 16%nat.
  change (length (str "AUTHOR:")) with 7%nat.
  change (length AUTHOR_NAME) with 15%nat.
  change (length (str "BATCH_EVENT_COUNT:")) with 18%nat.
  change (length (str "SAVED_CHANNELS:CH1,CH3")) with 22%nat.
  change (length (str "INTERLEAVE_ORDER:CH1,CH3")) with 24%nat.
  cbn [length]. change (Z.to_nat (512 - 1)) with 511%nat. lia.
Qed.

(** Reading a log back: the declared event count and the payload bytes. *)
Lemma read_log_header t n (payload : list Z) :
  0 <= n < 2 ^ 31 ->
  read_log (header t n ++ payload) = Some (n, payload).
Proof.
  intros Hn. unfold read_log. rewrite header_untruncated, <- app_assoc. cbn [app].
  rewrite read_header_spec.
  - cbn [mbind option_bind]. unfold header_lines. cbn [header_field].
    change (strip_prefix (str "BATCH_EVENT_COUNT:") (str "TEST_DATE:" ++ _)) with (@None (list Z)).
    change (strip_prefix (str "BATCH_EVENT_COUNT:") (str "CODE_VERSION:" ++ _)) with (@None (list Z)).
    change (strip_prefix (str "BATCH_EVENT_COUNT:") (str "AUTHOR:" ++ _)) with (@None (list Z)).
    cbn match. rewrite strip_prefix_app. cbn [mbind option_bind].
    by rewrite parse_decimal_fmt_d.
  - apply header_lines_wf.
  - rewrite length_app. pose proof (bind_lines_length (header_lines t n)).
    cbn [length] in *. lia.
Qed.

Lemma split_sizes_concat (payloads : list (list Z)) :
  split_sizes (length <$> payloads) (concat payloads) = payloads.
Proof.
  induction payloads as [|b payloads IH]; [done|].
  cbn [fmap list_fmap split_sizes concat].
  by rewrite take_app_length, drop_app_length, IH.
Qed.

Lemma fs_run_writes_at (path : list Z) (cs : list (list Z)) : forall fs (acc : list Z),
  fs !! path = Some acc ->
  fs_run fs (FWrite path <$> cs) !! path = Some (acc ++ concat cs).
Proof.
  induction cs as [|c cs IH]; intros fs acc Hacc.
  - cbn. by rewrite app_nil_r.
  - cbn. rewrite Hacc. fold (fs_run (<[path := acc ++ c]> fs) (FWrite path <$> cs)).
    rewrite (IH _ (acc ++ c)) by apply lookup_insert_eq. by rewrite app_assoc.
Qed.

Section Flush.
Variable path : list Z.
Variable w : world.
Variable evs : list (positive * list Z).
Hypothesis holds : batch_holds w evs.

Lemma save_event_step (base : list io_op) (j : Z) (s : world) :
  0 <= j < Z.of_nat (length evs) -> flushed path w evs base j s ->
  exists s', save_event path j s = Ok s' /\ flushed path w evs base (j + 1) s'.
Proof.
  intros Hj (Hio & Hlen & Hkeep & Hclr & Hheap).
  destruct holds as (_ & Hnd & Hslots).
  remember (Z.to_nat j) as k eqn:Hkj.
  assert (Hjk : j = Z.of_nat k) by lia. clear Hkj. subst j.
  assert (Hk : (k < length evs)%nat) by lia.
  destruct (lookup_lt_is_Some_2 _ _ Hk) as [[p bytes] He].
  destruct (Hslots k p bytes He) as [Hslot Hblk].
  assert (Hp : evs.*1 !! k = Some p) by (by rewrite list_lookup_fmap, He).
  assert (Hb : evs.*2 !! k = Some bytes) by (by rewrite list_lookup_fmap, He).
  assert (Hfresh : p ∉ take k evs.*1).
  { intros Hin. apply list_elem_of_lookup in Hin as [i Hi].
    assert (Hik : (i < k)%nat).
    { apply lookup_lt_Some in Hi. rewrite length_take in Hi. lia. }
    rewrite lookup_take_lt in Hi by done.
    pose proof (NoDup_lookup _ _ _ _ Hnd Hi Hp). lia. }
  assert (Hsk : Z.to_nat (Z.of_nat k + 1) = Datatypes.S k) by lia.
  unfold save_event.
  rewrite (load_Ok (g_data_buffer s) k (Acq (Some p) (Z.of_nat (length bytes))))
    by (rewrite Hkeep by done; exact Hslot).
  cbn [mbind outcome_bind data size]. unfold read_block, free.
  rewrite Hheap, decide_False, Hblk by done.
  rewrite decide_True by lia. cbn [mbind outcome_bind].
  rewrite store_Ok by (apply lookup_lt_Some in Hslot; lia).
  cbn [mbind outcome_bind]. eexists. split; [reflexivity|].
  unfold flushed. cbn [io g_data_buffer heap]. rewrite Hsk, !Nat2Z.id.
  split; [|split; [|split; [|split]]].
  - rewrite Hio, (take_S_r _ _ _ Hb), fmap_app, <- app_assoc.
    by rewrite firstn_all.
  - by rewrite length_insert.
  - intros i Hi. rewrite list_lookup_insert_ne by lia. apply Hkeep. lia.
  - intros i Hi. destruct (decide (i = k)) as [->|Hne].
    + apply list_lookup_insert_eq. apply lookup_lt_Some in Hslot. lia.
    + rewrite list_lookup_insert_ne by lia. apply Hclr. lia.
  - intros p'. rewrite (take_S_r _ _ _ Hp).
    destruct (decide (p' = p)) as [->|Hne].
    + rewrite lookup_delete_eq. rewrite decide_True; [done|].
      apply elem_of_app. right. by left.
    + rewrite lookup_delete_ne, Hheap by done.
      destruct (decide (p' ∈ take k evs.*1)) as [Hin|Hnin].
      * rewrite decide_True; [done|]. apply elem_of_app. by left.
      * rewrite decide_False; [done|]. intros [Hin|Hin]%elem_of_app; [done|].
        apply list_elem_of_singleton in Hin. done.
Qed.

Lemma save_events_loop (s : world) :
  heap s = heap w -> g_data_buffer s = g_data_buffer w ->
  exists s',
    for_range (length evs) 0 (save_event path) s = Ok s'
    /\ flushed path w evs (io s) (Z.of_nat (length evs)) s'.
Proof.
  intros Hh Hb.
  destruct (for_range_inv (flushed path w evs (io s)) (save_event path) (length evs) 0 s)
    as (s' & Hrun & Hinv).
  - unfold flushed. cbn. rewrite app_nil_r, Hb, Hh. repeat split; try done. lia.
  - intros j t Hj Ht. apply save_event_step; [lia|done].
  - exists s'. by split.
Qed.
End Flush.

(** C5. Flushing a non-empty batch of N events whose file opens writes one
    file, the header followed by the payload of each event in the order of
    insertion with nothing in between; reading the header back gives N as
    the declared event count, and cutting the bytes after the header by the
    sizes of the events gives back the payloads, byte for byte.  After the
    flush every event buffer is freed (and no other block is touched), the
    slots are cleared and the event count is zero. *)
Theorem flush_round_trip (fe : flush_env) (w : world)
    (evs : list (positive * list Z)) :
  f_open fe = true ->
  evs ≠ [] ->
  Z.of_nat (length evs) < 2 ^ 31 ->
  batch_holds w evs ->
  let n := Z.of_nat (length evs) in
  let path := log_filepath (f_time fe) n in
  let hdr := header (f_time fe) n in
  let payloads := evs.*2 in
  exists w',
    save_batch_to_file fe w = Ok w'
    /\ io w' = io w ++ [FOpen path true; FWrite path hdr]
                    ++ (FWrite path <$> payloads)
                    ++ [FClose path;
                        Printf (str "Batch " ++ fmt_d n ++ str " event disimpan ke "
                                ++ path ++ str " (header+data)" ++ [NL])]
    /\ (forall fs, fs_run fs (io w') !! path = Some (hdr ++ concat payloads))
    /\ read_log (hdr ++ concat payloads) = Some (n, concat payloads)
    /\ split_sizes (length <$> payloads) (concat payloads) = payloads
    /\ g_buffered_count w' = 0
    /\ (forall p, p ∈ evs.*1 -> heap w' !! p = None)
    /\ (forall p, p ∉ evs.*1 -> heap w' !! p = heap w !! p)
    /\ (forall i, (i < length evs)%nat -> g_data_buffer w' !! i = Some (Acq None 0)).
Proof.
  intros Hopen Hne Hint Hholds n path hdr payloads.
  pose proof Hholds as (Hcount & _ & _).
  assert (Hn0 : g_buffered_count w ≠ 0) by (destruct evs; [done|cbn in Hcount; lia]).
  unfold save_batch_to_file, save_batch_with.
  rewrite decide_False by done. rewrite Hopen, Hcount, Nat2Z.id.
  fold n path hdr.
  destruct (save_events_loop path w evs Hholds
              (emit [FOpen path true; FWrite path hdr] w) eq_refl eq_refl)
    as (w2 & Hloop & Hio & Hlen & _ & Hclr & Hheap).
  rewrite Hloop. cbn [mbind outcome_bind]. eexists. split; [reflexivity|].
  cbn [io heap g_data_buffer g_buffered_count emit] in *.
  rewrite Nat2Z.id in *.
  rewrite !firstn_all2 in * by (rewrite ?length_fmap; lia).
  fold payloads in Hio.
  split; [by rewrite Hio, <- !app_assoc|].
  split.
  { intros fs. rewrite Hio, !fs_run_app. cbn [fs_run foldl fs_step].
    rewrite lookup_insert_eq. cbn [app]. rewrite insert_insert_eq.
    fold (fs_run (<[path := hdr]> (fs_run fs (io w))) (FWrite path <$> payloads)).
    by rewrite (fs_run_writes_at path payloads _ hdr) by apply lookup_insert_eq. }
  split; [apply read_log_header; lia|].
  split; [apply split_sizes_concat|].
  split; [done|].
  split; [intros p Hp; by rewrite Hheap, decide_True|].
  split; [intros p Hp; by rewrite Hheap, decide_False|].
  exact Hclr.
Qed.

(** A flush of two small events. *)
Lemma flush_round_trip_two_events :
  exists w',
    save_batch_to_file (FlushEnv (Tm 125 9 30 14 5 7) true) two_event_world = Ok w'
    /\ read_log (header (Tm 125 9 30 14 5 7) 2 ++ [1; 2; 3; 4; 5]) = Some (2, [1; 2; 3; 4; 5])
    /\ split_sizes [3; 2]%nat [1; 2; 3; 4; 5] = [[1; 2; 3]; [4; 5]]
    /\ heap w' !! 1%positive = None /\ heap w' !! 2%positive = None
    /\ g_buffered_count w' = 0.
Proof.
  destruct (flush_round_trip (FlushEnv (Tm 125 9 30 14 5 7) true) two_event_world
              [(1%positive, [1; 2; 3]); (2%positive, [4; 5])])
    as (w' & Hrun & _ & _ & Hread & Hsplit & Hcount & Hfree & _).
  - reflexivity.
  - discriminate.
  - reflexivity.
  - split; [reflexivity|]. split.
    + apply NoDup_cons. split; [|apply NoDup_singleton].
      intros H. apply list_elem_of_singleton in H. discriminate.
    + intros [|[|i]] p bytes H; [| |discriminate];
        injection H as <- <-; split; reflexivity.
  - exists w'. split; [exact Hrun|]. split; [exact Hread|]. split; [exact Hsplit|].
    split; [apply Hfree; left|]. split; [apply Hfree; right; left|exact Hcount].
Defined.

(** ** The capacity of the batch when every flush opens its file *)

Lemma store_Ok_inv {A} (a a' : list A) (i : Z) (v : A) :
  store a i v = Ok a' ->
  0 <= i < Z.of_nat (length a) /\ a' = <[Z.to_nat i := v]> a.
Proof. unfold store. intros H. case_decide; [|done]. injection H as <-. by split. Qed.

Lemma save_event_keeps_batch path j s s' :
  save_event path j s = Ok s' ->
  g_buffered_count s' = g_buffered_count s
  /\ length (g_data_buffer s') = length (g_data_buffer s).
Proof.
  unfold save_event. intros H.
  apply bind_Ok_inv in H as (slot & _ & H).
  apply bind_Ok_inv in H as (bytes & _ & H).
  apply bind_Ok_inv in H as (h' & _ & H).
  apply bind_Ok_inv in H as (buf' & Hst & H).
  injection H as <-. cbn. split; [done|].
  apply store_Ok_inv in Hst as [_ ->]. apply length_insert.
Qed.

Lemma save_batch_with_resets hdr saved fe w w' :
  f_open fe = true ->
  save_batch_with hdr saved fe w = Ok w' ->
  g_buffered_count w' = 0
  /\ length (g_data_buffer w') = length (g_data_buffer w).
Proof.
  intros Hopen. unfold save_batch_with. rewrite Hopen. intros H. case_decide.
  - injection H as <-. by split.
  - apply bind_Ok_inv in H as (w2 & Hloop & H). injection H as <-. cbn. split; [done|].
    apply (for_range_rel
             (fun s s' => g_buffered_count s' = g_buffered_count s
                          /\ length (g_data_buffer s') = length (g_data_buffer s)))
      in Hloop.
    + apply Hloop.
    + by intros s.
    + intros a b c [? ?] [? ?]. split; congruence.
    + intros j t t'. apply save_event_keeps_batch.
Qed.

(** As long as every flush opens its file, the batch holds fewer events
    than its capacity at every cycle boundary, so that the index of the
    next append is inside the array. *)
Lemma batch_below_capacity cfg (envs : list cycle_env) : forall (w w' : world) (b : bool),
  Forall (fun e => f_open (c_flush e) = true) envs ->
  0 <= g_buffered_count w < MAX_EVENT_BATCH cfg ->
  Z.of_nat (length (g_data_buffer w)) = MAX_EVENT_BATCH cfg ->
  main_loop cfg envs w = Ok (w', b) ->
  0 <= g_buffered_count w' < MAX_EVENT_BATCH cfg
  /\ Z.of_nat (length (g_data_buffer w')) = MAX_EVENT_BATCH cfg.
Proof.
  induction envs as [|e envs IH]; intros w w' b Hall Hcount Hlen H.
  - injection H as <- _. by split.
  - apply Forall_cons in Hall as [Hopen Hall]. cbn [main_loop] in H.
    apply bind_Ok_inv in H as ([w1 stop] & Hcyc & H).
    assert (Hw1 : 0 <= g_buffered_count w1 < MAX_EVENT_BATCH cfg
                  /\ Z.of_nat (length (g_data_buffer w1)) = MAX_EVENT_BATCH cfg).
    { unfold cycle in Hcyc. destruct (c_driver_err e); [discriminate|].
      destruct (wait_trigger (c_arming e)) as [[|]|]; [|..|discriminate].
      { injection Hcyc as <- _. by split. }
      destruct (c_sel_work_ok e); [|discriminate]. cbn [negb] in Hcyc.
      apply bind_Ok_inv in Hcyc as (d & _ & Hcyc).
      apply bind_Ok_inv in Hcyc as (w3 & Hb & Hcyc). injection Hcyc as <- _.
      unfold batch_event, batch_event_with in Hb. case_decide.
      - apply bind_Ok_inv in Hb as (buf' & Hst & Hb).
        apply store_Ok_inv in Hst as [_ ->].
        cbn [g_data_buffer g_buffered_count emit] in *. case_decide.
        + apply (save_batch_with_resets _ _ _ _ _ Hopen) in Hb as [Hc Hl].
          cbn [g_data_buffer] in Hl. rewrite length_insert in Hl. lia.
        + injection Hb as <-. cbn [g_data_buffer g_buffered_count].
          rewrite length_insert. lia.
      - injection Hb as <-. by split. }
    destruct stop; [injection H as <- _; exact Hw1|].
    destruct Hw1 as [Hc1 Hl1]. by eapply IH.
Qed.

(** * The spectral stage of [fft_zero.c] *)

(** ** Numbers that need no rounding *)

Lemma digits2_pos_size p : digits2_pos p = Pos.size p.
Proof. induction p as [p IH|p IH|]; cbn; congruence. Qed.

Lemma digits2_pos_dig p : Z.pos (digits2_pos p) = dig (Z.pos p).
Proof. unfold dig. rewrite digits2_pos_size. destruct p; cbn; lia. Qed.

Lemma dig_mul_pow2 a n : 0 < a -> 0 <= n -> dig (a * 2 ^ n) = dig a + n.
Proof. intros Ha Hn. unfold dig. rewrite Z.log2_mul_pow2 by lia. lia. Qed.

Lemma dig_le a b : 0 < a -> a <= b -> dig a <= dig b.
Proof. intros Ha Hab. unfold dig. pose proof (Z.log2_le_mono a b Hab). lia. Qed.

Lemma dig_pos a : 0 < a -> 0 < dig a.
Proof. intros Ha. unfold dig. pose proof (Z.log2_nonneg a). lia. Qed.

Lemma dig_lt_pow2 a n : 0 < a -> a < 2 ^ n -> dig a <= n.
Proof.
  intros Ha Hlt. unfold dig.
  destruct (Z.le_gt_cases n 0) as [Hn|Hn].
  - assert (2 ^ n <= 1); [|lia].
    destruct (Z.eq_dec n 0) as [->|]; [done|]. rewrite Z.pow_neg_r; lia.
  - pose proof (proj1 (Z.log2_lt_pow2 a n Ha) Hlt). lia.
Qed.

Lemma dig_bound a : 0 < a -> a < 2 ^ dig a.
Proof. intros Ha. unfold dig. pose proof (Z.log2_spec a Ha). lia. Qed.

Lemma iter_pos_nat {A} (f : A -> A) p :
  forall x, iter_pos f p x = Nat.iter (Pos.to_nat p) f x.
Proof.
  induction p as [p IH|p IH|]; intros x; cbn [iter_pos].
  - rewrite !IH, Pos2Nat.inj_xI, <- Nat.iter_add, <- Nat.iter_succ_r.
    f_equal. lia.
  - rewrite !IH, Pos2Nat.inj_xO, <- Nat.iter_add. f_equal. lia.
  - done.
Qed.

(** Shifting out [n] bits that are 0 leaves no remainder. *)
Lemma shr_1_exact (n : nat) : forall M : positive,
  Nat.iter n shr_1 {| shr_m := Z.pos M * 2 ^ Z.of_nat n; shr_r := false; shr_s := false |}
  = {| shr_m := Z.pos M; shr_r := false; shr_s := false |}.
Proof.
  induction n as [|n IH]; intros M.
  - change (Z.of_nat 0) with 0. by rewrite Z.pow_0_r, Z.mul_1_r.
  - rewrite Nat.iter_succ_r.
    destruct (Z.pos M * 2 ^ Z.of_nat n) as [|q|q] eqn:Hq; [lia| |lia].
    replace (Z.pos M * 2 ^ Z.of_nat (S n)) with (Z.pos q~0)
      by (rewrite Nat2Z.inj_succ, Z.pow_succ_r; lia).
    cbn [shr_1 orb]. rewrite <- Hq. apply IH.
Qed.

Section Exact.
Variables prec emax : Z.

Lemma shr_fexp_exact (M : positive) e n :
  0 <= n -> fexp prec emax (Z.pos (digits2_pos M) + n + e) = e + n ->
  shr_fexp prec emax (Z.pos M * 2 ^ n) e loc_Exact
  = ({| shr_m := Z.pos M; shr_r := false; shr_s := false |}, e + n).
Proof.
  intros Hn Hf. unfold shr_fexp. cbn [shr_record_of_loc].
  assert (Hd : Zdigits2 (Z.pos M * 2 ^ n) = Z.pos (digits2_pos M) + n).
  { destruct (Z.pos M * 2 ^ n) as [|q|q] eqn:Hq; [lia| |lia].
    cbn [Zdigits2]. rewrite !digits2_pos_dig, <- Hq. apply dig_mul_pow2; lia. }
  rewrite Hd, Hf. replace (e + n - e) with n by lia.
  destruct n as [|p|p]; [| |lia].
  - cbn [shr]. f_equal; [|lia]. f_equal. lia.
  - cbn [shr]. f_equal. rewrite iter_pos_nat.
    rewrite <- (positive_nat_Z p). apply shr_1_exact.
Qed.

(** A mantissa with [n] spare bits that are 0 is rounded to itself. *)
Lemma binary_round_aux_exact s (M : positive) e n :
  0 <= n -> fexp prec emax (Z.pos (digits2_pos M) + n + e) = e + n ->
  e + n <= emax - prec ->
  binary_round_aux prec emax s (Z.pos M * 2 ^ n) e loc_Exact = S754_finite s M (e + n).
Proof.
  intros Hn Hf He. unfold binary_round_aux.
  rewrite (shr_fexp_exact M e n Hn Hf).
  cbn [shr_m shr_r shr_s loc_of_shr_record round_nearest_even].
  replace (Z.pos M) with (Z.pos M * 2 ^ 0) at 1 by lia.
  rewrite (shr_fexp_exact M (e + n) 0); [|lia|].
  2:{ replace (Z.pos (digits2_pos M) + 0 + (e + n))
        with (Z.pos (digits2_pos M) + n + e) by lia.
      rewrite Hf. lia. }
  cbn [shr_m]. rewrite Z.add_0_r.
  destruct (Z.leb_spec (e + n) (emax - prec)); [done|lia].
Qed.

Lemma shl_align_le mx ex ez :
  ez <= ex -> shl_align mx ex ez = (Z.to_pos (Z.pos mx * 2 ^ (ex - ez)), ez).
Proof.
  intros Hle. unfold shl_align.
  destruct (ez - ex) as [|d|d] eqn:Hd; [|lia|].
  - replace (ex - ez) with 0 by lia. rewrite Z.pow_0_r, Z.mul_1_r.
    f_equal. lia.
  - change (Pos.iter xO mx d) with (shift_pos d mx). f_equal.
    apply Pos2Z.inj. rewrite shift_pos_correct, Z2Pos.id.
    + replace (ex - ez) with (Z.pos d) by lia.
      change (2 ^ Z.pos d) with (Z.pow_pos 2 d). lia.
    + apply Z.mul_pos_pos; [lia|]. apply Z.pow_pos_nonneg; lia.
Qed.

(** A number of at most [prec] digits, in the range of the normal numbers
    of the format, is rounded to itself. *)
Lemma binary_round_canon s (m : positive) e :
  dig (Z.pos m) <= prec ->
  dig (Z.pos m) + e <= emax ->
  3 - emax <= dig (Z.pos m) + e ->
  binary_round prec emax s m e = canon prec s (Z.pos m) e.
Proof.
  intros Hle Hmax Hmin. unfold binary_round, canon.
  assert (Hf : fexp prec emax (Z.pos (digits2_pos m) + e) = dig (Z.pos m) + e - prec).
  { unfold fexp, emin. rewrite digits2_pos_dig. lia. }
  rewrite Hf, shl_align_le by lia.
  replace (e - (dig (Z.pos m) + e - prec)) with (prec - dig (Z.pos m)) by lia.
  set (k := prec - dig (Z.pos m)).
  assert (Hpos : 0 < Z.pos m * 2 ^ k).
  { apply Z.mul_pos_pos; [lia|]. apply Z.pow_pos_nonneg; lia. }
  set (M := Z.to_pos (Z.pos m * 2 ^ k)).
  assert (HM : Z.pos M = Z.pos m * 2 ^ k) by (unfold M; by rewrite Z2Pos.id).
  replace (Z.pos M) with (Z.pos M * 2 ^ 0) by lia.
  rewrite binary_round_aux_exact.
  - f_equal. lia.
  - lia.
  - unfold fexp, emin. rewrite digits2_pos_dig, HM, dig_mul_pow2 by lia. lia.
  - lia.
Qed.

(** A mantissa and an exponent with the value of a number of the format
    are rounded to that number. *)
Lemma binary_round_exact s (m M : positive) e n :
  0 <= n -> Z.pos m = Z.pos M * 2 ^ n ->
  fexp prec emax (Z.pos (digits2_pos M) + n + e) = e + n ->
  e + n <= emax - prec ->
  binary_round prec emax s m e = S754_finite s M (e + n).
Proof.
  intros Hn Hm Hf He. unfold binary_round.
  assert (Hd : Z.pos (digits2_pos m) = Z.pos (digits2_pos M) + n).
  { rewrite !digits2_pos_dig, Hm. apply dig_mul_pow2; lia. }
  rewrite Hd, Hf. unfold shl_align.
  replace (e + n - e) with n by lia.
  destruct n as [|p|p]; [| |lia]; rewrite Hm; by apply binary_round_aux_exact.
Qed.

(** The sum of two numbers of one sign that needs no more than [prec]
    digits is exact. *)
Lemma SFadd_canon s a b e :
  0 < a -> 0 < b -> dig (a + b) <= prec ->
  dig (a + b) + e <= emax -> 3 - emax <= dig (a + b) + e ->
  SFadd prec emax (canon prec s a e) (canon prec s b e) = canon prec s (a + b) e.
Proof.
  intros Ha Hb Hd Hmax Hmin.
  pose proof (dig_le a (a + b) Ha ltac:(lia)) as Hda.
  pose proof (dig_le b (a + b) Hb ltac:(lia)) as Hdb.
  unfold canon. cbn [SFadd].
  set (sa := prec - dig a). set (sb := prec - dig b). set (sab := prec - dig (a + b)).
  set (ez := Z.min (e - sa) (e - sb)).
  assert (Hpa : 0 < a * 2 ^ sa).
  { apply Z.mul_pos_pos; [lia|]. apply Z.pow_pos_nonneg; lia. }
  assert (Hpb : 0 < b * 2 ^ sb).
  { apply Z.mul_pos_pos; [lia|]. apply Z.pow_pos_nonneg; lia. }
  rewrite !shl_align_le by lia. cbn [fst].
  rewrite (Z2Pos.id (a * 2 ^ sa)), (Z2Pos.id (b * 2 ^ sb)) by done.
  rewrite !Z2Pos.id by (apply Z.mul_pos_pos; [done|apply Z.pow_pos_nonneg; lia]).
  rewrite <- !Z.mul_assoc, <- !Z.pow_add_r by lia.
  replace (sa + (e - sa - ez)) with (e - ez) by lia.
  replace (sb + (e - sb - ez)) with (e - ez) by lia.
  set (t := e - ez).
  assert (Hpt : 0 < (a + b) * 2 ^ t).
  { apply Z.mul_pos_pos; [lia|]. apply Z.pow_pos_nonneg; lia. }
  assert (Hpab : 0 < (a + b) * 2 ^ sab).
  { apply Z.mul_pos_pos; [lia|]. apply Z.pow_pos_nonneg; lia. }
  assert (Hsum : cond_Zopp s (a * 2 ^ t) + cond_Zopp s (b * 2 ^ t)
                 = cond_Zopp s (Z.pos (Z.to_pos ((a + b) * 2 ^ t)))).
  { rewrite Z2Pos.id by done. destruct s; cbn [cond_Zopp]; lia. }
  rewrite Hsum.
  assert (Hnorm : binary_normalize prec emax
                    (cond_Zopp s (Z.pos (Z.to_pos ((a + b) * 2 ^ t)))) ez false
                  = binary_round prec emax s (Z.to_pos ((a + b) * 2 ^ t)) ez).
  { by destruct s. }
  rewrite Hnorm.
  rewrite (binary_round_exact s _ (Z.to_pos ((a + b) * 2 ^ sab)) ez (t - sab)).
  - f_equal. lia.
  - lia.
  - rewrite !Z2Pos.id by done. rewrite <- Z.mul_assoc, <- Z.pow_add_r by lia.
    do 2 f_equal. lia.
  - unfold fexp, emin. rewrite digits2_pos_dig, Z2Pos.id, dig_mul_pow2 by lia. lia.
  - lia.
Qed.

End Exact.

(** ** The arithmetic of the spectral stage *)

Lemma bounded_inv m e :
  bounded 24 128 m e = true ->
  dig (Z.pos m) <= 24 /\ -149 <= e <= 104 /\ fexp 24 128 (dig (Z.pos m) + e) = e.
Proof.
  unfold bounded, canonical_mantissa. rewrite andb_true_iff, Z.eqb_eq, Z.leb_le.
  rewrite digits2_pos_dig. unfold fexp, emin. lia.
Qed.

Lemma FFT_SIZE_eq : FftZero.FFT_SIZE = 2 ^ 13.
Proof. reflexivity. Qed.

Lemma double_of_int_FFT_SIZE :
  FftZero.double_of_int FftZero.FFT_SIZE = S754_finite false 4503599627370496 (-39).
Proof. reflexivity. Qed.

(** A [float] is a [double]. *)
Lemma double_of_float_finite s m e :
  bounded 24 128 m e = true ->
  FftZero.double_of_float (S754_finite s m e) = canon 53 s (Z.pos m) e.
Proof.
  intros (Hd & He & _)%bounded_inv. cbn [FftZero.double_of_float].
  pose proof (dig_pos (Z.pos m)). apply binary_round_canon; lia.
Qed.

(** A [double] that has the value of a [float] converts to that [float]. *)
Lemma float_of_double_canon s m e :
  bounded 24 128 m e = true ->
  FftZero.float_of_double (canon 53 s (Z.pos m) e) = S754_finite s m e.
Proof.
  intros (Hd & He & Hf)%bounded_inv. unfold canon. cbn [FftZero.float_of_double].
  set (k := 53 - dig (Z.pos m)).
  assert (Hpos : 0 < Z.pos m * 2 ^ k).
  { apply Z.mul_pos_pos; [lia|]. apply Z.pow_pos_nonneg; lia. }
  rewrite (binary_round_exact 24 128 s _ m (e - k) k).
  - f_equal. lia.
  - lia.
  - by rewrite Z2Pos.id.
  - rewrite digits2_pos_dig.
    replace (dig (Z.pos m) + k + (e - k)) with (dig (Z.pos m) + e) by lia. lia.
  - lia.
Qed.

Lemma div_eucl_mul a b : 0 < b -> Z.div_eucl (a * b) b = (a, 0).
Proof.
  intros Hb. destruct (Z.div_eucl (a * b) b) as [q r] eqn:E.
  assert (Hq : (a * b) / b = q) by (unfold Z.div; by rewrite E).
  assert (Hr : (a * b) mod b = r) by (unfold Z.modulo; by rewrite E).
  rewrite Z.div_mul in Hq by lia. rewrite Z.mod_mul in Hr by lia. congruence.
Qed.

(** The division by [FFT_SIZE], a power of 2, of a mantissa of 53 bits. *)
Lemma SFdiv_core_FFT_SIZE (m : positive) e :
  Z.pos (digits2_pos m) = 53 -> -1060 <= e ->
  SFdiv_core_binary 53 1024 (Z.pos m) e 4503599627370496 (-39)
  = (Z.pos m * 2 ^ 1, e - 14, loc_Exact).
Proof.
  intros Hd He. unfold SFdiv_core_binary. cbn [Zdigits2]. rewrite Hd.
  change (Z.pos (digits2_pos 4503599627370496)) with 53. cbv zeta.
  assert (He' : Z.min (fexp 53 1024 (53 + e - (53 + -39))) (e - -39) = e - 14).
  { unfold fexp, emin. lia. }
  rewrite He'. replace (e - -39 - (e - 14)) with 53 by lia. cbv iota.
  rewrite Z.shiftl_mul_pow2 by lia.
  replace (Z.pos m * 2 ^ 53) with (Z.pos m * 2 ^ 1 * 4503599627370496) by lia.
  by rewrite div_eucl_mul.
Qed.

(** The sum of [FFT_SIZE] equal numbers, over [FFT_SIZE]. *)
Lemma ddiv_FFT_SIZE s a e :
  0 < a -> dig a <= 40 -> -1000 <= e <= 900 ->
  FftZero.ddiv (canon 53 s (FftZero.FFT_SIZE * a) e) (FftZero.double_of_int FftZero.FFT_SIZE)
  = canon 53 s a e.
Proof.
  intros Ha Hd He. rewrite double_of_int_FFT_SIZE.
  pose proof (dig_pos a Ha) as Hd0.
  assert (Hd13 : dig (FftZero.FFT_SIZE * a) = dig a + 13).
  { rewrite FFT_SIZE_eq, Z.mul_comm. apply dig_mul_pow2; lia. }
  unfold canon, FftZero.ddiv. rewrite Hd13. cbn [SFdiv].
  set (k := 53 - (dig a + 13)).
  assert (Hpos : 0 < FftZero.FFT_SIZE * a * 2 ^ k).
  { apply Z.mul_pos_pos; [|apply Z.pow_pos_nonneg; lia].
    rewrite FFT_SIZE_eq. lia. }
  set (m := Z.to_pos (FftZero.FFT_SIZE * a * 2 ^ k)).
  assert (Hm : Z.pos m = FftZero.FFT_SIZE * a * 2 ^ k) by (unfold m; by rewrite Z2Pos.id).
  assert (Hdm : Z.pos (digits2_pos m) = 53).
  { rewrite digits2_pos_dig, Hm, dig_mul_pow2, Hd13 by lia. lia. }
  rewrite SFdiv_core_FFT_SIZE by lia.
  rewrite binary_round_aux_exact.
  - rewrite xorb_false_r. f_equal; [|lia].
    apply Pos2Z.inj. rewrite Hm, Z2Pos.id.
    + replace (53 - dig a) with (13 + k) by lia.
      rewrite Z.pow_add_r, FFT_SIZE_eq by lia. lia.
    + apply Z.mul_pos_pos; [lia|]. apply Z.pow_pos_nonneg; lia.
  - lia.
  - rewrite Hdm. unfold fexp, emin. lia.
  - lia.
Qed.

(** A number less itself is [+0]. *)
Lemma fsub_diag s m e :
  FftZero.fsub (S754_finite s m e) (S754_finite s m e) = S754_zero false.
Proof. unfold FftZero.fsub. cbn [SFsub]. by rewrite Z.sub_diag. Qed.

Lemma dadd_zero_l s a e :
  FftZero.dadd (S754_zero false) (canon 53 s a e) = canon 53 s a e.
Proof. done. Qed.

(** The sum of [n] copies of a [float], added up in [double], is the
    product: no addition rounds. *)
Lemma sum_replicate s m e (n : nat) :
  bounded 24 128 m e = true ->
  forall k, 1 <= k -> k + Z.of_nat n <= FftZero.FFT_SIZE ->
  foldl (fun sum x => FftZero.dadd sum (FftZero.double_of_float x))
        (canon 53 s (k * Z.pos m) e) (replicate n (S754_finite s m e))
  = canon 53 s ((k + Z.of_nat n) * Z.pos m) e.
Proof.
  intros Hb. pose proof (bounded_inv m e Hb) as (Hd & He & _).
  pose proof (dig_bound (Z.pos m) ltac:(lia)) as Hlt.
  assert (Hm24 : Z.pos m < 2 ^ 24).
  { eapply Z.lt_le_trans; [exact Hlt|]. apply Z.pow_le_mono_r; lia. }
  induction n as [|n IH]; intros k Hk Hn.
  - cbn [replicate foldl]. do 2 f_equal. lia.
  - cbn [replicate foldl]. rewrite double_of_float_finite by done.
    pose proof FFT_SIZE_eq as HN.
    assert (Hdig : dig (k * Z.pos m + Z.pos m) <= 38).
    { apply dig_lt_pow2; [lia|]. change (2 ^ 38) with (2 ^ 14 * 2 ^ 24). nia. }
    pose proof (dig_pos (k * Z.pos m + Z.pos m) ltac:(lia)).
    unfold FftZero.dadd. rewrite SFadd_canon by lia.
    replace (k * Z.pos m + Z.pos m) with ((k + 1) * Z.pos m) by lia.
    rewrite IH by lia.
    do 2 f_equal. lia.
Qed.

Lemma FFT_SIZE_nat : Z.of_nat (Z.to_nat FftZero.FFT_SIZE) = FftZero.FFT_SIZE.
Proof. pose proof FFT_SIZE_eq. lia. Qed.

(** The mean of a constant channel is the constant. *)
Lemma mean_constant s m e (n : nat) :
  Z.of_nat n = FftZero.FFT_SIZE ->
  bounded 24 128 m e = true ->
  mean (replicate n (S754_finite s m e)) = S754_finite s m e.
Proof.
  intros Hn Hb. pose proof (bounded_inv m e Hb) as (Hd & He & _).
  pose proof FFT_SIZE_eq as HN.
  unfold mean. rewrite length_replicate, Hn.
  destruct n as [|n]; [lia|]. cbn [replicate foldl].
  rewrite double_of_float_finite, dadd_zero_l by done.
  replace (Z.pos m) with (1 * Z.pos m) at 1 by lia.
  rewrite sum_replicate; [|done|lia|lia].
  replace (1 + Z.of_nat n) with FftZero.FFT_SIZE by lia.
  rewrite ddiv_FFT_SIZE by lia.
  by apply float_of_double_canon.
Qed.

Lemma sum_zeros sgn (n : nat) :
  foldl (fun sum x => FftZero.dadd sum (FftZero.double_of_float x))
        (S754_zero false) (replicate n (S754_zero sgn))
  = S754_zero false.
Proof. induction n as [|n IH]; [done|]. cbn [replicate foldl]. by destruct sgn. Qed.

Lemma mean_zeros sgn (n : nat) :
  Z.of_nat n = FftZero.FFT_SIZE ->
  mean (replicate n (S754_zero sgn)) = S754_zero false.
Proof.
  intros Hn. unfold mean. rewrite length_replicate, Hn.
  by rewrite sum_zeros, double_of_int_FFT_SIZE.
Qed.

(** Zero-centering a constant channel leaves zeros: [+0], and [-0] only
    where the channel held [-0]. *)
Lemma centred_constant c (n : nat) :
  Z.of_nat n = FftZero.FFT_SIZE ->
  float_finite c = true ->
  exists sgn,
    centred (replicate n c) = replicate n (S754_zero sgn)
    /\ (sgn = true -> c = S754_zero true).
Proof.
  intros Hn Hc. unfold centred. rewrite fmap_replicate.
  destruct c as [sgn| | |s m e]; try done.
  - exists sgn. rewrite mean_zeros by done. split; [by destruct sgn|by intros ->].
  - exists false. cbn [float_finite] in Hc. rewrite mean_constant by done.
    by rewrite fsub_diag.
Qed.

(** ** The transform of zeros *)

Lemma fmul_zero_finite sx y :
  float_finite y = true -> exists sgn, FftZero.fmul (S754_zero sx) y = S754_zero sgn.
Proof. destruct y; try done; by eexists. Qed.

Lemma fadd_zeros sx sy : exists sgn, FftZero.fadd (S754_zero sx) (S754_zero sy) = S754_zero sgn.
Proof. destruct sx, sy; by eexists. Qed.

Lemma fsub_zeros sx sy : exists sgn, FftZero.fsub (S754_zero sx) (S754_zero sy) = S754_zero sgn.
Proof. destruct sx, sy; by eexists. Qed.

Lemma C_MUL_zero sa sb w :
  cpx_finite w = true ->
  exists s1 s2,
    FftZero.C_MUL (FftZero.Cpx (S754_zero sa) (S754_zero sb)) w
    = FftZero.Cpx (S754_zero s1) (S754_zero s2).
Proof.
  unfold cpx_finite. rewrite andb_true_iff. intros [Hr Hi].
  unfold FftZero.C_MUL. cbn [FftZero.r FftZero.i].
  destruct (fmul_zero_finite sa _ Hr) as [s1 ->].
  destruct (fmul_zero_finite sb _ Hi) as [s2 ->].
  destruct (fmul_zero_finite sa _ Hi) as [s3 ->].
  destruct (fmul_zero_finite sb _ Hr) as [s4 ->].
  destruct (fsub_zeros s1 s2) as [s5 ->]. destruct (fadd_zeros s3 s4) as [s6 ->].
  by exists s5, s6.
Qed.

Lemma C_ADD_zero sa sb sc sd :
  exists s1 s2,
    FftZero.C_ADD (FftZero.Cpx (S754_zero sa) (S754_zero sb))
                  (FftZero.Cpx (S754_zero sc) (S754_zero sd))
    = FftZero.Cpx (S754_zero s1) (S754_zero s2).
Proof.
  unfold FftZero.C_ADD. cbn [FftZero.r FftZero.i].
  destruct (fadd_zeros sa sc) as [s1 ->]. destruct (fadd_zeros sb sd) as [s2 ->].
  by exists s1, s2.
Qed.

Lemma twiddle_finite twiddles n :
  Forall (fun w => cpx_finite w = true) twiddles ->
  cpx_finite (FftZero.twiddle twiddles n) = true.
Proof.
  intros Hall. unfold FftZero.twiddle.
  destruct (twiddles !! Z.to_nat n) as [w|] eqn:Hw; [|done].
  cbn [default]. by eapply (proj1 (Forall_lookup _ _) Hall).
Qed.

(** Every bin of the transform of zeros is a zero. *)
Lemma dft_bin_zero twiddles (fin : list FftZero.kiss_fft_cpx) k :
  Forall (fun w => cpx_finite w = true) twiddles ->
  Forall (fun c => exists sa sb, c = FftZero.Cpx (S754_zero sa) (S754_zero sb)) fin ->
  exists s1 s2, FftZero.dft_bin twiddles fin k = FftZero.Cpx (S754_zero s1) (S754_zero s2).
Proof.
  intros Htw Hfin. unfold FftZero.dft_bin.
  set (n := Z.of_nat (length fin)).
  assert (Hzip : Forall (fun jx : Z * FftZero.kiss_fft_cpx =>
                           exists sa sb, jx.2 = FftZero.Cpx (S754_zero sa) (S754_zero sb))
                        (zip (seqZ 0 n) fin)).
  { apply Forall_forall. intros [j x] Hin. apply elem_of_zip_r in Hin.
    by apply (proj1 (Forall_forall _ _) Hfin). }
  generalize (zip (seqZ 0 n) fin) Hzip. clear Hzip.
  assert (Hacc : exists s1 s2, FftZero.Cpx (S754_zero false) (S754_zero false)
                               = FftZero.Cpx (S754_zero s1) (S754_zero s2))
    by (by exists false, false).
  revert Hacc. generalize (FftZero.Cpx (S754_zero false) (S754_zero false)).
  intros acc Hacc l Hl. revert acc Hacc.
  induction Hl as [|[j x] l (sa & sb & Hx) _ IH]; intros acc Hacc; [done|].
  cbn [foldl]. apply IH. cbn [fst snd] in *. subst x.
  destruct Hacc as (s1 & s2 & ->).
  destruct (C_MUL_zero sa sb (FftZero.twiddle twiddles ((j * k) `mod` n))
              (twiddle_finite _ _ Htw)) as (s3 & s4 & ->).
  apply C_ADD_zero.
Qed.

Lemma magnitude_zero sa sb :
  FftZero.magnitude (FftZero.Cpx (S754_zero sa) (S754_zero sb)) = S754_zero false.
Proof. by destruct sa, sb. Qed.

(** The spectrum of a channel of zeros: every magnitude is [+0]. *)
Lemma spectrum_zeros twiddles sgn (n : nat) :
  Forall (fun w => cpx_finite w = true) twiddles ->
  spectrum twiddles (replicate n (S754_zero sgn)) = replicate n (S754_zero false).
Proof.
  intros Htw. unfold spectrum, FftZero.kiss_fft.
  rewrite fmap_replicate, length_replicate, <- list_fmap_compose.
  set (fin := replicate n _).
  assert (Hfin : Forall (fun c => exists sa sb,
                           c = FftZero.Cpx (S754_zero sa) (S754_zero sb)) fin).
  { apply Forall_replicate. by exists sgn, false. }
  assert (Hall : forall l : list Z,
            FftZero.magnitude ∘ FftZero.dft_bin twiddles fin <$> l
            = replicate (length l) (S754_zero false)).
  { induction l as [|k l IH]; [done|]. cbn [fmap list_fmap length replicate].
    f_equal; [|exact IH]. cbn [compose].
    destruct (dft_bin_zero twiddles fin k Htw Hfin) as (s1 & s2 & ->).
    apply magnitude_zero. }
  rewrite Hall, length_seqZ. f_equal. lia.
Qed.

(** ** The loops of the spectral stage *)

Lemma load_lookup {A} (a : list A) (j : Z) v :
  0 <= j -> a !! Z.to_nat j = Some v -> load a j = Ok v.
Proof. intros Hj Hv. rewrite <- (Z2Nat.id j Hj). by apply load_Ok. Qed.

Lemma lookup_map_prefix {A B} (g : A -> B) (src : list A) (dst : list B) (j : nat) :
  (j <= length src)%nat -> ((g <$> take j src) ++ drop j dst) !! j = dst !! j.
Proof.
  intros Hj. rewrite lookup_app_r; rewrite length_fmap, length_take; [|lia].
  rewrite lookup_drop. f_equal. lia.
Qed.

Lemma insert_map_prefix {A B} (g : A -> B) (src : list A) (dst : list B) (j : nat) x :
  src !! j = Some x -> (j < length dst)%nat ->
  <[j := g x]> ((g <$> take j src) ++ drop j dst) = (g <$> take (S j) src) ++ drop (S j) dst.
Proof.
  intros Hx Hj. pose proof (lookup_lt_Some _ _ _ Hx) as Hlt.
  rewrite insert_app_r_alt; rewrite length_fmap, length_take; [|lia].
  replace (j - j `min` length src)%nat with 0%nat by lia.
  destruct (lookup_lt_is_Some_2 dst j Hj) as [d Hd].
  rewrite (drop_S _ _ _ Hd). cbn [list_insert].
  rewrite (take_S_r _ _ _ Hx), fmap_app, <- app_assoc. done.
Qed.

(** A loop that fills [dst] with the images of the elements of [src]. *)
Lemma map_loop {A B} (g : A -> B) (src : list A) (dst : list B) (n : nat) :
  n = length src -> n = length dst ->
  for_range n 0 (fun j d => a ← load src j; store d j (g a)) dst = Ok (g <$> src).
Proof.
  intros Hsrc Hdst.
  destruct (for_range_inv
              (fun j d => d = (g <$> take (Z.to_nat j) src) ++ drop (Z.to_nat j) dst)
              (fun j d => a ← load src j; store d j (g a)) n 0 dst)
    as (d' & Hrun & Hd').
  - done.
  - intros j d Hj ->.
    destruct (lookup_lt_is_Some_2 src (Z.to_nat j)) as [x Hx]; [lia|].
    rewrite (load_lookup _ j x ltac:(lia) Hx). cbn [mbind outcome_bind].
    rewrite store_Ok.
    2:{ rewrite length_app, length_fmap, length_take, length_drop. lia. }
    eexists. split; [done|].
    replace (Z.to_nat (j + 1)) with (S (Z.to_nat j)) by lia.
    apply insert_map_prefix; [done|lia].
  - rewrite Hrun, Hd'. f_equal.
    replace (Z.to_nat (0 + Z.of_nat n)) with n by lia.
    rewrite Hsrc at 1. rewrite firstn_all, Hdst, drop_all. apply app_nil_r.
Qed.

Lemma sum_loop (ch0 ch1 : list spec_float) (n : nat) a b :
  n = length ch0 -> n = length ch1 ->
  for_range n 0 (FftZero.sum_step ch0 ch1) (a, b)
  = Ok (foldl (fun sum x => FftZero.dadd sum (FftZero.double_of_float x)) a ch0,
        foldl (fun sum x => FftZero.dadd sum (FftZero.double_of_float x)) b ch1).
Proof.
  intros H0 H1. set (f := fun sum x => FftZero.dadd sum (FftZero.double_of_float x)).
  destruct (for_range_inv
              (fun j st => st = (foldl f a (take (Z.to_nat j) ch0),
                                 foldl f b (take (Z.to_nat j) ch1)))
              (FftZero.sum_step ch0 ch1) n 0 (a, b))
    as (st & Hrun & Hst).
  - done.
  - intros j st Hj ->.
    destruct (lookup_lt_is_Some_2 ch0 (Z.to_nat j)) as [x Hx]; [lia|].
    destruct (lookup_lt_is_Some_2 ch1 (Z.to_nat j)) as [y Hy]; [lia|].
    unfold FftZero.sum_step.
    rewrite (load_lookup _ j x ltac:(lia) Hx). cbn [mbind outcome_bind].
    rewrite (load_lookup _ j y ltac:(lia) Hy). cbn [mbind outcome_bind].
    eexists. split; [done|].
    replace (Z.to_nat (j + 1)) with (S (Z.to_nat j)) by lia.
    by rewrite (take_S_r _ _ _ Hx), (take_S_r _ _ _ Hy), !foldl_app.
  - rewrite Hrun, Hst. replace (Z.to_nat (0 + Z.of_nat n)) with n by lia.
    rewrite H0 at 1. rewrite H1. by rewrite !firstn_all.
Qed.

Lemma center_loop (g0 g1 : spec_float) (ch0 ch1 : list spec_float) (n : nat) :
  n = length ch0 -> n = length ch1 ->
  for_range n 0 (FftZero.center_step g0 g1) (ch0, ch1)
  = Ok ((fun x => FftZero.fsub x g0) <$> ch0, (fun x => FftZero.fsub x g1) <$> ch1).
Proof.
  intros H0 H1.
  set (f0 := fun x => FftZero.fsub x g0). set (f1 := fun x => FftZero.fsub x g1).
  destruct (for_range_inv
              (fun j st => st = ((f0 <$> take (Z.to_nat j) ch0) ++ drop (Z.to_nat j) ch0,
                                 (f1 <$> take (Z.to_nat j) ch1) ++ drop (Z.to_nat j) ch1))
              (FftZero.center_step g0 g1) n 0 (ch0, ch1))
    as (st & Hrun & Hst).
  - done.
  - intros j st Hj ->.
    destruct (lookup_lt_is_Some_2 ch0 (Z.to_nat j)) as [x Hx]; [lia|].
    destruct (lookup_lt_is_Some_2 ch1 (Z.to_nat j)) as [y Hy]; [lia|].
    unfold FftZero.center_step.
    set (l0 := (f0 <$> take (Z.to_nat j) ch0) ++ drop (Z.to_nat j) ch0).
    set (l1 := (f1 <$> take (Z.to_nat j) ch1) ++ drop (Z.to_nat j) ch1).
    assert (Hl0 : l0 !! Z.to_nat j = Some x) by (unfold l0; by rewrite lookup_map_prefix by lia).
    assert (Hl1 : l1 !! Z.to_nat j = Some y) by (unfold l1; by rewrite lookup_map_prefix by lia).
    rewrite (load_lookup l0 j x ltac:(lia) Hl0). cbn [mbind outcome_bind].
    rewrite (store_Ok l0).
    2:{ unfold l0. rewrite length_app, length_fmap, length_take, length_drop. lia. }
    cbn [mbind outcome_bind].
    rewrite (load_lookup l1 j y ltac:(lia) Hl1). cbn [mbind outcome_bind].
    rewrite (store_Ok l1).
    2:{ unfold l1. rewrite length_app, length_fmap, length_take, length_drop. lia. }
    cbn [mbind outcome_bind].
    eexists. split; [done|].
    replace (Z.to_nat (j + 1)) with (S (Z.to_nat j)) by lia.
    f_equal.
    + apply (insert_map_prefix f0 ch0 ch0 (Z.to_nat j) x Hx). lia.
    + apply (insert_map_prefix f1 ch1 ch1 (Z.to_nat j) y Hy). lia.
  - rewrite Hrun, Hst. replace (Z.to_nat (0 + Z.of_nat n)) with n by lia.
    rewrite H0 at 1 2. rewrite H1. by rewrite !firstn_all, !drop_all, !app_nil_r.
Qed.

Lemma write_loop (mag0 mag1 : list spec_float) (n : nat) tr :
  n = length mag0 -> n = length mag1 ->
  for_range n 0 (FftZero.write_step mag0 mag1) tr
  = Ok (tr ++ (zip mag0 mag1 ≫= fun ab =>
                 [FWrite FftZero.fft_filepath (FftZero.float_bytes ab.1);
                  FWrite FftZero.fft_filepath (FftZero.float_bytes ab.2)])).
Proof.
  intros H0 H1.
  set (ops := fun ab : spec_float * spec_float =>
                [FWrite FftZero.fft_filepath (FftZero.float_bytes ab.1);
                 FWrite FftZero.fft_filepath (FftZero.float_bytes ab.2)]).
  destruct (for_range_inv
              (fun j t => t = tr ++ (zip (take (Z.to_nat j) mag0) (take (Z.to_nat j) mag1)
                                     ≫= ops))
              (FftZero.write_step mag0 mag1) n 0 tr)
    as (t & Hrun & Ht).
  - cbn. by rewrite app_nil_r.
  - intros j t Hj ->.
    destruct (lookup_lt_is_Some_2 mag0 (Z.to_nat j)) as [x Hx]; [lia|].
    destruct (lookup_lt_is_Some_2 mag1 (Z.to_nat j)) as [y Hy]; [lia|].
    unfold FftZero.write_step.
    rewrite (load_lookup _ j x ltac:(lia) Hx). cbn [mbind outcome_bind].
    rewrite (load_lookup _ j y ltac:(lia) Hy). cbn [mbind outcome_bind].
    eexists. split; [done|].
    replace (Z.to_nat (j + 1)) with (S (Z.to_nat j)) by lia.
    rewrite (take_S_r _ _ _ Hx), (take_S_r _ _ _ Hy).
    rewrite zip_with_app by (rewrite !length_take; lia).
    by rewrite bind_app, app_assoc.
  - rewrite Hrun, Ht. replace (Z.to_nat (0 + Z.of_nat n)) with n by lia.
    rewrite H0 at 1. rewrite H1. by rewrite !firstn_all.
Qed.

(** ** The stage as a whole *)

(** The two loops of zero-centering compute the means in [double] and
    take them from every sample. *)
Lemma channel_means_spec (ch0 ch1 : list spec_float) :
  Z.of_nat (length ch0) = FftZero.FFT_SIZE ->
  Z.of_nat (length ch1) = FftZero.FFT_SIZE ->
  FftZero.channel_means ch0 ch1 = Ok (mean ch0, mean ch1).
Proof.
  intros H0 H1. unfold FftZero.channel_means.
  rewrite (sum_loop ch0 ch1) by lia. cbn [mbind outcome_bind].
  unfold mean. by rewrite H0, H1.
Qed.

Lemma zero_center_spec (ch0 ch1 : list spec_float) :
  Z.of_nat (length ch0) = FftZero.FFT_SIZE ->
  Z.of_nat (length ch1) = FftZero.FFT_SIZE ->
  FftZero.zero_center ch0 ch1 = Ok (centred ch0, centred ch1).
Proof.
  intros H0 H1. unfold FftZero.zero_center.
  rewrite channel_means_spec by done. cbn [mbind outcome_bind].
  by rewrite (center_loop (mean ch0) (mean ch1) ch0 ch1) by lia.
Qed.

Lemma length_kiss_fft twiddles fin :
  length (FftZero.kiss_fft twiddles fin) = length fin.
Proof. unfold FftZero.kiss_fft. rewrite length_fmap, length_seqZ. lia. Qed.

(** [process_fft_and_save_onefile] on two channels of [FFT_SIZE] samples,
    when its three allocations succeed: it leaves the channels centred and
    writes their two spectra to the file, if the file opens. *)
Lemma process_fft_and_save_onefile_spec env twiddles (ch0 ch1 : list spec_float) :
  Z.of_nat (length ch0) = FftZero.FFT_SIZE ->
  Z.of_nat (length ch1) = FftZero.FFT_SIZE ->
  FftZero.p_cfg env = Some twiddles ->
  FftZero.p_in_ok env = true -> FftZero.p_out_ok env = true ->
  FftZero.process_fft_and_save_onefile env ch0 ch1
  = Ok (centred ch0, centred ch1,
        spectrum_file (spectrum twiddles (centred ch0)) (spectrum twiddles (centred ch1))
                      (FftZero.p_open env)).
Proof.
  intros H0 H1 Hcfg Hin Hout. unfold FftZero.process_fft_and_save_onefile.
  rewrite zero_center_spec by done. cbn [mbind outcome_bind].
  rewrite Hin, Hcfg, Hout. cbn [negb].
  assert (Hn : Z.to_nat FftZero.FFT_SIZE = length ch0) by lia.
  assert (Hc0 : length (centred ch0) = length ch0) by apply length_fmap.
  assert (Hc1 : length (centred ch1) = length ch0) by (unfold centred; rewrite length_fmap; lia).
  rewrite Hn.
  set (re := fun x => FftZero.Cpx x (S754_zero false)).
  change (FftZero.fill_step (centred ch0))
    with (fun j d => a ← load (centred ch0) j; store d j (re a)).
  rewrite map_loop; [|done|by rewrite length_replicate]. cbn [mbind outcome_bind].
  change (FftZero.mag_step (FftZero.kiss_fft twiddles (re <$> centred ch0)))
    with (fun j d => c ← load (FftZero.kiss_fft twiddles (re <$> centred ch0)) j;
                     store d j (FftZero.magnitude c)).
  rewrite map_loop; [|by rewrite length_kiss_fft, length_fmap|by rewrite length_replicate].
  cbn [mbind outcome_bind].
  change (FftZero.fill_step (centred ch1))
    with (fun j d => a ← load (centred ch1) j; store d j (re a)).
  rewrite map_loop; [|done|by rewrite length_fmap]. cbn [mbind outcome_bind].
  change (FftZero.mag_step (FftZero.kiss_fft twiddles (re <$> centred ch1)))
    with (fun j d => c ← load (FftZero.kiss_fft twiddles (re <$> centred ch1)) j;
                     store d j (FftZero.magnitude c)).
  rewrite map_loop; [|by rewrite length_kiss_fft, length_fmap|by rewrite length_replicate].
  cbn [mbind outcome_bind].
  fold (spectrum twiddles (centred ch0)). fold (spectrum twiddles (centred ch1)).
  unfold spectrum_file. destruct (FftZero.p_open env); [|done].
  rewrite write_loop.
  - cbn [mbind outcome_bind]. by rewrite <- app_assoc.
  - unfold spectrum. by rewrite length_fmap, length_kiss_fft, length_fmap.
  - unfold spectrum. by rewrite length_fmap, length_kiss_fft, length_fmap.
Qed.

Lemma SFeqb_finite_refl s m e : SFeqb (S754_finite s m e) (S754_finite s m e) = true.
Proof.
  unfold SFeqb, SFcompare. rewrite Z.compare_refl, Pos.compare_cont_refl. by destruct s.
Qed.

(** The channels that [main] hands to the stage hold the [float]s of
    [U16] samples: finite numbers, none of them [-0]. *)
Lemma float_of_U16_finite v :
  0 <= v < 65536 ->
  float_finite (FftZero.float_of_U16 v) = true /\ FftZero.float_of_U16 v ≠ S754_zero true.
Proof.
  intros Hv. unfold FftZero.float_of_U16.
  destruct v as [|p|p]; [done| |lia]. cbn [binary_normalize].
  assert (Hd : dig (Z.pos p) <= 16) by (apply dig_lt_pow2; lia).
  pose proof (dig_pos (Z.pos p) ltac:(lia)) as Hd0.
  rewrite binary_round_canon by lia. unfold canon. split; [|done].
  cbn [float_finite]. unfold bounded, canonical_mantissa.
  rewrite andb_true_iff, Z.eqb_eq, Z.leb_le.
  rewrite digits2_pos_dig, Z2Pos.id.
  - rewrite dig_mul_pow2 by lia. unfold fexp, emin. lia.
  - apply Z.mul_pos_pos; [lia|]. apply Z.pow_pos_nonneg; lia.
Qed.




(** * Further properties of the programs *)

(** ** The channel selector and the size of its buffers *)

(** What a counted loop that ran to its end has established. *)
Lemma for_range_Ok_inv {S} (P : Z -> S -> Prop) (body : Z -> S -> outcome S) n :
  forall i s s',
  for_range n i body s = Ok s' ->
  P i s ->
  (forall j t t', i <= j < i + Z.of_nat n -> P j t -> body j t = Ok t' -> P (j + 1) t') ->
  P (i + Z.of_nat n) s'.
Proof.
  induction n as [|n IH]; intros i s s' Hrun Hi Hstep.
  - injection Hrun as <-. by replace (i + Z.of_nat 0) with i by lia.
  - cbn [for_range] in Hrun. apply bind_Ok_inv in Hrun as (t & Ht & Hrun).
    replace (i + Z.of_nat (Datatypes.S n)) with (i + 1 + Z.of_nat n) by lia.
    apply (IH (i + 1) t s' Hrun).
    + apply (Hstep i s t); [lia|done..].
    + intros j u u' Hj. apply Hstep. lia.
Qed.

(** Two loops whose bodies keep a relation between their states. *)
Lemma for_range_sim {S T} (R : S -> T -> Prop)
    (f : Z -> S -> outcome S) (g : Z -> T -> outcome T) :
  (forall j s t s', R s t -> f j s = Ok s' -> exists t', g j t = Ok t' /\ R s' t') ->
  forall n i s t s', R s t -> for_range n i f s = Ok s' ->
  exists t', for_range n i g t = Ok t' /\ R s' t'.
Proof.
  intros Hstep. induction n as [|n IH]; intros i s t s' HR Hrun.
  - injection Hrun as <-. by exists t.
  - cbn [for_range] in Hrun. apply bind_Ok_inv in Hrun as (s1 & Hs1 & Hrun).
    destruct (Hstep i s t s1 HR Hs1) as (t1 & Ht1 & HR1).
    destruct (IH (i + 1) s1 t1 s' HR1 Hrun) as (t' & Ht' & HR').
    exists t'. split; [|done]. cbn [for_range]. by rewrite Ht1.
Qed.

(** A destination longer than the extract keeps what lies behind it. *)
Lemma extract_selected_channels_frame cfg src (dst tail out : list Z) (n : Z) :
  extract_selected_channels cfg src dst = Ok (out, n) ->
  extract_selected_channels cfg src (dst ++ tail) = Ok (out ++ tail, n).
Proof.
  intros Hrun. unfold extract_selected_channels in *.
  set (R := fun (s t : list Z * Z) => t = (s.1 ++ tail, s.2)).
  destruct (for_range_sim R (extract_scan cfg src) (extract_scan cfg src)) with
    (n := Z.to_nat (BUFFER_SAMPLES cfg)) (i := 0) (s := (dst, 0)) (t := (dst ++ tail, 0))
    (s' := (out, n)) as (t' & Ht' & HR); [|done|done|by rewrite Ht', HR].
  intros i s t s' -> Hs. unfold extract_scan in *.
  set (base := size_t (i * TOTAL_HW_CHANNELS cfg)) in *.
  apply (for_range_sim R (extract_slot cfg src base) (extract_slot cfg src base))
    with (s := s); [|done|done].
  clear. intros k [d o] t [d' o'] -> Hs. unfold extract_slot in *. cbn [fst snd].
  apply bind_Ok_inv in Hs as (ch & Hch & Hs).
  apply bind_Ok_inv in Hs as (v & Hv & Hs).
  apply bind_Ok_inv in Hs as (d1 & Hst & Hs). injection Hs as <- <-.
  apply store_Ok_inv in Hst as [Ho ->].
  rewrite Hch. cbn [mbind outcome_bind]. rewrite Hv. cbn [mbind outcome_bind].
  rewrite store_Ok by (rewrite length_app; lia). cbn [mbind outcome_bind].
  eexists. split; [reflexivity|]. unfold R. cbn [fst snd].
  by rewrite insert_app_l by lia.
Qed.

(** The cursor of an extraction that ran to its end has stayed inside the
    destination. *)
Lemma extract_selected_channels_cursor cfg src dst r :
  0 <= BUFFER_SAMPLES cfg ->
  Z.of_nat (length dst) < 2 ^ SIZE_WIDTH ->
  extract_selected_channels cfg src dst = Ok r ->
  BUFFER_SAMPLES cfg * SELECTED_COUNT cfg <= Z.of_nat (length dst).
Proof.
  intros HN Hfit Hrun. unfold extract_selected_channels in Hrun.
  set (m := SELECTED_COUNT cfg).
  assert (Hm : 0 <= m) by (unfold m, SELECTED_COUNT; lia).
  pose (Q := fun (i : Z) (st : list Z * Z) =>
               length st.1 = length dst /\ st.2 = i * m /\ st.2 <= Z.of_nat (length dst)).
  apply (for_range_Ok_inv Q) in Hrun.
  - destruct Hrun as (_ & H2 & H3). rewrite Z2Nat.id in H2 by lia. lia.
  - unfold Q. cbn. split; [done|]. lia.
  - intros i st st' Hi (Hl & Ho & Hb) Hscan. unfold extract_scan in Hscan.
    pose (P := fun (k : Z) (t : list Z * Z) =>
                 length t.1 = length dst /\ t.2 = i * m + k /\ t.2 <= Z.of_nat (length dst)).
    apply (for_range_Ok_inv P) in Hscan.
    + destruct Hscan as (H1 & H2 & H3). unfold Q. split; [done|].
      unfold m, SELECTED_COUNT in *. lia.
    + unfold P. split; [done|]. lia.
    + clear Hscan. intros k [d o] [d' o'] Hk (H1 & H2 & H3) Hslot.
      unfold extract_slot in Hslot. cbn [fst snd] in *.
      apply bind_Ok_inv in Hslot as (ch & _ & Hslot).
      apply bind_Ok_inv in Hslot as (v & _ & Hslot).
      apply bind_Ok_inv in Hslot as (d1 & Hst & Hslot). injection Hslot as <- <-.
      apply store_Ok_inv in Hst as [Ho' ->]. unfold P. cbn [fst snd].
      rewrite length_insert, size_t_small by lia. lia.
Qed.

Lemma load_Ok_inv {A} (a : list A) (i : Z) (v : A) :
  load a i = Ok v -> 0 <= i /\ a !! Z.to_nat i = Some v.
Proof.
  unfold load. intros H. case_decide; [|done].
  destruct (a !! Z.to_nat i); [|done]. injection H as <-. by split.
Qed.

Lemma plain_not_Ok {A} (o : outcome A) :
  plain o -> (forall a, o ≠ Ok a) -> o = Undefined.
Proof. destruct o as [a| |tr|tr]; intros Hp Hno; try done. by destruct (Hno a). Qed.

(** An extraction that ran to its end has found every selected sample of
    every scan inside the source. *)
Lemma extract_selected_channels_reads cfg src dst r :
  selection_wf cfg ->
  extract_selected_channels cfg src dst = Ok r ->
  forall i c, 0 <= i < BUFFER_SAMPLES cfg -> c ∈ SELECTED_IDX cfg ->
    i * TOTAL_HW_CHANNELS cfg + c < Z.of_nat (length src).
Proof.
  intros (HN & Hsel & Hfit & _) Hrun. unfold extract_selected_channels in Hrun.
  set (hw := TOTAL_HW_CHANNELS cfg) in *.
  pose (Q := fun (i : Z) (st : list Z * Z) =>
               forall i' c, 0 <= i' < i -> c ∈ SELECTED_IDX cfg ->
                            i' * hw + c < Z.of_nat (length src)).
  apply (for_range_Ok_inv Q) in Hrun.
  - intros i c Hi Hc. apply (Hrun i c); [lia|done].
  - intros i' c Hi'. lia.
  - intros i st st' Hi HQ Hscan. unfold extract_scan in Hscan. fold hw in Hscan.
    pose (P := fun (k : Z) (t : list Z * Z) =>
                 forall (k' : nat) c, Z.of_nat k' < k -> SELECTED_IDX cfg !! k' = Some c ->
                                      i * hw + c < Z.of_nat (length src)).
    apply (for_range_Ok_inv P) in Hscan.
    + intros i' c Hi' Hc. destruct (decide (i' = i)) as [->|Hne].
      * apply list_elem_of_lookup in Hc as [k' Hk'].
        apply (Hscan k' c); [|done]. apply lookup_lt_Some in Hk'. lia.
      * apply HQ; [lia|done].
    + intros k' c Hk'. lia.
    + clear Hscan. intros k [d o] [d' o'] Hk HP Hslot k' c Hk' Hc.
      unfold extract_slot in Hslot.
      apply bind_Ok_inv in Hslot as (ch & Hch & Hslot).
      apply bind_Ok_inv in Hslot as (v & Hv & _).
      destruct (decide (Z.of_nat k' = k)) as [<-|Hne]; [|apply (HP k' c); [lia|done]].
      apply load_Ok_inv in Hch as [_ Hch]. rewrite Nat2Z.id in Hch.
      assert (ch = c) as -> by congruence.
      assert (Hcr : 0 <= c < hw) by (by eapply (proj1 (Forall_lookup _ _) Hsel)).
      apply load_Ok_inv in Hv as [_ Hv]. apply lookup_lt_Some in Hv.
      rewrite (size_t_small (i * hw)) in Hv by nia.
      rewrite size_t_small in Hv by nia. lia.
Qed.

(** X1. [extract_selected_channels] relies on its caller for the size of
    both buffers.  With a source of [BUFFER_SAMPLES] scans and a destination
    of at least [BUFFER_SAMPLES * SELECTED_COUNT] samples it writes the
    extract at the front of the destination and leaves the rest of it as it
    was; with a shorter destination, or with a source that lacks one of the
    selected samples, it accesses memory outside the buffer. *)
Theorem extract_selected_channels_bounds cfg (src dst : list Z) :
  selection_wf cfg ->
  let n := BUFFER_SAMPLES cfg * SELECTED_COUNT cfg in
  (Z.of_nat (length src) = BUFFER_SAMPLES cfg * TOTAL_HW_CHANNELS cfg ->
   n <= Z.of_nat (length dst) ->
   extract_selected_channels cfg src dst
   = Ok (extracted cfg src ++ drop (Z.to_nat n) dst, n))
  /\ (Z.of_nat (length dst) < n ->
      extract_selected_channels cfg src dst = Undefined)
  /\ (forall i c,
        0 <= i < BUFFER_SAMPLES cfg -> c ∈ SELECTED_IDX cfg ->
        Z.of_nat (length src) <= i * TOTAL_HW_CHANNELS cfg + c ->
        extract_selected_channels cfg src dst = Undefined).
Proof.
  intros Hwf n. pose proof Hwf as (HN & Hsel & Hfit & Hfit2).
  assert (Hm : 0 <= SELECTED_COUNT cfg) by (unfold SELECTED_COUNT; lia).
  split; [|split].
  - intros Hsrc Hdst.
    rewrite <- (take_drop (Z.to_nat n) dst) at 1.
    apply extract_selected_channels_frame, extract_selected_channels_ok; [done..|].
    rewrite length_take. unfold n in *. nia.
  - intros Hshort. apply plain_not_Ok; [apply plain_extract|].
    intros r Hrun. apply extract_selected_channels_cursor in Hrun; unfold n in *; lia.
  - intros i c Hi Hc Hout. apply plain_not_Ok; [apply plain_extract|].
    intros r Hrun.
    pose proof (extract_selected_channels_reads cfg src dst r Hwf Hrun i c Hi Hc) as Hin.
    lia.
Qed.

(** The scenario configuration with a destination of six samples, of four,
    and of three. *)
Lemma extract_selected_channels_bounds_scenario :
  extract_selected_channels scenario_config [10;20;30;40; 11;21;31;41] [1;2;3;4;5;6]
  = Ok ([20;40; 21;41; 5;6], 4)
  /\ extract_selected_channels scenario_config [10;20;30;40; 11;21;31;41] [0;0;0]
     = Undefined
  /\ extract_selected_channels scenario_config [10;20;30;40; 11;21;31] [0;0;0;0]
     = Undefined.
Proof.
  split; [|split].
  - rewrite (proj1 (extract_selected_channels_bounds scenario_config
                      [10;20;30;40; 11;21;31;41] [1;2;3;4;5;6]
                      (config_wf_selection _ scenario_config_wf)) eq_refl);
      [reflexivity|by vm_compute].
  - apply (extract_selected_channels_bounds scenario_config
             [10;20;30;40; 11;21;31;41] [0;0;0]
             (config_wf_selection _ scenario_config_wf)). by vm_compute.
  - apply (proj2 (proj2 (extract_selected_channels_bounds scenario_config
                           [10;20;30;40; 11;21;31] [0;0;0;0]
                           (config_wf_selection _ scenario_config_wf))) 1 3).
    + cbn. lia.
    + cbn. repeat constructor.
    + by vm_compute.
Defined.

(** ** The batch over a whole run *)

(** A flush that opens its file writes the header and the events in order,
    frees every event, and leaves an empty batch. *)
Lemma save_batch_with_flushes hdr saved (fe : flush_env) (w : world)
    (evs : list (positive * list Z)) :
  f_open fe = true -> evs ≠ [] -> batch_holds w evs ->
  let n := Z.of_nat (length evs) in
  let path := log_filepath (f_time fe) n in
  exists w',
    save_batch_with hdr saved fe w = Ok w'
    /\ io w' = io w ++ [FOpen path true; FWrite path (hdr (f_time fe) n)]
                    ++ (FWrite path <$> evs.*2)
                    ++ [FClose path;
                        Printf (str "Batch " ++ fmt_d n ++ saved
                                ++ path ++ str " (header+data)" ++ [NL])]
    /\ (forall fs, fs_run fs (io w') !! path
                   = Some (hdr (f_time fe) n ++ concat evs.*2))
    /\ g_buffered_count w' = 0
    /\ length (g_data_buffer w') = length (g_data_buffer w)
    /\ (forall p, heap w' !! p = if decide (p ∈ evs.*1) then None else heap w !! p).
Proof.
  intros Hopen Hne Hholds n path.
  pose proof Hholds as (Hcount & _ & _).
  assert (Hn0 : g_buffered_count w ≠ 0) by (destruct evs; [done|cbn in Hcount; lia]).
  unfold save_batch_with.
  rewrite decide_False by done. rewrite Hopen, Hcount, Nat2Z.id.
  fold n path.
  destruct (save_events_loop path w evs Hholds
              (emit [FOpen path true; FWrite path (hdr (f_time fe) n)] w) eq_refl eq_refl)
    as (w2 & Hloop & Hio & Hlen & _ & _ & Hheap).
  rewrite Hloop. cbn [mbind outcome_bind]. eexists. split; [reflexivity|].
  cbn [io heap g_data_buffer g_buffered_count emit] in *.
  rewrite Nat2Z.id in *.
  rewrite !firstn_all2 in * by (rewrite ?length_fmap; lia).
  split; [by rewrite Hio, <- !app_assoc|].
  split.
  { intros fs. rewrite Hio, !fs_run_app. cbn [fs_run foldl fs_step].
    rewrite lookup_insert_eq. cbn [app]. rewrite insert_insert_eq.
    fold (fs_run (<[path := hdr (f_time fe) n]> (fs_run fs (io w))) (FWrite path <$> evs.*2)).
    by rewrite (fs_run_writes_at path evs.*2 _ (hdr (f_time fe) n))
      by apply lookup_insert_eq. }
  split; [done|]. split; [done|]. exact Hheap.
Qed.

Lemma batch_ok_flushed max hdr saved (fe : flush_env) (w w' : world)
    (evs : list (positive * list Z)) :
  f_open fe = true -> batch_ok max w evs ->
  save_batch_with hdr saved fe w = Ok w' ->
  batch_ok max w' [] /\ heap w' = ∅.
Proof.
  intros Hopen (Hholds & Hheap & Hlen) Hrun.
  destruct evs as [|ev evs].
  { pose proof Hholds as (Hcount & _). unfold save_batch_with in Hrun.
    rewrite decide_True in Hrun by done. injection Hrun as <-.
    split; [exact (conj Hholds (conj Hheap Hlen))|].
    apply map_empty. intros p. apply Hheap. set_solver. }
  destruct (save_batch_with_flushes hdr saved fe w (ev :: evs) Hopen)
    as (w1 & Hrun1 & _ & _ & Hc & Hl & Hh); [done..|].
  assert (w1 = w') as -> by congruence.
  assert (Hempty : forall p, heap w' !! p = None).
  { intros p. rewrite Hh. case_decide; [done|]. by apply Hheap. }
  split; [|by apply map_empty].
  split; [|split; [done|lia]].
  split; [done|]. split; [constructor|]. intros i p bytes Hi. done.
Qed.

(** A new event in a block of its own takes the next slot of the batch. *)
Lemma batch_ok_append max (w w' : world) (evs : list (positive * list Z))
    (q : positive) (bytes : list Z) :
  batch_ok max w evs -> heap w !! q = None ->
  Z.of_nat (length evs) < max ->
  heap w' = <[q := bytes]> (heap w) ->
  g_data_buffer w' = <[Z.to_nat (g_buffered_count w) := Acq (Some q) (Z.of_nat (length bytes))]>
                       (g_data_buffer w) ->
  g_buffered_count w' = g_buffered_count w + 1 ->
  batch_ok max w' (evs ++ [(q, bytes)]).
Proof.
  intros ((Hcount & Hnd & Hslots) & Hheap & Hlen) Hq Hroom Hh Hb Hc.
  assert (Hqe : q ∉ evs.*1).
  { intros Hin. apply list_elem_of_lookup in Hin as [i Hi].
    rewrite list_lookup_fmap in Hi.
    destruct (evs !! i) as [[p b]|] eqn:He; [|done]. injection Hi as ->.
    destruct (Hslots i q b He) as [_ Hblk]. congruence. }
  split; [split; [|split]|split].
  - rewrite Hc, Hcount, length_app. cbn. lia.
  - rewrite fmap_app. apply NoDup_app. split; [done|]. split; [|apply NoDup_singleton].
    intros p Hp Hp'. apply list_elem_of_singleton in Hp'. by subst.
  - intros i p b Hi. rewrite Hb, Hh, Hcount, Nat2Z.id.
    destruct (decide (i < length evs)%nat) as [Hlt|Hge].
    + rewrite lookup_app_l in Hi by done.
      destruct (Hslots i p b Hi) as [Hs Hblk].
      rewrite list_lookup_insert_ne by lia. split; [done|].
      rewrite lookup_insert_ne; [done|]. congruence.
    + rewrite lookup_app_r in Hi by lia.
      destruct (i - length evs)%nat as [|j] eqn:Hj; [|done].
      injection Hi as <- <-. assert (i = length evs) as -> by lia.
      split; [|apply lookup_insert_eq].
      apply list_lookup_insert_eq. lia.
  - intros p Hp. rewrite Hh. rewrite fmap_app in Hp.
    apply not_elem_of_app in Hp as [Hp Hpq].
    rewrite lookup_insert_ne; [by apply Hheap|].
    intros <-. apply Hpq. by left.
  - rewrite Hb, length_insert. done.
Qed.

(** The batch does not depend on the trace. *)
Lemma batch_ok_ext max (w w' : world) evs :
  heap w' = heap w -> g_data_buffer w' = g_data_buffer w ->
  g_buffered_count w' = g_buffered_count w ->
  batch_ok max w evs -> batch_ok max w' evs.
Proof.
  unfold batch_ok, batch_holds. intros -> -> ->. done.
Qed.

(** *** The drain loop on any record of polls *)

(** One turn, whatever the driver, the allocator and the keyboard say. *)
Lemma drain_turn_any cfg (live : bool) (h0 : heap_t) p st acc :
  config_wf cfg -> poll_wf cfg p -> drain_inv cfg h0 acc st ->
  Z.of_nat (length acc) + sel_chunk_bytes cfg < 2 ^ SIZE_WIDTH ->
  exists st1 acc1 cs,
    drain_turn cfg live p st = Ok st1
    /\ drain_inv cfg h0 acc1 st1
    /\ d_io st1 = d_io st ++ live_writes live cs
    /\ ((acc1 = acc /\ current_acq_buffer st1 = current_acq_buffer st)
        \/ (acc1 = [] /\ current_acq_buffer st1 = None)
        \/ (exists B, acc1 = acc ++ chunk cfg B)).
Proof.
  intros Hwf Hp Hinv Hfit. unfold drain_turn.
  set (st0 := Drain _ _ _ _ _ (p_fStop p) _ _).
  assert (Hinv0 : drain_inv cfg h0 acc st0) by exact Hinv.
  assert (Hflags : forall s a, drain_inv cfg h0 a s ->
            drain_inv cfg h0 a
              (if p_esc p
               then {| d_heap := d_heap s; current_acq_buffer := current_acq_buffer s;
                       current_acq_size := current_acq_size s; sel_work := sel_work s;
                       current_buffer_idx := current_buffer_idx s;
                       g_fStop := true; exit_now := true; d_io := d_io s |}
               else s)).
  { intros s a Hs. by destruct (p_esc p). }
  destruct (p_halfReady p).
  - destruct (p_realloc_ok p) eqn:Hok.
    + destruct (drain_half_grow cfg live h0 p st0 acc Hwf Hp Hinv0 Hok Hfit)
        as (q & Hq & Hrun).
      rewrite Hrun. cbn [mbind outcome_bind].
      set (B := if decide (current_buffer_idx st0 = 0) then p_ai_buf p else p_ai_buf2 p) in *.
      eexists _, (acc ++ chunk cfg B), [chunk cfg B]. split; [reflexivity|].
      split; [|split].
      * apply Hflags. destruct Hinv as (Hw & Hidx & Hsize & _).
        unfold drain_inv. cbn.
        split; [apply extracted_length, Hwf|]. split; [lia|].
        split; [|done].
        rewrite length_app, Nat2Z.inj_add, chunk_length by done. lia.
      * unfold live_writes. by destruct (p_esc p), live.
      * right. right. by exists B.
    + rewrite (drain_half_fail cfg live h0 p st0 acc Hwf Hp Hinv0 Hok).
      cbn [mbind outcome_bind].
      eexists _, [], []. split; [reflexivity|]. split; [|split].
      * apply Hflags. destruct Hinv as (Hw & Hidx & _).
        unfold drain_inv. cbn.
        split; [apply extracted_length, Hwf|]. split; [lia|]. done.
      * rewrite live_writes_nil, app_nil_r. by destruct (p_esc p).
      * right. left. split; [done|]. by destruct (p_esc p).
  - cbn [mbind outcome_bind]. eexists _, acc, []. split; [reflexivity|].
    split; [by apply Hflags|]. split.
    + rewrite live_writes_nil, app_nil_r. by destruct (p_esc p).
    + left. split; [done|]. by destruct (p_esc p).
Qed.

(** The loop, on any record of polls that shows the DMA buffers at their
    size: it does not leave defined behaviour, and when it ends the event
    is a whole number of chunks in a block of its own, or nothing. *)
Lemma drain_any cfg (live : bool) (h0 : heap_t) (polls : list poll) :
  config_wf cfg -> 0 < sel_chunk_bytes cfg ->
  forall st acc k,
  Forall (poll_wf cfg) polls ->
  drain_inv cfg h0 acc st ->
  0 <= k -> Z.of_nat (length acc) = k * sel_chunk_bytes cfg ->
  (k = 0 -> current_acq_buffer st = None) ->
  (k + Z.of_nat (length polls)) * sel_chunk_bytes cfg < 2 ^ SIZE_WIDTH ->
  match drain cfg live polls st with
  | Ok st' =>
      exists acc' k',
        drain_inv cfg h0 acc' st' /\ 0 <= k'
        /\ Z.of_nat (length acc') = k' * sel_chunk_bytes cfg
        /\ (k' = 0 -> current_acq_buffer st' = None)
  | Stalled _ => True
  | Undefined | Exited _ => False
  end.
Proof.
  intros Hwf Hcb. induction polls as [|p polls IH]; intros st acc k Hall Hinv Hk Hlen Hnone Hfit.
  { done. }
  apply Forall_cons in Hall as [Hp Hall]. cbn [length] in Hfit.
  destruct (drain_turn_any cfg live h0 p st acc Hwf Hp Hinv) as (st1 & acc1 & cs & Hrun & Hinv1 & _ & Hcase).
  { nia. }
  cbn [drain]. rewrite Hrun. cbn [mbind outcome_bind].
  assert (Hnext : exists k1, 0 <= k1 <= k + 1
                    /\ Z.of_nat (length acc1) = k1 * sel_chunk_bytes cfg
                    /\ (k1 = 0 -> current_acq_buffer st1 = None)).
  { destruct Hcase as [[-> Hb]|[[-> Hb]|[B ->]]].
    - exists k. split; [lia|]. split; [done|]. intros Hk0. rewrite Hb. by apply Hnone.
    - exists 0. split; [lia|]. split; [done|]. done.
    - exists (k + 1). split; [lia|]. split; [|lia].
      rewrite length_app, Nat2Z.inj_add, chunk_length by done. lia. }
  destruct Hnext as (k1 & Hk1 & Hlen1 & Hnone1).
  destruct (g_fStop st1).
  - exists acc1, k1. split; [done|]. split; [lia|]. by split.
  - apply (IH st1 acc1 k1); try done; [lia|nia].
Qed.

(** *** One cycle and the whole loop *)

Lemma cycle_run_ok cfg (e : cycle_env) (w : world) (evs : list (positive * list Z)) :
  config_wf cfg -> 0 < sel_chunk_bytes cfg ->
  polls_wf cfg e -> f_open (c_flush e) = true ->
  batch_ok (MAX_EVENT_BATCH cfg) w evs ->
  Z.of_nat (length evs) < MAX_EVENT_BATCH cfg ->
  Forall (fun ev => event_ok cfg ev.2) evs ->
  run_ok cfg (cycle cfg e w).
Proof.
  intros Hwf Hcb [Hpolls Hfit] Hopen Hok Hroom Hevs.
  assert (Hsame : run_ok cfg (Ok (w, true)) /\ run_ok cfg (Ok (w, false))).
  { split; exists evs; exact (conj Hok (conj Hroom Hevs)). }
  unfold cycle. destruct (c_driver_err e); [done|].
  destruct (wait_trigger (c_arming e)) as [[|]|]; [apply Hsame| |done].
  destruct (c_sel_work_ok e); [|done]. cbn [negb].
  set (st0 := Drain _ _ _ _ _ _ _ _).
  assert (Hinv0 : drain_inv cfg (heap w) [] st0) by exact (drain_entry_inv cfg w _ Hwf).
  pose proof (drain_any cfg (c_live_open e) (heap w) (c_polls e) Hwf Hcb st0 [] 0
                Hpolls Hinv0 ltac:(lia) eq_refl (fun _ => eq_refl) ltac:(lia)) as Hdrain.
  destruct (drain cfg (c_live_open e) (c_polls e) st0) as [d| |tr|tr]; [|done..].
  destruct Hdrain as (acc & k & (_ & _ & Hsize & Hbuf) & Hk & Hlen & Hnone).
  cbn [mbind outcome_bind]. unfold batch_event, batch_event_with.
  destruct (current_acq_buffer d) as [q|] eqn:Hcur; cycle 1.
  { destruct Hbuf as [_ Hheap]. rewrite decide_False by (by intros [? _]).
    cbn [mbind outcome_bind]. exists evs. split; [|by split].
    eapply batch_ok_ext; [..|exact Hok]; done. }
  destruct Hbuf as [Hq Hheap].
  assert (Hkpos : 0 < k) by (destruct (decide (k = 0)) as [->|]; [by specialize (Hnone eq_refl)|lia]).
  rewrite decide_True by (split; [done|nia]).
  pose proof Hok as ((Hcount & _) & _ & Hcap).
  cbn [g_data_buffer g_buffered_count emit heap io].
  rewrite store_Ok by lia. cbn [mbind outcome_bind g_buffered_count].
  set (w' := World _ _ _ _).
  assert (Hok' : batch_ok (MAX_EVENT_BATCH cfg) w' (evs ++ [(q, acc)])).
  { apply (batch_ok_append _ w); try done. cbn. by rewrite Hsize. }
  assert (Hevs' : Forall (fun ev => event_ok cfg ev.2) (evs ++ [(q, acc)])).
  { apply Forall_app. split; [done|]. constructor; [|done]. by exists k. }
  case_decide as Hfull.
  - destruct (save_batch_to_file (c_flush e) w') as [w''| |tr|tr] eqn:Hflush.
    + destruct (batch_ok_flushed _ _ _ _ _ _ _ Hopen Hok' Hflush) as [Hok'' _].
      cbn [mbind outcome_bind]. exists []. split; [done|]. split; [cbn; lia|constructor].
    + pose proof Hok' as (Hholds' & _).
      destruct (save_batch_with_flushes header (str " event disimpan ke ") (c_flush e) w'
                  (evs ++ [(q, acc)]) Hopen) as (w2 & Hrun2 & _); [by destruct evs|done|].
      unfold save_batch_to_file in Hflush. congruence.
    + pose proof (plain_save_batch_with header (str " event disimpan ke ") (c_flush e) w') as Hpl.
      unfold save_batch_to_file in Hflush. by rewrite Hflush in Hpl.
    + pose proof (plain_save_batch_with header (str " event disimpan ke ") (c_flush e) w') as Hpl.
      unfold save_batch_to_file in Hflush. by rewrite Hflush in Hpl.
  - cbn [mbind outcome_bind]. exists (evs ++ [(q, acc)]). split; [done|]. split; [|done].
    rewrite length_app. cbn [length]. cbn [g_buffered_count] in Hfull. lia.
Qed.

Lemma main_loop_run_ok cfg (envs : list cycle_env) :
  config_wf cfg -> 0 < sel_chunk_bytes cfg ->
  Forall (fun e => polls_wf cfg e /\ f_open (c_flush e) = true) envs ->
  forall w, run_ok cfg (Ok (w, false)) -> run_ok cfg (main_loop cfg envs w).
Proof.
  intros Hwf Hcb. induction 1 as [|e envs [He Hopen] _ IH]; intros w Hw; [done|].
  cbn [main_loop]. destruct Hw as (evs & Hok & Hroom & Hevs).
  pose proof (cycle_run_ok cfg e w evs Hwf Hcb He Hopen Hok Hroom Hevs) as Hcyc.
  destruct (cycle cfg e w) as [[w1 [|]]| |tr|tr]; cbn [mbind outcome_bind]; try done.
  by apply IH.
Qed.

Lemma world0_batch_ok cfg :
  0 <= MAX_EVENT_BATCH cfg -> batch_ok (MAX_EVENT_BATCH cfg) (world0 cfg) [].
Proof.
  intros Hmax. split; [|split].
  - split; [done|]. split; [constructor|]. by intros i p b Hi.
  - done.
  - cbn. rewrite length_replicate. lia.
Qed.

Lemma main_loop_counting_eq cfg (envs : list cycle_env) :
  forall event_count w,
  0 <= event_count -> event_count + Z.of_nat (length envs) <= INT_MAX ->
  main_loop_counting cfg envs event_count w = main_loop cfg envs w.
Proof.
  induction envs as [|e envs IH]; intros event_count w H0 Hlen; [done|].
  cbn [main_loop_counting main_loop]. cbn [length] in Hlen.
  destruct (decide (event_count < INT_MAX)) as [_|Hmax]; [|lia].
  destruct (cycle cfg e w) as [[w1 [|]]| |tr|tr]; cbn [mbind outcome_bind]; try done.
  apply IH; lia.
Qed.

(** The bound on the number of cycles is needed: with [event_count] at
    [INT_MAX], the increment that opens the next cycle overflows. *)
Lemma event_count_overflows cfg e (rest : list cycle_env) w :
  main_loop_counting cfg (e :: rest) INT_MAX w = Undefined.
Proof.
  cbn [main_loop_counting]. destruct (decide (INT_MAX < INT_MAX)) as [H|_]; [lia|done].
Qed.

(** X2. A run of [src/cadgetdata.c] of at most [INT_MAX] trigger cycles, the
    number that [int event_count] can count, stays within defined behaviour
    whatever the driver, the allocator and the keyboard do, as long as the
    constants of the configuration are [int]s and every flush opens its
    file at a time of the calendar: no access leaves a buffer, an event
    block or the batch array.  At every cycle boundary the batch holds fewer
    events than its capacity, each in a block of its own and a whole,
    positive number of chunks long, and the heap holds nothing else: no
    block is leaked. *)
Theorem main_loop_memory_safe cfg (envs : list cycle_env) :
  config_wf cfg -> config_ints cfg ->
  0 < sel_chunk_bytes cfg -> 0 < MAX_EVENT_BATCH cfg ->
  Z.of_nat (length envs) <= INT_MAX ->
  Forall (fun e => polls_wf cfg e /\ flush_wf (c_flush e)) envs ->
  main_loop_counting cfg envs 0 (world0 cfg) ≠ Undefined
  /\ forall w b,
       main_loop_counting cfg envs 0 (world0 cfg) = Ok (w, b) ->
       exists evs,
         batch_holds w evs
         /\ (forall p, is_Some (heap w !! p) <-> p ∈ evs.*1)
         /\ Z.of_nat (length evs) < MAX_EVENT_BATCH cfg
         /\ Z.of_nat (length (g_data_buffer w)) = MAX_EVENT_BATCH cfg
         /\ Forall (fun ev => event_ok cfg ev.2) evs.
Proof.
  intros Hwf _ Hcb Hmax Hcycles Hall.
  rewrite main_loop_counting_eq by lia.
  assert (Hall' : Forall (fun e => polls_wf cfg e /\ f_open (c_flush e) = true) envs).
  { eapply Forall_impl; [exact Hall|]. intros e [He [Hopen _]]. by split. }
  assert (H0 : run_ok cfg (Ok (world0 cfg, false))).
  { exists []. split; [apply world0_batch_ok; lia|]. split; [cbn; lia|constructor]. }
  pose proof (main_loop_run_ok cfg envs Hwf Hcb Hall' _ H0) as Hrun.
  split.
  - intros Hu. by rewrite Hu in Hrun.
  - intros w b Hw. rewrite Hw in Hrun.
    destruct Hrun as (evs & (Hholds & Hheap & Hlen) & Hroom & Hevs).
    exists evs. split; [done|]. split; [|by repeat split].
    intros p. split.
    + intros Hsome. destruct (decide (p ∈ evs.*1)) as [|Hno]; [done|].
      rewrite (Hheap p Hno) in Hsome. by destruct Hsome.
    + intros Hin. apply list_elem_of_lookup in Hin as [i Hi].
      rewrite list_lookup_fmap in Hi.
      destruct (evs !! i) as [[p' bytes]|] eqn:He; [|done]. injection Hi as ->.
      destruct Hholds as (_ & _ & Hslots). destruct (Hslots i p bytes He) as [_ ->]. done.
Qed.

(** A run of the scenario configuration: a completed event, then an event
    given up for lack of memory. *)
Lemma main_loop_memory_safe_scenario :
  main_loop_counting scenario_config [two_halves_cycle; second_chunk_fails] 0
    (world0 scenario_config) ≠ Undefined.
Proof.
  apply (main_loop_memory_safe scenario_config [two_halves_cycle; second_chunk_fails]
           scenario_config_wf).
  - by vm_compute.
  - reflexivity.
  - reflexivity.
  - by vm_compute.
  - repeat constructor; by vm_compute.
Defined.

(** ** Files that a call leaves alone *)

Lemma fs_step_leaves (p : list Z) fs op :
  leaves p op -> fs_step fs op !! p = fs !! p.
Proof.
  destruct op as [|q ok|q bs|q|a b ok]; cbn; intros H; try done.
  - destruct ok; [|done]. by rewrite lookup_insert_ne.
  - destruct (fs !! q); [|done]. by rewrite lookup_insert_ne.
  - destruct (fs !! a); [|done]. destruct ok; [|done].
    destruct H as [|[Ha Hb]]; [done|].
    by rewrite lookup_insert_ne, lookup_delete_ne.
Qed.

Lemma fs_run_leaves (p : list Z) (ops : list io_op) : forall fs,
  Forall (leaves p) ops -> fs_run fs ops !! p = fs !! p.
Proof.
  induction ops as [|op ops IH]; intros fs Hall; [done|].
  apply Forall_cons in Hall as [Hop Hall]. cbn.
  fold (fs_run (fs_step fs op) ops). by rewrite IH, fs_step_leaves.
Qed.

Lemma live_ops_leaves (p : list Z) (e : cycle_env) (cs : list (list Z)) :
  p ≠ live_filepath_tmp -> p ≠ live_filepath_final ->
  Forall (leaves p) (live_ops e cs).
Proof.
  intros Htmp Hfinal. unfold live_ops. constructor; [cbn; congruence|].
  apply Forall_app. split.
  - unfold live_writes. destruct (c_live_open e); [|constructor].
    apply Forall_fmap, Forall_forall. intros c _. cbn. congruence.
  - destruct (c_live_open e); [|constructor].
    constructor; [exact I|]. constructor; [|constructor].
    cbn. right. split; congruence.
Qed.

Lemma log_ne_tmp t n : log_filepath t n ≠ live_filepath_tmp.
Proof.
  intros H. apply (f_equal (fun l : list Z => l !! 1%nat)) in H.
  vm_compute in H. discriminate.
Qed.

(** ** Completed events reach the log *)

(** Completed events line up in the batch, in blocks of their own, as long
    as there is room for them. *)
Lemma main_loop_collects cfg (envs : list cycle_env) :
  config_wf cfg -> 0 < sel_chunk_bytes cfg ->
  forall (w : world) (evs : list (positive * list Z)),
  Forall (completes cfg) envs ->
  batch_ok (MAX_EVENT_BATCH cfg) w evs ->
  Z.of_nat (length evs) + Z.of_nat (length envs) < MAX_EVENT_BATCH cfg ->
  exists w' new,
    main_loop cfg envs w = Ok (w', false)
    /\ batch_ok (MAX_EVENT_BATCH cfg) w' (evs ++ new)
    /\ new.*2 = event_bytes cfg <$> envs
    /\ (forall p, p ≠ live_filepath_tmp -> p ≠ live_filepath_final ->
        forall fs, fs_run fs (io w') !! p = fs_run fs (io w) !! p).
Proof.
  intros Hwf Hcb. induction envs as [|e envs IH]; intros w evs Hall Hok Hroom.
  { exists w, []. rewrite app_nil_r. split; [done|]. split; [done|]. by split. }
  apply Forall_cons in Hall as [He Hall]. cbn [length] in Hroom.
  destruct (cycle_completes cfg e w Hwf Hcb He) as (q & Hq & Hn & Hrun).
  pose proof Hok as ((Hcount & _) & _ & Hcap).
  rewrite batch_event_append in Hrun by (cbn; lia).
  cbn [mbind outcome_bind g_buffered_count g_data_buffer heap] in Hrun.
  set (w1 := World _ _ _ _) in Hrun.
  assert (Hok1 : batch_ok (MAX_EVENT_BATCH cfg) w1 (evs ++ [(q, event_bytes cfg e)])).
  { apply (batch_ok_append _ w); try done. lia. }
  destruct (IH w1 _ Hall Hok1) as (w' & new & Hrun' & Hok' & Hnew & Hio').
  { rewrite length_app. cbn [length]. lia. }
  exists w', ((q, event_bytes cfg e) :: new). split; [|split; [|split]].
  - cbn [main_loop]. rewrite Hrun. cbn [mbind outcome_bind]. exact Hrun'.
  - by rewrite <- app_assoc in Hok'.
  - cbn. by rewrite Hnew.
  - intros p Htmp Hfinal fs. rewrite (Hio' p Htmp Hfinal fs). cbn [io w1].
    rewrite fs_run_app. by apply fs_run_leaves, live_ops_leaves.
Qed.

(** The event that fills the batch sets off the flush. *)
Lemma cycle_fills_and_flushes cfg (e : cycle_env) (w : world)
    (evs : list (positive * list Z)) :
  config_wf cfg -> 0 < sel_chunk_bytes cfg -> completes cfg e ->
  f_open (c_flush e) = true ->
  batch_ok (MAX_EVENT_BATCH cfg) w evs ->
  Z.of_nat (length evs) + 1 = MAX_EVENT_BATCH cfg ->
  let n := MAX_EVENT_BATCH cfg in
  let path := log_filepath (f_time (c_flush e)) n in
  exists w',
    cycle cfg e w = Ok (w', false)
    /\ g_buffered_count w' = 0
    /\ heap w' = ∅
    /\ batch_ok (MAX_EVENT_BATCH cfg) w' []
    /\ (forall fs, fs_run fs (io w') !! path
                   = Some (header (f_time (c_flush e)) n
                           ++ concat (evs.*2 ++ [event_bytes cfg e])))
    /\ (forall p, p ≠ live_filepath_tmp -> p ≠ live_filepath_final -> p ≠ path ->
        forall fs, fs_run fs (io w') !! p = fs_run fs (io w) !! p).
Proof.
  intros Hwf Hcb He Hopen Hok Hfull n path.
  destruct (cycle_completes cfg e w Hwf Hcb He) as (q & Hq & Hn & Hrun).
  pose proof Hok as ((Hcount & _) & _ & Hcap).
  set (w2 := World _ _ _ _) in Hrun.
  unfold batch_event, batch_event_with in Hrun.
  rewrite decide_True in Hrun by (split; [done|lia]).
  rewrite store_Ok in Hrun by (cbn; lia).
  cbn [mbind outcome_bind g_buffered_count g_data_buffer heap io w2] in Hrun.
  rewrite decide_True in Hrun by lia.
  set (w3 := World _ _ _ _) in Hrun.
  assert (Hok3 : batch_ok (MAX_EVENT_BATCH cfg) w3 (evs ++ [(q, event_bytes cfg e)])).
  { apply (batch_ok_append _ w); try done. lia. }
  pose proof Hok3 as (Hholds3 & _).
  destruct (save_batch_with_flushes header (str " event disimpan ke ") (c_flush e) w3
              (evs ++ [(q, event_bytes cfg e)]) Hopen)
    as (w' & Hflush & Hio & Hfs & Hc & Hl & _); [by destruct evs|done|].
  destruct (batch_ok_flushed _ _ _ _ _ _ _ Hopen Hok3 Hflush) as [Hok' Hheap].
  unfold save_batch_to_file in Hrun. rewrite Hflush in Hrun.
  cbn [mbind outcome_bind] in Hrun.
  assert (Hlen3 : Z.of_nat (length (evs ++ [(q, event_bytes cfg e)])) = n).
  { rewrite length_app. cbn [length]. unfold n. lia. }
  rewrite Hlen3 in Hio, Hfs. fold path in Hio, Hfs.
  exists w'. split; [done|]. split; [done|]. split; [done|]. split; [done|]. split.
  - intros fs. specialize (Hfs fs). by rewrite fmap_app in Hfs.
  - intros p Htmp Hfinal Hpath fs. rewrite Hio. cbn [io w3 w2].
    rewrite !fs_run_app.
    rewrite (fs_run_leaves p [FClose path; _])
      by (constructor; [exact I|]; constructor; [exact I|constructor]).
    rewrite (fs_run_leaves p (FWrite path <$> _))
      by (apply Forall_fmap, Forall_forall; intros c _; cbn; congruence).
    rewrite (fs_run_leaves p [FOpen path true; _])
      by (constructor; [cbn; congruence|]; constructor; [cbn; congruence|constructor]).
    by apply fs_run_leaves, live_ops_leaves.
Qed.

(** A batch filled from empty, and flushed by its last event. *)
Lemma main_loop_full_batch cfg (envs : list cycle_env) (e : cycle_env) (w : world) :
  config_wf cfg -> 0 < sel_chunk_bytes cfg ->
  Forall (completes cfg) (envs ++ [e]) ->
  Z.of_nat (length envs) + 1 = MAX_EVENT_BATCH cfg ->
  f_open (c_flush e) = true ->
  batch_ok (MAX_EVENT_BATCH cfg) w [] ->
  let n := MAX_EVENT_BATCH cfg in
  let path := log_filepath (f_time (c_flush e)) n in
  exists w',
    main_loop cfg (envs ++ [e]) w = Ok (w', false)
    /\ g_buffered_count w' = 0
    /\ heap w' = ∅
    /\ batch_ok (MAX_EVENT_BATCH cfg) w' []
    /\ (forall fs, fs_run fs (io w') !! path
                   = Some (header (f_time (c_flush e)) n
                           ++ concat (event_bytes cfg <$> envs ++ [e])))
    /\ (forall p, p ≠ live_filepath_tmp -> p ≠ live_filepath_final -> p ≠ path ->
        forall fs, fs_run fs (io w') !! p = fs_run fs (io w) !! p).
Proof.
  intros Hwf Hcb Hall Hfull Hopen Hok0 n path.
  apply Forall_app in Hall as [Hall He]. apply Forall_cons in He as [He _].
  destruct (main_loop_collects cfg envs Hwf Hcb w [] Hall Hok0)
    as (w1 & new & Hrun1 & Hok1 & Hnew & Hio1).
  { cbn [length]. lia. }
  cbn [app] in Hok1.
  assert (Hlen : length new = length envs).
  { by rewrite <- (length_fmap snd new), Hnew, length_fmap. }
  destruct (cycle_fills_and_flushes cfg e w1 new Hwf Hcb He Hopen Hok1)
    as (w' & Hrun & Hc & Hheap & Hok' & Hfs & Hio); [lia|].
  exists w'. split; [|split; [done|split; [done|split; [done|split]]]].
  - rewrite (main_loop_app_running _ _ _ _ _ Hrun1). cbn [main_loop].
    by rewrite Hrun.
  - intros fs. unfold path, n. by rewrite (Hfs fs), Hnew, fmap_app.
  - intros p Htmp Hfinal Hpath fs.
    by rewrite (Hio p Htmp Hfinal Hpath fs), (Hio1 p Htmp Hfinal fs).
Qed.

(** X3. In [src/cadgetdata.c] the event that brings the batch to its
    capacity sets off the flush at once: after [MAX_EVENT_BATCH] completed
    events, with the log file opening, the batch is empty again, every
    event block is freed, and the log file holds the header for
    [MAX_EVENT_BATCH] events followed by the bytes of all the events in
    the order in which they were acquired; its header reads back as that
    count. *)
Theorem full_batch_reaches_log cfg (envs : list cycle_env) (e : cycle_env) :
  config_wf cfg -> 0 < sel_chunk_bytes cfg ->
  Forall (completes cfg) (envs ++ [e]) ->
  Z.of_nat (length envs) + 1 = MAX_EVENT_BATCH cfg ->
  MAX_EVENT_BATCH cfg < 2 ^ 31 ->
  f_open (c_flush e) = true ->
  let n := MAX_EVENT_BATCH cfg in
  let path := log_filepath (f_time (c_flush e)) n in
  let hdr := header (f_time (c_flush e)) n in
  let payload := concat (event_bytes cfg <$> envs ++ [e]) in
  exists w',
    main_loop cfg (envs ++ [e]) (world0 cfg) = Ok (w', false)
    /\ g_buffered_count w' = 0
    /\ heap w' = ∅
    /\ (forall fs, fs_run fs (io w') !! path = Some (hdr ++ payload))
    /\ read_log (hdr ++ payload) = Some (n, payload).
Proof.
  intros Hwf Hcb Hall Hfull Hint Hopen n path hdr payload.
  destruct (main_loop_full_batch cfg envs e (world0 cfg) Hwf Hcb Hall Hfull Hopen)
    as (w' & Hrun & Hc & Hheap & _ & Hfs & _).
  { apply world0_batch_ok. lia. }
  exists w'. split; [done|]. split; [done|]. split; [done|]. split; [exact Hfs|].
  apply read_log_header. unfold n. lia.
Qed.

Lemma two_slot_config_wf : config_wf two_slot_config.
Proof.
  unfold config_wf. cbn. split; [lia|]. split; [|split; reflexivity].
  repeat constructor; lia.
Qed.

Lemma two_halves_cycle_completes : completes two_slot_config two_halves_cycle.
Proof.
  split; [reflexivity|]. split; [reflexivity|]. split; [reflexivity|].
  exists [scenario_poll false true false], (scenario_poll true true false), [].
  split; [reflexivity|]. split; [repeat constructor|]. split; [by repeat split|].
  split; [reflexivity|]. split; [discriminate|reflexivity].
Qed.

(** A batch of two slots filled by two events of two half buffers each. *)
Lemma full_batch_reaches_log_two_slots :
  exists w',
    main_loop two_slot_config [two_halves_cycle; two_halves_cycle]
      (world0 two_slot_config) = Ok (w', false)
    /\ g_buffered_count w' = 0
    /\ heap w' = ∅
    /\ fs_run ∅ (io w') !! log_filepath (Tm 125 9 30 14 5 7) 2
       = Some (header (Tm 125 9 30 14 5 7) 2
               ++ concat (event_bytes two_slot_config
                            <$> [two_halves_cycle; two_halves_cycle])).
Proof.
  destruct (full_batch_reaches_log two_slot_config [two_halves_cycle] two_halves_cycle
              two_slot_config_wf)
    as (w' & Hrun & Hcount & Hheap & Hfs & _).
  - reflexivity.
  - repeat constructor; apply two_halves_cycle_completes.
  - reflexivity.
  - reflexivity.
  - reflexivity.
  - exists w'. split; [exact Hrun|]. split; [exact Hcount|]. split; [exact Hheap|].
    apply Hfs.
Defined.

(** ** Leaving the program *)

(** X4. [main] of [src/cadgetdata.c] flushes what is left of the batch on
    its way out.  When ESC is pressed while the program waits for a
    trigger, after some completed events that did not fill the batch, the
    process ends with status 0; with no event pending no log file is
    touched; with events pending and the log file opening, the file holds
    the header and all pending events in order and every event block is
    freed; with the log file not opening the process still ends with
    status 0 and the pending events are still in memory, unwritten. *)
Theorem main_exit_flushes_batch cfg (env : main_env) (envs : list cycle_env)
    (last : cycle_env) (rest : list cycle_env) :
  config_wf cfg -> 0 < sel_chunk_bytes cfg ->
  0 <= m_card env -> m_setup_err env = false ->
  m_cycles env = envs ++ last :: rest ->
  Forall (completes cfg) envs ->
  Z.of_nat (length envs) < MAX_EVENT_BATCH cfg -> MAX_EVENT_BATCH cfg < 2 ^ 31 ->
  c_driver_err last = false -> wait_trigger (c_arming last) = Some true ->
  let n := Z.of_nat (length envs) in
  let path := log_filepath (f_time (m_exit_flush env)) n in
  let hdr := header (f_time (m_exit_flush env)) n in
  let payload := concat (event_bytes cfg <$> envs) in
  (envs = [] -> main cfg env = Ok (world0 cfg, 0))
  /\ (envs ≠ [] -> f_open (m_exit_flush env) = true ->
      exists w',
        main cfg env = Ok (w', 0)
        /\ g_buffered_count w' = 0
        /\ heap w' = ∅
        /\ (forall fs, fs_run fs (io w') !! path = Some (hdr ++ payload))
        /\ read_log (hdr ++ payload) = Some (n, payload))
  /\ (envs ≠ [] -> f_open (m_exit_flush env) = false ->
      exists w' evs,
        main cfg env = Ok (w', 0)
        /\ batch_holds w' evs
        /\ evs.*2 = event_bytes cfg <$> envs).
Proof.
  intros Hwf Hcb Hcard Hsetup Hcycles Hall Hroom Hint Herr Harm n path hdr payload.
  destruct (main_loop_collects cfg envs Hwf Hcb (world0 cfg) [] Hall)
    as (w1 & new & Hrun1 & Hok1 & Hnew & _).
  { apply world0_batch_ok. lia. }
  { cbn [length]. lia. }
  cbn [app] in Hok1.
  assert (Hlen : length new = length envs).
  { by rewrite <- (length_fmap snd new), Hnew, length_fmap. }
  assert (Hloop : main_loop cfg (m_cycles env) (world0 cfg) = Ok (w1, true)).
  { rewrite Hcycles, (main_loop_app_running _ _ _ _ _ Hrun1). cbn [main_loop].
    unfold cycle. by rewrite Herr, Harm. }
  assert (Hmain : main cfg env
                  = (w' ← (if decide (g_buffered_count w1 > 0)
                           then save_batch_to_file (m_exit_flush env) w1 else Ok w1);
                     Ok (w', 0))).
  { unfold main. rewrite decide_False by lia. by rewrite Hsetup, Hloop. }
  pose proof Hok1 as (Hholds1 & _). pose proof Hholds1 as (Hcount1 & _).
  split; [|split].
  - intros ->. destruct new; [|done]. injection Hrun1 as <-.
    rewrite Hmain. by rewrite decide_False by (cbn; lia).
  - intros Hne Hopen.
    assert (Hnew_ne : new ≠ []) by (destruct new, envs; done).
    destruct (save_batch_with_flushes header (str " event disimpan ke ") (m_exit_flush env) w1
                new Hopen Hnew_ne Hholds1) as (w' & Hflush & _ & Hfs & Hc & _).
    destruct (batch_ok_flushed _ _ _ _ _ _ _ Hopen Hok1 Hflush) as [_ Hheap].
    exists w'. rewrite Hmain.
    rewrite decide_True by (destruct new; [done|cbn in Hcount1; lia]).
    unfold save_batch_to_file. rewrite Hflush. cbn [mbind outcome_bind].
    split; [done|]. split; [done|]. split; [done|]. split.
    + intros fs. unfold path, hdr, payload, n. rewrite <- Hlen, <- Hnew. apply Hfs.
    + apply read_log_header. unfold n. lia.
  - intros Hne Hopen. exists (emit [FOpen path false;
                                    Printf (str "KRITIS: Gagal membuat file batch log: "
                                            ++ path ++ [NL])] w1), new.
    rewrite Hmain.
    rewrite decide_True by (destruct new, envs; try done; cbn in Hcount1; lia).
    unfold save_batch_to_file, save_batch_with.
    rewrite decide_False by (destruct new, envs; try done; cbn in Hcount1; lia).
    rewrite Hopen, Hcount1, Hlen. cbn [mbind outcome_bind].
    split; [done|]. split; [exact Hholds1|done].
Qed.

(** Two events of the scenario configuration, then ESC while armed. *)
Lemma main_exit_flushes_two_events :
  exists w',
    main scenario_config
      (MainEnv 0 false [two_halves_cycle; two_halves_cycle; esc_while_armed]
         (FlushEnv (Tm 125 9 30 14 5 7) true))
    = Ok (w', 0)
    /\ g_buffered_count w' = 0
    /\ heap w' = ∅.
Proof.
  destruct (proj1 (proj2
              (main_exit_flushes_batch scenario_config
                 (MainEnv 0 false [two_halves_cycle; two_halves_cycle; esc_while_armed]
                    (FlushEnv (Tm 125 9 30 14 5 7) true))
                 [two_halves_cycle; two_halves_cycle] esc_while_armed []
                 scenario_config_wf eq_refl ltac:(done) eq_refl eq_refl
                 ltac:(repeat constructor; apply two_halves_cycle_completes)
                 eq_refl eq_refl eq_refl eq_refl)))
    as (w' & Hrun & Hcount & Hheap & _).
  - discriminate.
  - reflexivity.
  - exists w'. split; [exact Hrun|]. split; [exact Hcount|exact Hheap].
Defined.

(** ** Cancellation during an event *)

(** The key press is looked at after the half buffer has been handled. *)
Lemma drain_turn_esc cfg (live : bool) (p : poll) (st : drain_state) :
  drain_turn cfg live p st
  = (st1 ← drain_turn cfg live (no_esc p) st;
     Ok (if p_esc p then cancelled st1 else st1)).
Proof.
  unfold drain_turn, no_esc, cancelled. cbn [p_halfReady p_fStop p_esc].
  destruct (p_halfReady p); [|done].
  change (drain_half cfg live (Poll true (p_fStop p) (p_ai_buf p) (p_ai_buf2 p)
                                 (p_realloc_ok p) false))
    with (drain_half cfg live p).
  by destruct (drain_half cfg live p _).
Qed.

(** Turns that deliver nothing leave the event as it is. *)
Lemma delivered_nil idx (polls : list poll) :
  delivered idx polls = [] -> Forall (fun p => p_halfReady p = false) polls.
Proof.
  induction polls as [|p polls IH]; intros H; [constructor|].
  cbn [delivered] in H. destruct (p_halfReady p) eqn:Hr; [done|].
  constructor; [done|by apply IH].
Qed.

Lemma drain_nothing_delivered cfg (live : bool) (polls : list poll) : forall st st',
  Forall (fun p => p_halfReady p = false) polls ->
  drain cfg live polls st = Ok st' ->
  d_heap st' = d_heap st /\ current_acq_buffer st' = current_acq_buffer st.
Proof.
  induction polls as [|p polls IH]; intros st st' Hall Hrun; [done|].
  apply Forall_cons in Hall as [Hp Hall]. cbn [drain] in Hrun.
  unfold drain_turn in Hrun. rewrite Hp in Hrun. cbn [mbind outcome_bind] in Hrun.
  destruct (p_esc p); cbn [g_fStop] in Hrun.
  - by injection Hrun as <-.
  - destruct (p_fStop p); [by injection Hrun as <-|].
    by apply IH in Hrun.
Qed.

(** Turns in which nothing goes wrong, then a turn in which ESC is seen. *)
Lemma drain_cancelled cfg (live : bool) (h0 : heap_t) (pre : list poll) (p : poll)
    (st0 : drain_state) :
  config_wf cfg ->
  drain_inv cfg h0 [] st0 -> current_buffer_idx st0 = 0 ->
  Forall (fun p => quiet cfg p /\ p_fStop p = false) pre ->
  poll_wf cfg p -> p_realloc_ok p = true -> p_esc p = true ->
  Z.of_nat (length (delivered 0 (pre ++ [p]))) * sel_chunk_bytes cfg < 2 ^ SIZE_WIDTH ->
  let cs := chunk cfg <$> delivered 0 (pre ++ [p]) in
  exists d,
    (forall rest, drain cfg live (pre ++ p :: rest) st0 = Ok (cancelled d))
    /\ drain_inv cfg h0 (concat cs) d
    /\ d_io d = d_io st0 ++ live_writes live cs.
Proof.
  intros Hwf Hinv0 Hidx Hpre Hp Hok Hesc Hfit cs.
  pose proof (sel_chunk_bytes_nonneg cfg) as Hcb.
  destruct (drain_quiet_prefix cfg live h0 Hwf pre st0 [] Hpre Hinv0)
    as (st1 & Hrun1 & Hinv1 & _ & Hio1 & Hd).
  { rewrite Hidx. cbn [length].
    pose proof (delivered_prefix_length 0 pre [p]). nia. }
  rewrite Hidx in Hd, Hinv1, Hio1. cbn [app] in Hinv1.
  assert (Hq : quiet cfg (no_esc p)) by (by repeat split; try apply Hp).
  assert (Hdp : forall idx, delivered idx [no_esc p] = delivered idx [p]) by done.
  destruct (drain_turn_quiet cfg live h0 Hwf (no_esc p) st1 _ Hq Hinv1)
    as (st2 & Hrun2 & Hinv2 & _ & _ & Hio2 & _).
  { rewrite length_concat_chunks, Hdp by done.
    rewrite Hd, length_app in Hfit. lia. }
  rewrite Hdp in Hinv2, Hio2.
  rewrite <- concat_app, <- fmap_app, <- Hd in Hinv2.
  exists st2. split; [|split].
  - intros rest. rewrite Hrun1. cbn [drain]. rewrite drain_turn_esc, Hrun2, Hesc.
    by cbn [mbind outcome_bind cancelled g_fStop].
  - exact Hinv2.
  - rewrite Hio2, Hio1, <- app_assoc, <- live_writes_app, <- fmap_app, <- Hd. done.
Qed.

(** X5. ESC pressed during an event, in [src/cadgetdata.c], ends the drain
    loop after the turn in which it is seen, and the loop of [main] after
    that cycle; what has been drained until then is kept.  The half buffers
    delivered so far, the one of that turn included, are published as the
    live snapshot and handed to the batch as an event of their own; if none
    had been delivered the batch is left alone and the live file that is
    published is empty. *)
Theorem cancel_keeps_partial_event cfg (e : cycle_env) (w : world)
    (pre : list poll) (p : poll) (rest : list poll) :
  config_wf cfg -> 0 < sel_chunk_bytes cfg ->
  c_driver_err e = false -> wait_trigger (c_arming e) = Some false ->
  c_sel_work_ok e = true ->
  c_polls e = pre ++ p :: rest ->
  Forall (fun p => quiet cfg p /\ p_fStop p = false) pre ->
  poll_wf cfg p -> p_realloc_ok p = true -> p_esc p = true ->
  Z.of_nat (length (delivered 0 (pre ++ [p]))) * sel_chunk_bytes cfg < 2 ^ SIZE_WIDTH ->
  0 <= g_buffered_count w < Z.of_nat (length (g_data_buffer w)) ->
  g_buffered_count w + 1 < MAX_EVENT_BATCH cfg ->
  let halves := delivered 0 (pre ++ [p]) in
  let bytes := concat (chunk cfg <$> halves) in
  exists w',
    cycle cfg e w = Ok (w', true)
    /\ (forall es, main_loop cfg (e :: es) w = Ok (w', true))
    /\ io w' = io w ++ live_ops e (chunk cfg <$> halves)
    /\ (c_live_open e = true -> c_move_ok e = true ->
        forall fs, fs_run fs (io w') !! live_filepath_final = Some bytes)
    /\ (halves = [] ->
        heap w' = heap w /\ g_data_buffer w' = g_data_buffer w
        /\ g_buffered_count w' = g_buffered_count w)
    /\ (halves ≠ [] ->
        exists q,
          heap w !! q = None
          /\ heap w' = <[q := bytes]> (heap w)
          /\ g_data_buffer w'
             = <[Z.to_nat (g_buffered_count w) := Acq (Some q) (Z.of_nat (length bytes))]>
                 (g_data_buffer w)
          /\ g_buffered_count w' = g_buffered_count w + 1).
Proof.
  intros Hwf Hcb Herr Harm Hsel Hpolls Hpre Hp Hok Hesc Hfit Hcount Hroom halves bytes.
  set (st0 := {| d_heap := heap w; current_acq_buffer := None; current_acq_size := 0;
                 sel_work := replicate (Z.to_nat (sel_chunk_bytes cfg / 2)) 0;
                 current_buffer_idx := 0; g_fStop := false; exit_now := false;
                 d_io := io w ++ [FOpen live_filepath_tmp (c_live_open e)] |}).
  assert (Hinv0 : drain_inv cfg (heap w) [] st0) by exact (drain_entry_inv cfg w _ Hwf).
  destruct (drain_cancelled cfg (c_live_open e) (heap w) pre p st0 Hwf Hinv0 eq_refl
              Hpre Hp Hok Hesc Hfit) as (d & Hdrain & (_ & _ & Hsize & Hbuf) & Hio).
  fold halves in Hsize, Hbuf, Hio. fold bytes in Hsize, Hbuf.
  assert (Hlen : Z.of_nat (length bytes) = Z.of_nat (length halves) * sel_chunk_bytes cfg)
    by (by apply length_concat_chunks).
  assert (Hcyc : cycle cfg e w
            = (w3 ← batch_event cfg (c_flush e) (current_acq_buffer d) (current_acq_size d)
                      {| heap := d_heap d; g_data_buffer := g_data_buffer w;
                         g_buffered_count := g_buffered_count w;
                         io := io w ++ live_ops e (chunk cfg <$> halves) |};
               Ok (w3, true))).
  { unfold cycle. rewrite Herr, Harm, Hsel, Hpolls. cbn [mbind outcome_bind negb].
    change (drain cfg (c_live_open e) (pre ++ p :: rest) _)
      with (drain cfg (c_live_open e) (pre ++ p :: rest) st0).
    rewrite Hdrain.
    cbn [mbind outcome_bind cancelled exit_now d_heap current_acq_buffer current_acq_size
           d_io emit g_data_buffer g_buffered_count].
    rewrite Hio. cbn [d_io st0]. unfold live_ops. by rewrite <- !app_assoc. }
  assert (Hpub : forall w', io w' = io w ++ live_ops e (chunk cfg <$> halves) ->
            c_live_open e = true -> c_move_ok e = true ->
            forall fs, fs_run fs (io w') !! live_filepath_final = Some bytes).
  { intros w' Hw' Hlive Hmove fs. rewrite Hw', fs_run_app.
    unfold live_ops, live_writes. rewrite Hlive, Hmove. apply fs_run_session. }
  assert (Hloop : forall w', cycle cfg e w = Ok (w', true) ->
            forall es, main_loop cfg (e :: es) w = Ok (w', true)).
  { intros w' Hw' es. cbn [main_loop]. by rewrite Hw'. }
  destruct halves as [|B halves'] eqn:Hhalves.
  - assert (Hnone : d_heap d = heap w /\ current_acq_buffer d = None).
    { pose proof (drain_nothing_delivered cfg (c_live_open e) (pre ++ [p]) st0 _
                    (delivered_nil 0 _ Hhalves) (Hdrain [])) as [Hh Hb].
      by split. }
    destruct Hnone as [Hh Hb]. rewrite Hb, Hh in Hcyc.
    unfold batch_event, batch_event_with in Hcyc.
    rewrite decide_False in Hcyc by (by intros [? _]).
    cbn [mbind outcome_bind] in Hcyc.
    eexists. split; [exact Hcyc|]. split; [by apply Hloop|].
    split; [done|]. split; [by apply Hpub|]. split; [done|]. done.
  - destruct (current_acq_buffer d) as [q|] eqn:Hcur; cycle 1.
    { destruct Hbuf as [Hnil _]. unfold bytes in Hnil, Hlen. rewrite Hnil in Hlen.
      cbn [length] in Hlen. lia. }
    destruct Hbuf as [Hq Hheap].
    assert (Hpos : Z.of_nat (length bytes) > 0) by (cbn [length] in Hlen; nia).
    rewrite Hsize, Hheap in Hcyc.
    rewrite batch_event_append in Hcyc by (done || (cbn; lia)).
    cbn [mbind outcome_bind g_buffered_count g_data_buffer heap io] in Hcyc.
    eexists. split; [exact Hcyc|]. split; [by apply Hloop|].
    split; [done|]. split; [by apply Hpub|]. split; [done|].
    intros _. by exists q.
Qed.

(** ESC in the turn that delivers the first half buffer of an event. *)
Lemma cancel_keeps_first_half :
  exists w',
    main_loop scenario_config [esc_after_first_half; two_halves_cycle]
      (world0 scenario_config) = Ok (w', true)
    /\ g_buffered_count w' = 1
    /\ fs_run ∅ (io w') !! live_filepath_final = Some [20;0; 40;0; 21;0; 41;0].
Proof.
  destruct (cancel_keeps_partial_event scenario_config esc_after_first_half
              (world0 scenario_config) [] (scenario_poll false true true)
              [scenario_poll true true false] scenario_config_wf)
    as (w' & _ & Hloop & _ & Hpub & _ & Hbatch).
  - reflexivity.
  - reflexivity.
  - reflexivity.
  - reflexivity.
  - reflexivity.
  - constructor.
  - by split.
  - reflexivity.
  - reflexivity.
  - reflexivity.
  - by vm_compute.
  - reflexivity.
  - destruct Hbatch as (q & _ & _ & _ & Hcount); [discriminate|].
    exists w'. split; [apply Hloop|]. split; [exact Hcount|].
    exact (Hpub eq_refl eq_refl ∅).
Defined.

(** ** The live snapshot of an event that is given up *)

(** X6. In [src/cadgetdata.c] an event that is given up because [realloc]
    fails is not handed to the batch, but the live file is still closed and
    renamed: the visible snapshot then holds the chunks that were written
    before the failure, an empty file if the failure came with the first
    half buffer, although no such event will appear in a log. *)
Theorem alloc_failure_publishes_partial_snapshot cfg (e : cycle_env) (w : world)
    (pre : list poll) (p : poll) (rest : list poll) :
  config_wf cfg ->
  c_driver_err e = false ->
  wait_trigger (c_arming e) = Some false ->
  c_sel_work_ok e = true ->
  c_polls e = pre ++ p :: rest ->
  Forall (fun p => quiet cfg p /\ p_fStop p = false) pre ->
  poll_wf cfg p -> p_halfReady p = true -> p_realloc_ok p = false ->
  Z.of_nat (length (delivered 0 pre)) * sel_chunk_bytes cfg < 2 ^ SIZE_WIDTH ->
  let cs := chunk cfg <$> delivered 0 pre in
  exists w',
    cycle cfg e w = Ok (w', p_esc p)
    /\ g_buffered_count w' = g_buffered_count w
    /\ g_data_buffer w' = g_data_buffer w
    /\ io w' = io w ++ live_ops e cs
    /\ (c_live_open e = true -> c_move_ok e = true ->
        forall fs, fs_run fs (io w') !! live_filepath_final = Some (concat cs)).
Proof.
  intros Hwf Herr Harm Hsel Hpolls Hpre Hp Hready Hno Hfit cs.
  unfold cycle. rewrite Herr, Harm, Hsel, Hpolls. cbn [mbind outcome_bind negb].
  set (st0 := Drain _ _ _ _ _ _ _ _).
  assert (Hinv0 : drain_inv cfg (heap w) [] st0) by exact (drain_entry_inv cfg w _ Hwf).
  destruct (drain_quiet_prefix cfg (c_live_open e) (heap w) Hwf pre st0 [] Hpre Hinv0)
    as (st1 & Hrun1 & Hinv1 & He1 & Hio1 & _); [cbn; lia|].
  destruct (drain_turn_fail cfg (c_live_open e) (heap w) Hwf p st1 _ Hp Hinv1 Hready Hno)
    as (st2 & Hrun2 & Hh2 & Hc2 & Hs2 & Hstop2 & He2 & Hio2).
  rewrite Hrun1. cbn [drain]. rewrite Hrun2. cbn [mbind outcome_bind].
  rewrite Hstop2. cbn [mbind outcome_bind].
  unfold batch_event, batch_event_with. rewrite Hc2, Hs2.
  rewrite decide_False by (intros [? _]; done).
  cbn [mbind outcome_bind]. rewrite He2, He1, Hio2, Hio1.
  cbn [exit_now d_io st0 current_buffer_idx emit io g_data_buffer g_buffered_count orb].
  fold cs.
  assert (Hops : ((io w ++ [FOpen live_filepath_tmp (c_live_open e)])
                   ++ live_writes (c_live_open e) cs)
                   ++ (if c_live_open e
                       then [FClose live_filepath_tmp;
                             MoveFile live_filepath_tmp live_filepath_final (c_move_ok e)]
                       else [])
                 = io w ++ live_ops e cs).
  { unfold live_ops. by rewrite <- !app_assoc. }
  eexists. split; [reflexivity|]. cbn [g_buffered_count g_data_buffer io].
  split; [done|]. split; [done|]. rewrite Hops. split; [done|].
  intros Hlive Hmove fs. rewrite fs_run_app.
  unfold live_ops, live_writes. rewrite Hlive, Hmove. apply fs_run_session.
Qed.

(** The allocation fails on the second chunk: the first one is what the
    viewer gets to see. *)
Lemma alloc_failure_publishes_first_chunk :
  exists w',
    cycle scenario_config second_chunk_fails (world0 scenario_config) = Ok (w', false)
    /\ g_buffered_count w' = 0
    /\ fs_run ∅ (io w') !! live_filepath_final = Some [20;0; 40;0; 21;0; 41;0].
Proof.
  destruct (alloc_failure_publishes_partial_snapshot scenario_config second_chunk_fails
              (world0 scenario_config) [scenario_poll false true false]
              (scenario_poll false false false) [] scenario_config_wf
              eq_refl eq_refl eq_refl eq_refl)
    as (w' & Hrun & Hcount & _ & _ & Hpub).
  - repeat constructor.
  - by split.
  - reflexivity.
  - reflexivity.
  - reflexivity.
  - exists w'. split; [exact Hrun|]. split; [exact Hcount|].
    exact (Hpub eq_refl eq_refl ∅).
Defined.

(** ** The names of the log files *)

Lemma dec_digits_short fuel : forall n (k : nat),
  (1 <= k)%nat -> 0 <= n < 10 ^ Z.of_nat k -> (length (dec_digits fuel n) <= k)%nat.
Proof.
  induction fuel as [|f IH]; intros n k Hk Hn; [cbn; lia|].
  cbn [dec_digits]. rewrite length_app. cbn [length].
  destruct (n <? 10) eqn:Hlt; [cbn; lia|]. apply Z.ltb_ge in Hlt.
  destruct k as [|[|k]]; [lia|cbn in Hn; lia|].
  assert (length (dec_digits f (n / 10)) <= Datatypes.S k)%nat; [|lia].
  apply IH; [lia|].
  rewrite (Nat2Z.inj_succ (Datatypes.S k)), Z.pow_succ_r in Hn by lia. split.
  - apply Z.div_pos; lia.
  - apply Z.div_lt_upper_bound; lia.
Qed.

(** A number of at most [w] digits is printed by [%0wd] on exactly [w]
    characters, and can be read back from them. *)
Lemma fmt_0d_width (w : nat) z :
  (1 <= w)%nat -> 0 <= z < 10 ^ Z.of_nat w -> length (fmt_0d w z) = w.
Proof.
  intros Hw Hz. unfold fmt_0d.
  destruct (z <? 0) eqn:Hlt; [apply Z.ltb_lt in Hlt; lia|].
  unfold pad0. rewrite length_app, length_replicate.
  pose proof (dec_digits_short 10 z w Hw Hz). lia.
Qed.

Lemma fmt_0d_parse (w : nat) z :
  0 <= z < 10 ^ 10 -> foldl parse_digit (Some 0) (fmt_0d w z) = Some z.
Proof.
  intros Hz. unfold fmt_0d.
  destruct (z <? 0) eqn:Hlt; [apply Z.ltb_lt in Hlt; lia|].
  unfold pad0. rewrite foldl_app.
  assert (Hzeros : forall k, foldl parse_digit (Some 0) (replicate k 48) = Some 0).
  { induction k as [|k IH]; [done|]. cbn [replicate foldl]. exact IH. }
  rewrite Hzeros. by apply (dec_digits_parse 10).
Qed.

Lemma fmt_0d_inj (w : nat) z z' :
  0 <= z < 10 ^ 10 -> 0 <= z' < 10 ^ 10 -> fmt_0d w z = fmt_0d w z' -> z = z'.
Proof.
  intros Hz Hz' Heq. pose proof (fmt_0d_parse w z Hz) as H.
  rewrite Heq, fmt_0d_parse in H by done. congruence.
Qed.

(** The name of a log file, character by character. *)
Lemma log_filepath_spec (t t' : tm) (n n' : Z) :
  tm_wf t -> tm_wf t' -> 0 <= n < 10000 -> 0 <= n' < 10000 ->
  length (log_filepath t n) = 42%nat
  /\ (log_filepath t n = log_filepath t' n' -> t = t' /\ n = n').
Proof.
  intros (Hy & Hmo & Hd & Hh & Hmi & Hs) (Hy' & Hmo' & Hd' & Hh' & Hmi' & Hs') Hn Hn'.
  assert (Hw : forall (t : tm) n,
            0 <= tm_year t + 1900 < 10000 -> 0 <= tm_mon t < 12 -> 1 <= tm_mday t <= 31 ->
            0 <= tm_hour t < 24 -> 0 <= tm_min t < 60 -> 0 <= tm_sec t <= 60 ->
            0 <= n < 10000 ->
            length (fmt_0d 4 (tm_year t + 1900)) = 4%nat
            /\ length (fmt_0d 2 (tm_mon t + 1)) = 2%nat
            /\ length (fmt_0d 2 (tm_mday t)) = 2%nat
            /\ length (fmt_0d 2 (tm_hour t)) = 2%nat
            /\ length (fmt_0d 2 (tm_min t)) = 2%nat
            /\ length (fmt_0d 2 (tm_sec t)) = 2%nat
            /\ length (fmt_0d 4 n) = 4%nat).
  { clear. intros t n ? ? ? ? ? ? ?.
    repeat split; apply fmt_0d_width; try lia;
      change (10 ^ Z.of_nat 4) with 10000; change (10 ^ Z.of_nat 2) with 100; lia. }
  destruct (Hw t n) as (L1 & L2 & L3 & L4 & L5 & L6 & L7); [done..|].
  destruct (Hw t' n') as (L1' & L2' & L3' & L4' & L5' & L6' & L7'); [done..|].
  assert (Hlen : forall (t : tm) n,
            length (fmt_0d 4 (tm_year t + 1900)) = 4%nat ->
            length (fmt_0d 2 (tm_mon t + 1)) = 2%nat ->
            length (fmt_0d 2 (tm_mday t)) = 2%nat ->
            length (fmt_0d 2 (tm_hour t)) = 2%nat ->
            length (fmt_0d 2 (tm_min t)) = 2%nat ->
            length (fmt_0d 2 (tm_sec t)) = 2%nat ->
            length (fmt_0d 4 n) = 4%nat ->
            log_filepath t n
            = LOG_FOLDER ++ str "\batch_log_"
              ++ fmt_0d 4 (tm_year t + 1900) ++ fmt_0d 2 (tm_mon t + 1)
              ++ fmt_0d 2 (tm_mday t)
              ++ str "_" ++ fmt_0d 2 (tm_hour t) ++ fmt_0d 2 (tm_min t)
              ++ fmt_0d 2 (tm_sec t)
              ++ str "_" ++ fmt_0d 4 n ++ str "_evt.bin"
            /\ length (log_filepath t n) = 42%nat).
  { clear. intros t n E1 E2 E3 E4 E5 E6 E7.
    assert (Hl : length (LOG_FOLDER ++ str "\batch_log_"
                   ++ fmt_0d 4 (tm_year t + 1900) ++ fmt_0d 2 (tm_mon t + 1)
                   ++ fmt_0d 2 (tm_mday t)
                   ++ str "_" ++ fmt_0d 2 (tm_hour t) ++ fmt_0d 2 (tm_min t)
                   ++ fmt_0d 2 (tm_sec t)
                   ++ str "_" ++ fmt_0d 4 n ++ str "_evt.bin") = 42%nat).
    { rewrite !length_app, E1, E2, E3, E4, E5, E6, E7. reflexivity. }
    unfold log_filepath, snprintf.
    rewrite take_ge by (rewrite Hl; change (Z.to_nat (MAX_PATH - 1)) with 259%nat; lia).
    by split. }
  destruct (Hlen t n) as [E Hl]; [done..|].
  destruct (Hlen t' n') as [E' _]; [done..|].
  split; [exact Hl|].
  rewrite E, E'. intros Heq.
  apply app_inv_head in Heq. apply app_inv_head in Heq.
  apply app_inj_1 in Heq as [Q1 Heq]; [|congruence].
  apply app_inj_1 in Heq as [Q2 Heq]; [|congruence].
  apply app_inj_1 in Heq as [Q3 Heq]; [|congruence].
  apply app_inv_head in Heq.
  apply app_inj_1 in Heq as [Q4 Heq]; [|congruence].
  apply app_inj_1 in Heq as [Q5 Heq]; [|congruence].
  apply app_inj_1 in Heq as [Q6 Heq]; [|congruence].
  apply app_inv_head in Heq.
  apply app_inj_1 in Heq as [Q7 _]; [|congruence].
  apply fmt_0d_inj in Q1, Q2, Q3, Q4, Q5, Q6, Q7; try lia.
  split; [|done]. destruct t, t'. cbn in *. f_equal; lia.
Qed.

(** X7. The name of a batch log file is never cut short by its buffer of
    [MAX_PATH] characters, and it tells the flushes apart by the second and
    by the event count: two flushes get the same name only if their clocks
    read the same second and their batches hold the same number of
    events. *)
Theorem log_filepath_injective (t t' : tm) (n n' : Z) :
  tm_wf t -> tm_wf t' -> 0 <= n < 10000 -> 0 <= n' < 10000 ->
  length (log_filepath t n) = 42%nat
  /\ (log_filepath t n = log_filepath t' n' -> t = t' /\ n = n').
Proof. apply log_filepath_spec. Qed.

(** Two flushes one second apart. *)
Lemma log_filepath_next_second :
  log_filepath (Tm 125 9 30 14 5 7) 1000 ≠ log_filepath (Tm 125 9 30 14 5 8) 1000.
Proof.
  intros Heq.
  destruct (log_filepath_injective (Tm 125 9 30 14 5 7) (Tm 125 9 30 14 5 8) 1000 1000)
    as [_ Hinj].
  - unfold tm_wf. cbn. lia.
  - unfold tm_wf. cbn. lia.
  - lia.
  - lia.
  - destruct (Hinj Heq) as [Ht _]. discriminate.
Defined.

(** ** The older program: what [ori.c] accumulates *)

Lemma ori_chunk_size_eq : Ori.chunk_size = 2 * (Ori.BUFFER_SAMPLES * Ori.CHANNEL_COUNT).
Proof. reflexivity. Qed.

Lemma ori_chunk_size_bounds : 0 < Ori.chunk_size < 2 ^ SIZE_WIDTH.
Proof. split; reflexivity. Qed.

Lemma ori_chunk_length (B : list Z) :
  Z.of_nat (length B) = Ori.BUFFER_SAMPLES * Ori.CHANNEL_COUNT ->
  Z.of_nat (length (bytes_of_u16s B)) = Ori.chunk_size.
Proof.
  intros HB. rewrite length_bytes_of_u16s, ori_chunk_size_eq, <- HB. lia.
Qed.

Lemma length_concat_halves (ds : list (list Z)) :
  Forall (fun B => Z.of_nat (length B) = Ori.BUFFER_SAMPLES * Ori.CHANNEL_COUNT) ds ->
  Z.of_nat (length (concat (bytes_of_u16s <$> ds)))
  = Z.of_nat (length ds) * Ori.chunk_size.
Proof.
  induction 1 as [|B ds HB _ IH]; [done|].
  cbn [fmap list_fmap concat length].
  rewrite length_app, Nat2Z.inj_add, IH, (ori_chunk_length B HB). lia.
Qed.

Section OriDrainHalf.
Variable h0 : heap_t.
Variable p : poll.
Variable st : drain_state.
Variable acc : list Z.

Hypothesis p_wf : ori_poll_wf p.
Hypothesis st_inv : ori_drain_inv h0 acc st.

Local Abbreviation source_buffer :=
  (if decide (current_buffer_idx st = 0) then p_ai_buf p else p_ai_buf2 p).

(** The half buffer is appended when [realloc] finds the memory. *)
Lemma ori_drain_half_grow :
  p_realloc_ok p = true ->
  Z.of_nat (length acc) + Ori.chunk_size < 2 ^ SIZE_WIDTH ->
  exists q,
    h0 !! q = None /\
    Ori.drain_half p st
    = Ok ({| d_heap := <[q := acc ++ bytes_of_u16s source_buffer]> h0;
             current_acq_buffer := Some q;
             current_acq_size := current_acq_size st + Ori.chunk_size;
             sel_work := sel_work st;
             current_buffer_idx := 1 - current_buffer_idx st;
             g_fStop := g_fStop st; exit_now := exit_now st;
             d_io := d_io st ++ [FWrite live_filepath_tmp (bytes_of_u16s source_buffer)] |},
          false).
Proof.
  intros Hok Hfit.
  assert (Hcl : Z.of_nat (length (bytes_of_u16s source_buffer)) = Ori.chunk_size).
  { apply ori_chunk_length. destruct p_wf. by case_decide. }
  pose proof ori_chunk_size_bounds as Hcb.
  destruct st_inv as (Hidx & Hsize & Hbuf).
  set (q := fresh (dom h0)).
  assert (Hq : h0 !! q = None) by (apply not_elem_of_dom, is_fresh).
  exists q. split; [done|].
  unfold Ori.drain_half.
  rewrite Hok, Hsize, size_t_small by lia.
  set (sb := source_buffer) in *.
  set (c := bytes_of_u16s sb) in *.
  assert (Hcn : Z.to_nat Ori.chunk_size = length c) by lia.
  assert (Han : Z.to_nat (Z.of_nat (length acc) + Ori.chunk_size)
                = (length acc + length c)%nat) by lia.
  assert (Htc : take (length c) c = c) by (by apply take_ge).
  destruct (current_acq_buffer st) as [p0|] eqn:Hcur.
  - destruct Hbuf as [Hp0 Hheap]. unfold realloc.
    rewrite Hheap, lookup_insert_eq, (delete_insert_id _ _ _ Hp0).
    fold q. rewrite Han. cbn [mbind outcome_bind]. unfold memcpy.
    rewrite lookup_insert_eq.
    rewrite decide_True
      by (rewrite length_take, length_app, length_replicate; lia).
    rewrite insert_insert_eq, Han, Hcn, Nat2Z.id, Htc. cbn [mbind outcome_bind].
    rewrite take_take, Nat.min_l, take_app_length by lia.
    rewrite drop_ge, app_nil_r by (rewrite length_take; lia).
    reflexivity.
  - destruct Hbuf as [-> Hheap]. unfold realloc. rewrite Hheap. fold q.
    cbn [mbind outcome_bind]. unfold memcpy. rewrite lookup_insert_eq.
    cbn [length] in *.
    rewrite length_replicate, decide_True by lia.
    rewrite insert_insert_eq, Hcn, Htc. cbn [mbind outcome_bind].
    rewrite drop_ge by (rewrite length_replicate; lia).
    cbn. by rewrite app_nil_r.
Qed.

(** The event is given up when [realloc] fails, and the loop is left. *)
Lemma ori_drain_half_fail :
  p_realloc_ok p = false ->
  Ori.drain_half p st
  = Ok ({| d_heap := h0; current_acq_buffer := None;
           current_acq_size := current_acq_size st;
           sel_work := sel_work st;
           current_buffer_idx := current_buffer_idx st;
           g_fStop := true; exit_now := exit_now st; d_io := d_io st |}, true).
Proof.
  intros Hno. destruct st_inv as (Hidx & Hsize & Hbuf).
  unfold Ori.drain_half. rewrite Hno.
  destruct (current_acq_buffer st) as [p0|] eqn:Hcur.
  - destruct Hbuf as [Hp0 Hheap]. unfold realloc, free.
    rewrite Hheap, lookup_insert_eq. cbn [mbind outcome_bind].
    rewrite lookup_insert_eq. cbn [mbind outcome_bind].
    by rewrite (delete_insert_id _ _ _ Hp0).
  - destruct Hbuf as [_ Hheap]. unfold realloc, free. cbn [mbind outcome_bind].
    by rewrite Hheap.
Qed.
End OriDrainHalf.

Section OriDrainTurn.
Variable h0 : heap_t.

(** One turn in which nothing goes wrong appends the delivered half
    buffer, if there is one. *)
Lemma ori_drain_turn_quiet p st acc :
  ori_quiet p -> ori_drain_inv h0 acc st ->
  Z.of_nat (length acc)
    + Z.of_nat (length (delivered (current_buffer_idx st) [p])) * Ori.chunk_size
    < 2 ^ SIZE_WIDTH ->
  exists st1,
    Ori.drain_turn p st = Ok (st1, false)
    /\ ori_drain_inv h0
         (acc ++ concat (bytes_of_u16s <$> delivered (current_buffer_idx st) [p])) st1
    /\ g_fStop st1 = p_fStop p
    /\ exit_now st1 = exit_now st
    /\ d_io st1 = d_io st
                  ++ (FWrite live_filepath_tmp
                        <$> (bytes_of_u16s <$> delivered (current_buffer_idx st) [p]))
    /\ current_buffer_idx st1
       = (if p_halfReady p then 1 - current_buffer_idx st else current_buffer_idx st).
Proof.
  intros (Hwf & Hok & Hesc) Hinv Hfit. unfold Ori.drain_turn.
  cbn [delivered] in *. rewrite Hesc.
  destruct (p_halfReady p) eqn:Hready.
  - set (st0 := Drain _ _ _ _ _ (p_fStop p) _ _).
    assert (Hinv0 : ori_drain_inv h0 acc st0) by exact Hinv.
    destruct (ori_drain_half_grow h0 p st0 acc Hwf Hinv0 Hok) as (q & Hq & Hrun).
    { cbn [length] in Hfit. lia. }
    rewrite Hrun. cbn [mbind outcome_bind]. eexists. split; [reflexivity|].
    destruct Hinv as (Hidx & Hsize & _).
    assert (Hcl : Z.of_nat (length (bytes_of_u16s
                     (if decide (current_buffer_idx st = 0) then p_ai_buf p else p_ai_buf2 p)))
                  = Ori.chunk_size).
    { apply ori_chunk_length. destruct Hwf.
      by destruct (decide (current_buffer_idx st = 0)). }
    unfold ori_drain_inv.
    cbn [d_heap current_acq_buffer current_acq_size current_buffer_idx g_fStop exit_now
           d_io st0 fmap list_fmap concat].
    rewrite app_nil_r.
    repeat split; try done; try lia.
    rewrite length_app, Nat2Z.inj_add, Hcl. lia.
  - cbn [mbind outcome_bind]. eexists. split; [reflexivity|].
    unfold ori_drain_inv in *.
    cbn [d_heap current_acq_buffer current_acq_size current_buffer_idx g_fStop exit_now
           d_io fmap list_fmap concat].
    rewrite !app_nil_r.
    repeat split; apply Hinv.
Qed.

(** A turn in which [realloc] fails leaves the loop at once. *)
Lemma ori_drain_turn_fail p st acc :
  ori_poll_wf p -> ori_drain_inv h0 acc st ->
  p_halfReady p = true -> p_realloc_ok p = false ->
  exists st1,
    Ori.drain_turn p st = Ok (st1, true)
    /\ d_heap st1 = h0
    /\ current_acq_buffer st1 = None
    /\ exit_now st1 = exit_now st
    /\ d_io st1 = d_io st.
Proof.
  intros Hwf Hinv Hready Hno. unfold Ori.drain_turn. rewrite Hready.
  set (st0 := Drain _ _ _ _ _ (p_fStop p) _ _).
  assert (Hinv0 : ori_drain_inv h0 acc st0) by exact Hinv.
  rewrite (ori_drain_half_fail h0 p st0 acc Hinv0 Hno).
  cbn [mbind outcome_bind]. eexists. split; [reflexivity|]. by cbn.
Qed.

(** A run of quiet turns that the driver does not stop. *)
Lemma ori_drain_quiet_prefix pre : forall st acc,
  Forall (fun p => ori_quiet p /\ p_fStop p = false) pre ->
  ori_drain_inv h0 acc st ->
  Z.of_nat (length acc)
    + Z.of_nat (length (delivered (current_buffer_idx st) pre)) * Ori.chunk_size
    < 2 ^ SIZE_WIDTH ->
  exists st',
    (forall rest, Ori.drain (pre ++ rest) st = Ori.drain rest st')
    /\ ori_drain_inv h0
         (acc ++ concat (bytes_of_u16s <$> delivered (current_buffer_idx st) pre)) st'
    /\ exit_now st' = exit_now st
    /\ d_io st' = d_io st
                  ++ (FWrite live_filepath_tmp
                        <$> (bytes_of_u16s <$> delivered (current_buffer_idx st) pre))
    /\ (forall rest, delivered (current_buffer_idx st) (pre ++ rest)
                     = delivered (current_buffer_idx st) pre
                       ++ delivered (current_buffer_idx st') rest).
Proof.
  pose proof ori_chunk_size_bounds as Hcb.
  induction pre as [|p pre IH]; intros st acc Hall Hinv Hfit.
  - exists st. cbn. rewrite !app_nil_r.
    split; [done|]. split; [done|]. split; [done|]. split; done.
  - apply Forall_cons in Hall as [[Hq Hstop] Hall].
    set (d1 := delivered (current_buffer_idx st) [p]).
    assert (Hd : forall rest, delivered (current_buffer_idx st) (p :: rest)
               = d1 ++ delivered (if p_halfReady p then 1 - current_buffer_idx st
                                  else current_buffer_idx st) rest).
    { intros rest. unfold d1. cbn [delivered]. destruct (p_halfReady p); reflexivity. }
    rewrite Hd in Hfit. rewrite length_app in Hfit.
    destruct (ori_drain_turn_quiet p st acc Hq Hinv)
      as (st1 & Hrun & Hinv1 & Hs1 & He1 & Hio1 & Hi1).
    { fold d1. nia. }
    fold d1 in Hinv1, Hio1. rewrite <- Hi1 in Hd, Hfit.
    assert (Hwf1 : Forall (fun B => Z.of_nat (length B)
                                    = Ori.BUFFER_SAMPLES * Ori.CHANNEL_COUNT) d1).
    { unfold d1. cbn [delivered]. destruct Hq as [[H1 H2] _].
      destruct (p_halfReady p); [|constructor].
      constructor; [by case_decide|constructor]. }
    destruct (IH st1 _ Hall Hinv1) as (st' & Hrun' & Hinv' & He' & Hio' & Hd').
    { rewrite length_app, Nat2Z.inj_add, length_concat_halves by done. lia. }
    exists st'. split; [|split; [|split; [|split]]].
    + intros rest. cbn [app Ori.drain]. rewrite Hrun. cbn [mbind outcome_bind orb].
      rewrite Hs1, Hstop. apply Hrun'.
    + rewrite Hd, fmap_app, concat_app, app_assoc. exact Hinv'.
    + congruence.
    + by rewrite Hio', Hio1, Hd, !fmap_app, <- app_assoc.
    + intros rest. cbn [app]. rewrite !Hd, Hd', app_assoc. done.
Qed.
End OriDrainTurn.

(** The locals of [ori.c] on entry of the drain loop. *)
Lemma ori_drain_entry_inv (w : world) (ops : list io_op) :
  ori_drain_inv (heap w) []
    {| d_heap := heap w; current_acq_buffer := None; current_acq_size := 0;
       sel_work := []; current_buffer_idx := 0; g_fStop := false; exit_now := false;
       d_io := ops |}.
Proof. unfold ori_drain_inv. cbn. auto. Qed.

Lemma ori_delivered_wf idx (polls : list poll) :
  Forall ori_poll_wf polls ->
  Forall (fun B => Z.of_nat (length B) = Ori.BUFFER_SAMPLES * Ori.CHANNEL_COUNT)
         (delivered idx polls).
Proof.
  intros Hall. revert idx. induction Hall as [|p polls [H1 H2] _ IH]; intros idx.
  - constructor.
  - cbn [delivered]. destruct (p_halfReady p); [|apply IH].
    constructor; [by case_decide|apply IH].
Qed.

(** A cycle of [ori.c] that completes a non-empty event hands the buffer
    of that event over to the batch. *)
Lemma ori_cycle_completes (e : cycle_env) (w : world) :
  ori_completes e ->
  let halves := delivered 0 (event_polls (c_polls e)) in
  exists q,
    heap w !! q = None
    /\ 0 < Z.of_nat (length (ori_event_bytes e))
    /\ Ori.cycle e w
       = (w3 ← batch_event_with Ori.save_batch_to_file Ori.MAX_EVENT_BATCH (c_flush e)
                 (Some q) (Z.of_nat (length (ori_event_bytes e)))
                 {| heap := <[q := ori_event_bytes e]> (heap w);
                    g_data_buffer := g_data_buffer w;
                    g_buffered_count := g_buffered_count w;
                    io := io w ++ live_ops e (bytes_of_u16s <$> halves) |};
          Ok (w3, false)).
Proof.
  intros (Herr & Harm & Hlive & pre & last & rest & Hpolls & Hpre & Hlast & Hstop
          & Hne & Hfit) halves.
  pose proof ori_chunk_size_bounds as Hcb.
  assert (Hev : event_polls (c_polls e) = pre ++ [last]).
  { rewrite Hpolls. apply event_polls_stop; [|done].
    eapply Forall_impl; [exact Hpre|]. by intros p [_ ?]. }
  unfold ori_event_bytes, halves. rewrite Hev. clear halves.
  set (halves := delivered 0 (pre ++ [last])) in *.
  set (st0 := {| d_heap := heap w; current_acq_buffer := None; current_acq_size := 0;
                 sel_work := []; current_buffer_idx := 0; g_fStop := false;
                 exit_now := false;
                 d_io := io w ++ [FOpen live_filepath_tmp (c_live_open e)] |}).
  assert (Hinv0 : ori_drain_inv (heap w) [] st0) by apply ori_drain_entry_inv.
  destruct (ori_drain_quiet_prefix (heap w) pre st0 [] Hpre Hinv0)
    as (st1 & Hrun1 & Hinv1 & He1 & Hio1 & Hd).
  { cbn [length current_buffer_idx st0].
    pose proof (delivered_prefix_length 0 pre [last]) as Hpl. fold halves in Hpl. nia. }
  cbn [current_buffer_idx st0 app] in Hd, Hinv1, Hio1.
  destruct (ori_drain_turn_quiet (heap w) last st1 _ Hlast Hinv1)
    as (st2 & Hrun2 & Hinv2 & Hs2 & He2 & Hio2 & _).
  { assert (Hwf : Forall (fun B => Z.of_nat (length B)
                                   = Ori.BUFFER_SAMPLES * Ori.CHANNEL_COUNT)
                         (delivered 0 pre)).
    { apply ori_delivered_wf. eapply Forall_impl; [exact Hpre|]. by intros p [[? _] _]. }
    rewrite length_concat_halves by done.
    unfold halves in Hfit. rewrite Hd, length_app in Hfit. lia. }
  rewrite <- concat_app, <- fmap_app, <- Hd in Hinv2. fold halves in Hinv2.
  assert (Hio : d_io st2 = d_io st0 ++ (FWrite live_filepath_tmp <$> (bytes_of_u16s <$> halves))).
  { rewrite Hio2, Hio1, <- app_assoc, <- !fmap_app. unfold halves. by rewrite <- Hd. }
  assert (Hwfh : Forall (fun B => Z.of_nat (length B)
                                  = Ori.BUFFER_SAMPLES * Ori.CHANNEL_COUNT) halves).
  { apply ori_delivered_wf, Forall_app. split.
    - eapply Forall_impl; [exact Hpre|]. by intros p [[? _] _].
    - constructor; [apply Hlast|constructor]. }
  assert (Hlen : 0 < Z.of_nat (length (concat (bytes_of_u16s <$> halves)))).
  { rewrite length_concat_halves by done. destruct halves; [done|]. cbn [length]. nia. }
  destruct Hinv2 as (_ & Hsize & Hbuf).
  destruct (current_acq_buffer st2) as [q|] eqn:Hcur; cycle 1.
  { destruct Hbuf as [Hnil _]. rewrite Hnil in Hlen. cbn in Hlen. lia. }
  destruct Hbuf as [Hq Hheap].
  exists q. split; [done|]. split; [done|].
  unfold Ori.cycle. rewrite Herr, Harm, Hpolls. rewrite Hlive at 1. cbn [negb].
  change (Ori.drain (pre ++ last :: rest) _) with (Ori.drain (pre ++ last :: rest) st0).
  rewrite Hrun1. cbn [Ori.drain]. rewrite Hrun2. cbn [mbind outcome_bind orb].
  rewrite Hs2, Hstop. cbn [mbind outcome_bind].
  rewrite Hcur, Hsize, He2, He1, Hheap, Hio.
  cbn [exit_now d_io st0 emit g_data_buffer g_buffered_count].
  unfold live_ops, live_writes. rewrite Hlive. by rewrite <- !app_assoc.
Qed.

(** X8. In [ori.c] an event is made of the half buffers as the card
    delivers them, all channels, nothing selected.  A cycle whose live file
    opens and in which nothing goes wrong ends with the bytes of the
    delivered half buffers, in the order of arrival, in a block of their
    own that takes the next slot of the batch, and with the same bytes
    published as the live snapshot. *)
Theorem ori_event_is_raw_concatenation (e : cycle_env) (w : world) :
  ori_completes e ->
  0 <= g_buffered_count w < Z.of_nat (length (g_data_buffer w)) ->
  g_buffered_count w + 1 < Ori.MAX_EVENT_BATCH ->
  let halves := delivered 0 (event_polls (c_polls e)) in
  let bytes := concat (bytes_of_u16s <$> halves) in
  exists q w',
    heap w !! q = None
    /\ Ori.cycle e w = Ok (w', false)
    /\ heap w' = <[q := bytes]> (heap w)
    /\ g_data_buffer w'
       = <[Z.to_nat (g_buffered_count w) := Acq (Some q) (Z.of_nat (length bytes))]>
           (g_data_buffer w)
    /\ g_buffered_count w' = g_buffered_count w + 1
    /\ io w' = io w ++ live_ops e (bytes_of_u16s <$> halves)
    /\ (c_move_ok e = true ->
        forall fs, fs_run fs (io w') !! live_filepath_final = Some bytes).
Proof.
  intros He Hcount Hroom halves bytes.
  destruct (ori_cycle_completes e w He) as (q & Hq & Hlen & Hrun).
  fold halves in Hrun. change (ori_event_bytes e) with bytes in Hlen, Hrun.
  unfold batch_event_with in Hrun.
  rewrite decide_True in Hrun by (split; [done|lia]).
  cbn [g_data_buffer g_buffered_count] in Hrun.
  rewrite store_Ok in Hrun by lia. cbn [mbind outcome_bind g_buffered_count] in Hrun.
  rewrite decide_False in Hrun by lia. cbn [mbind outcome_bind heap io] in Hrun.
  exists q. eexists. split; [done|]. split; [exact Hrun|].
  cbn [heap g_data_buffer g_buffered_count io].
  split; [done|]. split; [done|]. split; [done|]. split; [done|].
  intros Hmove fs. rewrite fs_run_app.
  destruct He as (_ & _ & Hlive & _).
  unfold live_ops, live_writes. rewrite Hlive, Hmove. apply fs_run_session.
Qed.

Lemma ori_one_half_cycle_completes (flush : bool) :
  ori_completes (one_half_cycle 2 true flush).
Proof.
  unfold ori_completes, one_half_cycle.
  cbn [c_driver_err c_arming c_live_open c_polls].
  split; [reflexivity|]. split; [reflexivity|]. split; [reflexivity|].
  eexists [], _, []. split; [reflexivity|]. split; [constructor|].
  split; [|split; [reflexivity|split]].
  - split; [|split; reflexivity].
    split; cbn [p_ai_buf p_ai_buf2]; exact (zeros_length 2 ltac:(lia)).
  - cbn [app delivered p_halfReady]. discriminate.
  - cbn [app delivered p_halfReady length]. reflexivity.
Qed.

(** One half buffer of zeros in [ori.c]. *)
Lemma ori_event_of_one_half :
  exists w',
    Ori.cycle (one_half_cycle 2 true true) Ori.world0 = Ok (w', false)
    /\ g_buffered_count w' = 1.
Proof.
  destruct (ori_event_is_raw_concatenation (one_half_cycle 2 true true) Ori.world0
              (ori_one_half_cycle_completes true))
    as (q & w' & _ & Hrun & _ & _ & Hcount & _).
  - split; [reflexivity|]. cbn [Ori.world0 g_buffered_count g_data_buffer].
    rewrite length_replicate. reflexivity.
  - reflexivity.
  - exists w'. split; [exact Hrun|exact Hcount].
Defined.

(** X9. When [realloc] fails in [ori.c] the drain loop is left with
    [break]: what the event had accumulated is freed, nothing is added to
    the batch, and the live file is closed and renamed with the half
    buffers written before the failure.  The keyboard is not polled in
    that turn: whatever its state, the cycle ends with [exit_now = 0] and
    the loop of [main] goes on with the next trigger cycle. *)
Theorem ori_alloc_failure_breaks_out (e : cycle_env) (w : world)
    (pre : list poll) (p : poll) (rest : list poll) :
  c_driver_err e = false ->
  wait_trigger (c_arming e) = Some false ->
  c_live_open e = true ->
  c_polls e = pre ++ p :: rest ->
  Forall (fun p => ori_quiet p /\ p_fStop p = false) pre ->
  ori_poll_wf p -> p_halfReady p = true -> p_realloc_ok p = false ->
  Z.of_nat (length (delivered 0 pre)) * Ori.chunk_size < 2 ^ SIZE_WIDTH ->
  let cs := bytes_of_u16s <$> delivered 0 pre in
  exists w',
    Ori.cycle e w = Ok (w', false)
    /\ heap w' = heap w
    /\ g_data_buffer w' = g_data_buffer w
    /\ g_buffered_count w' = g_buffered_count w
    /\ io w' = io w ++ live_ops e cs
    /\ (forall es, Ori.main_loop (e :: es) w = Ori.main_loop es w')
    /\ (c_move_ok e = true ->
        forall fs, fs_run fs (io w') !! live_filepath_final = Some (concat cs)).
Proof.
  intros Herr Harm Hlive Hpolls Hpre Hp Hready Hno Hfit cs.
  set (st0 := {| d_heap := heap w; current_acq_buffer := None; current_acq_size := 0;
                 sel_work := []; current_buffer_idx := 0; g_fStop := false;
                 exit_now := false;
                 d_io := io w ++ [FOpen live_filepath_tmp (c_live_open e)] |}).
  assert (Hinv0 : ori_drain_inv (heap w) [] st0) by apply ori_drain_entry_inv.
  destruct (ori_drain_quiet_prefix (heap w) pre st0 [] Hpre Hinv0)
    as (st1 & Hrun1 & Hinv1 & He1 & Hio1 & _); [cbn; lia|].
  cbn [current_buffer_idx st0 app] in Hinv1, Hio1. fold cs in Hio1.
  destruct (ori_drain_turn_fail (heap w) p st1 _ Hp Hinv1 Hready Hno)
    as (st2 & Hrun2 & Hh2 & Hc2 & He2 & Hio2).
  assert (Hcyc : Ori.cycle e w
            = Ok ({| heap := heap w; g_data_buffer := g_data_buffer w;
                     g_buffered_count := g_buffered_count w;
                     io := io w ++ live_ops e cs |}, false)).
  { unfold Ori.cycle. rewrite Herr, Harm, Hpolls. rewrite Hlive at 1. cbn [negb].
    change (Ori.drain (pre ++ p :: rest) _) with (Ori.drain (pre ++ p :: rest) st0).
    rewrite Hrun1. cbn [Ori.drain]. rewrite Hrun2. cbn [mbind outcome_bind orb].
    unfold batch_event_with. rewrite Hc2.
    rewrite decide_False by (by intros [? _]).
    cbn [mbind outcome_bind]. rewrite He2, He1, Hh2, Hio2, Hio1.
    cbn [exit_now d_io st0 emit g_data_buffer g_buffered_count].
    unfold live_ops, live_writes. rewrite Hlive. by rewrite <- !app_assoc. }
  eexists. split; [exact Hcyc|]. cbn [heap g_data_buffer g_buffered_count io].
  split; [done|]. split; [done|]. split; [done|]. split; [done|]. split.
  - intros es. cbn [Ori.main_loop]. by rewrite Hcyc.
  - intros Hmove fs. rewrite fs_run_app.
    unfold live_ops, live_writes. rewrite Hlive, Hmove. apply fs_run_session.
Qed.

Lemma ori_poll_quiet (stop : bool) : ori_quiet (ori_poll stop true false).
Proof.
  split; [|split; reflexivity].
  split; cbn [ori_poll p_ai_buf p_ai_buf2]; exact (zeros_length 2 ltac:(lia)).
Qed.

(** The second half buffer finds no memory while ESC is pressed. *)
Lemma ori_alloc_failure_with_esc :
  exists w',
    Ori.cycle ori_second_half_fails Ori.world0 = Ok (w', false)
    /\ heap w' = ∅
    /\ g_buffered_count w' = 0.
Proof.
  destruct (ori_alloc_failure_breaks_out ori_second_half_fails Ori.world0
              [ori_poll false true false] (ori_poll false false true) []
              eq_refl eq_refl eq_refl eq_refl)
    as (w' & Hrun & Hheap & _ & Hcount & _).
  - constructor; [|constructor]. split; [apply ori_poll_quiet|reflexivity].
  - apply (ori_poll_quiet false).
  - reflexivity.
  - reflexivity.
  - cbn [delivered ori_poll p_halfReady length]. reflexivity.
  - exists w'. split; [exact Hrun|]. split; [exact Hheap|exact Hcount].
Defined.

(** ** The older program: the batch and its log *)

Lemma ori_main_loop_app (es1 es2 : list cycle_env) (w : world) :
  Ori.main_loop (es1 ++ es2) w
  = ('(w', stop) ← Ori.main_loop es1 w;
     if (stop : bool) then Ok (w', true) else Ori.main_loop es2 w').
Proof.
  revert w. induction es1 as [|e es1 IH]; intros w; [done|].
  cbn [app Ori.main_loop].
  destruct (Ori.cycle e w) as [[w1 [|]]| |tr|tr]; cbn; [done| |done..].
  apply IH.
Qed.

(** Completed events fill the batch of [ori.c] one slot at a time. *)
Lemma ori_main_loop_fills_batch (es : list cycle_env) : forall w : world,
  Forall ori_completes es ->
  0 <= g_buffered_count w ->
  Z.of_nat (length (g_data_buffer w)) = Ori.MAX_EVENT_BATCH ->
  g_buffered_count w + Z.of_nat (length es) < Ori.MAX_EVENT_BATCH ->
  exists w',
    Ori.main_loop es w = Ok (w', false)
    /\ g_buffered_count w' = g_buffered_count w + Z.of_nat (length es)
    /\ length (g_data_buffer w') = length (g_data_buffer w).
Proof.
  induction es as [|e es IH]; intros w Hall Hcount Hlen Hroom.
  - exists w. cbn. split; [done|]. split; [lia|done].
  - apply Forall_cons in Hall as [He Hall]. cbn [length] in Hroom.
    destruct (ori_cycle_completes e w He) as (q & _ & Hn & Hrun).
    unfold batch_event_with in Hrun.
    rewrite decide_True in Hrun by (split; [done|lia]).
    cbn [g_data_buffer g_buffered_count] in Hrun.
    rewrite store_Ok in Hrun by lia. cbn [mbind outcome_bind g_buffered_count] in Hrun.
    rewrite decide_False in Hrun by lia. cbn [mbind outcome_bind] in Hrun.
    set (w1 := World _ _ _ _) in Hrun.
    destruct (IH w1) as (w' & Hrun' & Hc' & Hl'); [done|cbn; lia| |cbn; lia|].
    { cbn. rewrite length_insert. lia. }
    exists w'. split; [|split].
    + cbn [Ori.main_loop]. rewrite Hrun. cbn [mbind outcome_bind]. exact Hrun'.
    + rewrite Hc'. cbn [g_buffered_count w1 length]. lia.
    + rewrite Hl'. cbn. apply length_insert.
Qed.

Lemma ori_world0_batch :
  g_buffered_count Ori.world0 = 0
  /\ Z.of_nat (length (g_data_buffer Ori.world0)) = Ori.MAX_EVENT_BATCH.
Proof.
  unfold Ori.world0. cbn [g_buffered_count g_data_buffer].
  rewrite length_replicate. split; reflexivity.
Qed.

(** X10. The early return of [save_batch_to_file] is in [ori.c] too, with
    the same effect: when the flush set off by the event that fills the
    batch cannot open its file, the batch keeps its [MAX_EVENT_BATCH]
    events, and the next completed event is written behind the last slot of
    [g_data_buffer]. *)
Theorem ori_batch_overflows_after_failed_flush (envs : list cycle_env)
    (last next : cycle_env) :
  Forall ori_completes (envs ++ [last; next]) ->
  Z.of_nat (length envs) + 1 = Ori.MAX_EVENT_BATCH ->
  f_open (c_flush last) = false ->
  (exists w,
     Ori.main_loop (envs ++ [last]) Ori.world0 = Ok (w, false)
     /\ g_buffered_count w = Ori.MAX_EVENT_BATCH
     /\ Z.of_nat (length (g_data_buffer w)) = Ori.MAX_EVENT_BATCH)
  /\ Ori.main_loop (envs ++ [last; next]) Ori.world0 = Undefined.
Proof.
  intros Hall Hlen Hopen.
  apply Forall_app in Hall as [Hall Hln].
  apply Forall_cons in Hln as [Hlast Hln]. apply Forall_cons in Hln as [Hnext _].
  destruct ori_world0_batch as [Hc0 Hl0].
  destruct (ori_main_loop_fills_batch envs Ori.world0 Hall) as (w1 & Hrun1 & Hc1 & Hl1);
    [lia|done|lia|].
  rewrite Hc0 in Hc1.
  (* the event that fills the batch *)
  destruct (ori_cycle_completes last w1 Hlast) as (q & _ & Hn & Hrun2).
  unfold batch_event_with in Hrun2.
  rewrite decide_True in Hrun2 by (split; [done|lia]).
  cbn [g_data_buffer g_buffered_count] in Hrun2.
  rewrite store_Ok in Hrun2 by lia. cbn [mbind outcome_bind g_buffered_count] in Hrun2.
  rewrite decide_True in Hrun2 by lia.
  unfold Ori.save_batch_to_file, save_batch_with in Hrun2.
  cbn [g_buffered_count] in Hrun2.
  rewrite decide_False in Hrun2 by lia. rewrite Hopen in Hrun2.
  cbn [mbind outcome_bind] in Hrun2.
  set (w2 := emit _ _) in Hrun2.
  assert (Hc2 : g_buffered_count w2 = Ori.MAX_EVENT_BATCH) by (cbn; lia).
  assert (Hl2 : Z.of_nat (length (g_data_buffer w2)) = Ori.MAX_EVENT_BATCH).
  { cbn. rewrite length_insert. lia. }
  assert (Hloop2 : Ori.main_loop (envs ++ [last]) Ori.world0 = Ok (w2, false)).
  { rewrite ori_main_loop_app, Hrun1. cbn [mbind outcome_bind Ori.main_loop].
    by rewrite Hrun2. }
  split; [by exists w2|].
  change (envs ++ [last; next]) with (envs ++ [last] ++ [next]).
  rewrite app_assoc, ori_main_loop_app, Hloop2. cbn [mbind outcome_bind Ori.main_loop].
  destruct (ori_cycle_completes next w2 Hnext) as (q' & _ & Hn' & ->).
  unfold batch_event_with. rewrite decide_True by (split; [done|lia]).
  unfold store. cbn [g_data_buffer g_buffered_count].
  fold (g_data_buffer w2). fold (g_buffered_count w2).
  by rewrite decide_False by lia.
Qed.

(** A thousand events of one half buffer each, and one more. *)
Lemma ori_batch_overflows_full_size :
  Ori.main_loop (replicate 999 (one_half_cycle 2 true true)
                 ++ [one_half_cycle 2 true false; one_half_cycle 2 true true])
    Ori.world0 = Undefined.
Proof.
  apply (ori_batch_overflows_after_failed_flush
           (replicate 999 (one_half_cycle 2 true true))
           (one_half_cycle 2 true false) (one_half_cycle 2 true true)).
  - apply Forall_app. split.
    + apply Forall_replicate, ori_one_half_cycle_completes.
    + repeat constructor; apply ori_one_half_cycle_completes.
  - rewrite length_replicate. reflexivity.
  - reflexivity.
Defined.

(** Reading back a header of well-formed lines that declares its event
    count. *)
Lemma read_log_lines (lines : list (list Z)) (n : Z) (payload : list Z) :
  Forall (fun l => l ≠ [] /\ Forall (fun c => c ≠ NL) l) lines ->
  header_field (str "BATCH_EVENT_COUNT:") lines = Some (fmt_d n) ->
  0 <= n < 2 ^ 31 ->
  read_log (((lines ≫= fun l => l ++ [NL]) ++ [NL]) ++ payload) = Some (n, payload).
Proof.
  intros Hwf Hfield Hn. unfold read_log. rewrite <- app_assoc. cbn [app].
  rewrite read_header_spec.
  - cbn [mbind option_bind]. rewrite Hfield. cbn [mbind option_bind].
    by rewrite parse_decimal_fmt_d.
  - exact Hwf.
  - rewrite length_app. pose proof (bind_lines_length lines).
    cbn [length] in *. lia.
Qed.

Lemma ori_header_lines_wf t n :
  Forall (fun l => l ≠ [] /\ Forall (fun c => c ≠ NL) l) (Ori.header_lines t n).
Proof.
  unfold Ori.header_lines, fmt_d, CODE_VERSION, AUTHOR_NAME.
  repeat constructor; try discriminate;
    repeat (apply Forall_app; split);
    try apply fmt_0d_no_newline;
    by apply str_no_newline.
Qed.

Lemma ori_header_untruncated t n :
  Ori.header t n = (Ori.header_lines t n ≫= fun l => l ++ [NL]) ++ [NL].
Proof.
  unfold Ori.header, snprintf. apply take_ge. unfold Ori.header_lines, fmt_d.
  pose proof (fmt_0d_length 4 (tm_year t + 1900)).
  pose proof (fmt_0d_length 2 (tm_mon t + 1)).
  pose proof (fmt_0d_length 2 (tm_mday t)).
  pose proof (fmt_0d_length 2 (tm_hour t)).
  pose proof (fmt_0d_length 2 (tm_min t)).
  pose proof (fmt_0d_length 2 (tm_sec t)).
  pose proof (fmt_0d_length 0 n).
  cbn [mbind list_bind foldr]. rewrite !length_app.
  change (length (str "TEST_DATE:")) with 10%nat.
  change (length (str "-")) with 1%nat.
  change (length (str " ")) with 1%nat.
  change (length (str ":")) with 1%nat.
  change (length (str "CODE_VERSION:")) with 13%nat.
  change (length CODE_VERSION) with 16%nat.
  change (length (str "AUTHOR:")) with 7%nat.
  change (length AUTHOR_NAME) with 15%nat.
  change (length (str "BATCH_EVENT_COUNT:")) with 18%nat.
  cbn [length]. change (Z.to_nat (512 - 1)) with 511%nat. lia.
Qed.

Lemma ori_read_log_header t n (payload : list Z) :
  0 <= n < 2 ^ 31 ->
  read_log (Ori.header t n ++ payload) = Some (n, payload).
Proof.
  intros Hn. rewrite ori_header_untruncated.
  apply read_log_lines; [apply ori_header_lines_wf| |done].
  unfold Ori.header_lines. cbn [header_field].
  change (strip_prefix (str "BATCH_EVENT_COUNT:") (str "TEST_DATE:" ++ _)) with (@None (list Z)).
  change (strip_prefix (str "BATCH_EVENT_COUNT:") (str "CODE_VERSION:" ++ _)) with (@None (list Z)).
  change (strip_prefix (str "BATCH_EVENT_COUNT:") (str "AUTHOR:" ++ _)) with (@None (list Z)).
  cbn match. by rewrite strip_prefix_app.
Qed.

(** X11. The flush of [ori.c] writes the same kind of file with a header
    of four lines: for a batch of N events whose file opens, the header
    followed by the payloads in slot order; reading the header back gives
    N, cutting the rest by the sizes of the events gives the payloads back;
    every event block is freed and the count is zero.  The success message
    names the file. *)
Theorem ori_flush_round_trip (fe : flush_env) (w : world)
    (evs : list (positive * list Z)) :
  f_open fe = true ->
  evs ≠ [] ->
  Z.of_nat (length evs) < 2 ^ 31 ->
  batch_holds w evs ->
  let n := Z.of_nat (length evs) in
  let path := log_filepath (f_time fe) n in
  let hdr := Ori.header (f_time fe) n in
  let payloads := evs.*2 in
  exists w',
    Ori.save_batch_to_file fe w = Ok w'
    /\ io w' = io w ++ [FOpen path true; FWrite path hdr]
                    ++ (FWrite path <$> payloads)
                    ++ [FClose path;
                        Printf (str "Batch " ++ fmt_d n
                                ++ str " event berhasil disimpan ke "
                                ++ path ++ str " (header+data)" ++ [NL])]
    /\ (forall fs, fs_run fs (io w') !! path = Some (hdr ++ concat payloads))
    /\ read_log (hdr ++ concat payloads) = Some (n, concat payloads)
    /\ split_sizes (length <$> payloads) (concat payloads) = payloads
    /\ g_buffered_count w' = 0
    /\ (forall p, p ∈ evs.*1 -> heap w' !! p = None)
    /\ (forall p, p ∉ evs.*1 -> heap w' !! p = heap w !! p).
Proof.
  intros Hopen Hne Hint Hholds n path hdr payloads.
  destruct (save_batch_with_flushes Ori.header (str " event berhasil disimpan ke ")
              fe w evs Hopen Hne Hholds) as (w' & Hrun & Hio & Hfs & Hc & _ & Hheap).
  exists w'. split; [exact Hrun|]. split; [exact Hio|]. split; [exact Hfs|].
  split; [apply ori_read_log_header; lia|].
  split; [apply split_sizes_concat|]. split; [done|].
  split; intros p Hp; rewrite Hheap; [by rewrite decide_True|by rewrite decide_False].
Qed.

(** A flush of two small events by [ori.c]. *)
Lemma ori_flush_round_trip_two_events :
  exists w',
    Ori.save_batch_to_file (FlushEnv (Tm 125 9 30 14 5 7) true) two_event_world = Ok w'
    /\ read_log (Ori.header (Tm 125 9 30 14 5 7) 2 ++ [1; 2; 3; 4; 5])
       = Some (2, [1; 2; 3; 4; 5])
    /\ g_buffered_count w' = 0.
Proof.
  destruct (ori_flush_round_trip (FlushEnv (Tm 125 9 30 14 5 7) true) two_event_world
              [(1%positive, [1; 2; 3]); (2%positive, [4; 5])])
    as (w' & Hrun & _ & _ & Hread & _ & Hcount & _).
  - reflexivity.
  - discriminate.
  - reflexivity.
  - split; [reflexivity|]. split.
    + apply NoDup_cons. split; [|apply NoDup_singleton].
      intros H. apply list_elem_of_singleton in H. discriminate.
    + intros [|[|i]] p bytes H; [| |discriminate];
        injection H as <- <-; split; reflexivity.
  - exists w'. split; [exact Hrun|]. split; [exact Hread|exact Hcount].
Defined.

(** ** The spectral variant: its log *)

Lemma fft_zero_header_lines_wf t n :
  Forall (fun l => l ≠ [] /\ Forall (fun c => c ≠ NL) l) (FftZero.header_lines t n).
Proof.
  unfold FftZero.header_lines, fmt_d, FftZero.CODE_VERSION, AUTHOR_NAME.
  repeat constructor; try discriminate;
    repeat (apply Forall_app; split);
    try apply fmt_0d_no_newline;
    by apply str_no_newline.
Qed.

Lemma fft_zero_header_untruncated t n :
  FftZero.header t n = (FftZero.header_lines t n ≫= fun l => l ++ [NL]) ++ [NL].
Proof.
  unfold FftZero.header, snprintf. apply take_ge. unfold FftZero.header_lines, fmt_d.
  pose proof (fmt_0d_length 4 (tm_year t + 1900)).
  pose proof (fmt_0d_length 2 (tm_mon t + 1)).
  pose proof (fmt_0d_length 2 (tm_mday t)).
  pose proof (fmt_0d_length 2 (tm_hour t)).
  pose proof (fmt_0d_length 2 (tm_min t)).
  pose proof (fmt_0d_length 2 (tm_sec t)).
  pose proof (fmt_0d_length 0 n).
  cbn [mbind list_bind foldr]. rewrite !length_app.
  change (length (str "TEST_DATE:")) with 10%nat.
  change (length (str "-")) with 1%nat.
  change (length (str " ")) with 1%nat.
  change (length (str ":")) with 1%nat.
  change (length (str "CODE_VERSION:")) with 13%nat.
  change (length FftZero.CODE_VERSION) with 26%nat.
  change (length (str "AUTHOR:")) with 7%nat.
  change (length AUTHOR_NAME) with 15%nat.
  change (length (str "BATCH_EVENT_COUNT:")) with 18%nat.
  cbn [length]. change (Z.to_nat (512 - 1)) with 511%nat. lia.
Qed.

Lemma fft_zero_read_log_header t n (payload : list Z) :
  0 <= n < 2 ^ 31 ->
  read_log (FftZero.header t n ++ payload) = Some (n, payload).
Proof.
  intros Hn. rewrite fft_zero_header_untruncated.
  apply read_log_lines; [apply fft_zero_header_lines_wf| |done].
  unfold FftZero.header_lines. cbn [header_field].
  change (strip_prefix (str "BATCH_EVENT_COUNT:") (str "TEST_DATE:" ++ _)) with (@None (list Z)).
  change (strip_prefix (str "BATCH_EVENT_COUNT:") (str "CODE_VERSION:" ++ _)) with (@None (list Z)).
  change (strip_prefix (str "BATCH_EVENT_COUNT:") (str "AUTHOR:" ++ _)) with (@None (list Z)).
  cbn match. by rewrite strip_prefix_app.
Qed.

(** X12. The flush of [fft_zero.c] says nothing.  When the log file cannot
    be opened it returns with the batch as it was and without any message:
    the one failed [fopen] is all that happens.  When the file opens it
    holds the header followed by the payloads in slot order, the header
    reads back as the number of events, every event block is freed and the
    count is zero; again nothing is printed. *)
Theorem fft_zero_flush_is_silent (fe : flush_env) (w : world)
    (evs : list (positive * list Z)) :
  evs ≠ [] ->
  Z.of_nat (length evs) < 2 ^ 31 ->
  batch_holds w evs ->
  let n := Z.of_nat (length evs) in
  let path := log_filepath (f_time fe) n in
  let hdr := FftZero.header (f_time fe) n in
  let payloads := evs.*2 in
  (f_open fe = false ->
   FftZero.save_batch_to_file fe w = Ok (emit [FOpen path false] w))
  /\ (f_open fe = true ->
      exists w',
        FftZero.save_batch_to_file fe w = Ok w'
        /\ io w' = io w ++ [FOpen path true; FWrite path hdr]
                        ++ (FWrite path <$> payloads) ++ [FClose path]
        /\ (forall fs, fs_run fs (io w') !! path = Some (hdr ++ concat payloads))
        /\ read_log (hdr ++ concat payloads) = Some (n, concat payloads)
        /\ g_buffered_count w' = 0
        /\ (forall p, p ∈ evs.*1 -> heap w' !! p = None)
        /\ (forall p, p ∉ evs.*1 -> heap w' !! p = heap w !! p)).
Proof.
  intros Hne Hint Hholds n path hdr payloads.
  pose proof Hholds as (Hcount & _ & _).
  assert (Hn0 : g_buffered_count w ≠ 0) by (destruct evs; [done|cbn in Hcount; lia]).
  unfold FftZero.save_batch_to_file. rewrite decide_False by done.
  rewrite Hcount, Nat2Z.id. fold n path hdr.
  split; intros Hopen; rewrite Hopen; [done|].
  destruct (save_events_loop path w evs Hholds
              (emit [FOpen path true; FWrite path hdr] w) eq_refl eq_refl)
    as (w2 & Hloop & Hio & Hlen & _ & _ & Hheap).
  rewrite Hloop. cbn [mbind outcome_bind]. eexists. split; [reflexivity|].
  cbn [io heap g_data_buffer g_buffered_count emit] in *.
  rewrite Nat2Z.id in *.
  rewrite !firstn_all2 in * by (rewrite ?length_fmap; lia).
  fold payloads in Hio.
  split; [by rewrite Hio, <- !app_assoc|].
  split.
  { intros fs. rewrite Hio, !fs_run_app. cbn [fs_run foldl fs_step].
    rewrite lookup_insert_eq. cbn [app]. rewrite insert_insert_eq.
    fold (fs_run (<[path := hdr]> (fs_run fs (io w))) (FWrite path <$> payloads)).
    by rewrite (fs_run_writes_at path payloads _ hdr) by apply lookup_insert_eq. }
  split; [apply fft_zero_read_log_header; lia|].
  split; [done|].
  split; intros p Hp; rewrite Hheap; [by rewrite decide_True|by rewrite decide_False].
Qed.

(** A batch of two small events whose log file cannot be opened. *)
Lemma fft_zero_flush_fails_silently :
  FftZero.save_batch_to_file (FlushEnv (Tm 125 9 30 14 5 7) false) two_event_world
  = Ok (emit [FOpen (log_filepath (Tm 125 9 30 14 5 7) 2) false] two_event_world).
Proof.
  apply (fft_zero_flush_is_silent (FlushEnv (Tm 125 9 30 14 5 7) false) two_event_world
           [(1%positive, [1; 2; 3]); (2%positive, [4; 5])]).
  - discriminate.
  - reflexivity.
  - split; [reflexivity|]. split.
    + apply NoDup_cons. split; [|apply NoDup_singleton].
      intros H. apply list_elem_of_singleton in H. discriminate.
    + intros [|[|i]] p bytes H; [| |discriminate];
        injection H as <- <-; split; reflexivity.
  - reflexivity.
Defined.

(** ** The spectral variant: the input of the spectral stage *)

(** A sample is read back from its two bytes. *)
Lemma u16_at_bytes (B tail : list Z) (k : nat) (v : Z) :
  B !! k = Some v -> 0 <= v < 65536 ->
  FftZero.u16_at (bytes_of_u16s B ++ tail) (Z.of_nat k) = Ok v.
Proof.
  intros Hk Hv. unfold FftZero.u16_at, bytes_of_u16s.
  assert (Hrow : forall j : nat, (j < 2)%nat ->
            (B ≫= u16_bytes) !! (k * 2 + j)%nat = u16_bytes v !! j).
  { intros j Hj. rewrite (lookup_bind_rows u16_bytes B 2 k j); [by rewrite Hk|done|done]. }
  assert (Hlo : ((B ≫= u16_bytes) ++ tail) !! (k * 2 + 0)%nat = Some (v mod 256)).
  { rewrite lookup_app_l; [by rewrite Hrow by lia|].
    apply lookup_lt_is_Some. rewrite Hrow by lia. by eexists. }
  assert (Hhi : ((B ≫= u16_bytes) ++ tail) !! (k * 2 + 1)%nat = Some ((v / 256) mod 256)).
  { rewrite lookup_app_l; [by rewrite Hrow by lia|].
    apply lookup_lt_is_Some. rewrite Hrow by lia. by eexists. }
  replace (2 * Z.of_nat k) with (Z.of_nat (k * 2 + 0)) by lia.
  rewrite (load_Ok _ _ _ Hlo). cbn [mbind outcome_bind].
  replace (Z.of_nat (k * 2 + 0) + 1) with (Z.of_nat (k * 2 + 1)) by lia.
  rewrite (load_Ok _ _ _ Hhi). cbn [mbind outcome_bind]. f_equal.
  rewrite (Z.mod_small (v / 256)) by (split; [apply Z.div_pos; lia|apply Z.div_lt_upper_bound; lia]).
  pose proof (Z.div_mod v 256). lia.
Qed.

Lemma channel_of_lookup (c : Z) (B : list Z) (i : nat) :
  Z.of_nat i < FftZero.BUFFER_SAMPLES ->
  channel_of c B !! i
  = Some (default 0 (B !! Z.to_nat (Z.of_nat i * FftZero.CHANNEL_COUNT + c))).
Proof.
  intros Hi. unfold channel_of. rewrite list_lookup_fmap.
  rewrite (lookup_seqZ_lt 0 FftZero.BUFFER_SAMPLES i) by lia. cbn.
  by replace (0 + Z.of_nat i) with (Z.of_nat i) by lia.
Qed.

Lemma channel_of_length (c : Z) (B : list Z) :
  length (channel_of c B) = Z.to_nat FftZero.BUFFER_SAMPLES.
Proof. unfold channel_of. by rewrite length_fmap, length_seqZ. Qed.

(** X13. In [fft_zero.c] the spectral stage is fed from the first half
    buffer of the event only: whatever the length of the event, the loop
    that fills [ch0] and [ch1] reads the [BUFFER_SAMPLES] scans at its
    front, without leaving the event buffer, and gives the samples of
    channel 0 and of channel 1 of that half buffer.  The two [malloc]s are
    not checked: if one of them fails the loop writes through a null
    pointer. *)
Theorem split_channels_first_half (B tail : list Z) :
  Z.of_nat (length B) = FftZero.BUFFER_SAMPLES * FftZero.CHANNEL_COUNT ->
  Forall (fun v => 0 <= v < 65536) B ->
  FftZero.split_channels (bytes_of_u16s B ++ tail) true true
  = Ok (Some (channel_of 0 B), Some (channel_of 1 B))
  /\ (forall ok0 ok1, (ok0 && ok1)%bool = false ->
        FftZero.split_channels (bytes_of_u16s B ++ tail) ok0 ok1 = Undefined).
Proof.
  intros HB Hrange.
  assert (Hsample : forall k : nat, Z.of_nat k < FftZero.BUFFER_SAMPLES * FftZero.CHANNEL_COUNT ->
            exists v, B !! k = Some v
                      /\ FftZero.u16_at (bytes_of_u16s B ++ tail) (Z.of_nat k) = Ok v).
  { intros k Hk. destruct (lookup_lt_is_Some_2 B k) as [v Hv]; [lia|].
    exists v. split; [done|]. apply u16_at_bytes; [done|].
    by eapply (proj1 (Forall_lookup _ _) Hrange). }
  assert (HN : 0 < FftZero.BUFFER_SAMPLES) by reflexivity.
  assert (HC : FftZero.CHANNEL_COUNT = 2) by reflexivity.
  split.
  - unfold FftZero.split_channels.
    set (src := bytes_of_u16s B ++ tail) in *.
    pose (P := fun (i : Z) (st : option (list Z) * option (list Z)) =>
                 exists l0 l1, st = (Some l0, Some l1)
                   /\ length l0 = Z.to_nat FftZero.BUFFER_SAMPLES
                   /\ length l1 = Z.to_nat FftZero.BUFFER_SAMPLES
                   /\ forall j : nat, Z.of_nat j < i ->
                        l0 !! j = channel_of 0 B !! j /\ l1 !! j = channel_of 1 B !! j).
    destruct (for_range_inv P (FftZero.split_step src) (Z.to_nat FftZero.BUFFER_SAMPLES) 0
                (Some (replicate (Z.to_nat FftZero.BUFFER_SAMPLES) 0),
                 Some (replicate (Z.to_nat FftZero.BUFFER_SAMPLES) 0)))
      as (st' & Hrun & l0 & l1 & -> & Hl0 & Hl1 & Hfill).
    + exists (replicate (Z.to_nat FftZero.BUFFER_SAMPLES) 0),
             (replicate (Z.to_nat FftZero.BUFFER_SAMPLES) 0).
      split; [done|]. rewrite !length_replicate. split; [done|]. split; [done|].
      intros j Hj. lia.
    + intros i st Hi (l0 & l1 & -> & Hl0 & Hl1 & Hfill).
      remember (Z.to_nat i) as k eqn:Hk.
      assert (Hik : i = Z.of_nat k) by lia. clear Hk. subst i.
      unfold FftZero.split_step.
      destruct (Hsample (k * 2 + 0)%nat) as (a & Ha & Hra); [lia|].
      destruct (Hsample (k * 2 + 1)%nat) as (b & Hb & Hrb); [lia|].
      replace (Z.of_nat k * FftZero.CHANNEL_COUNT + 0) with (Z.of_nat (k * 2 + 0)) by lia.
      replace (Z.of_nat k * FftZero.CHANNEL_COUNT + 1) with (Z.of_nat (k * 2 + 1)) by lia.
      rewrite Hra. cbn [mbind outcome_bind].
      rewrite store_Ok by lia. cbn [mbind outcome_bind].
      rewrite Hrb. cbn [mbind outcome_bind].
      rewrite store_Ok by lia. cbn [mbind outcome_bind].
      eexists. split; [reflexivity|]. eexists _, _. split; [reflexivity|].
      rewrite !length_insert, Nat2Z.id. split; [done|]. split; [done|].
      intros j Hj. destruct (decide (j = k)) as [->|Hne].
      * rewrite !list_lookup_insert_eq by lia.
        rewrite !channel_of_lookup by lia.
        replace (Z.to_nat (Z.of_nat k * FftZero.CHANNEL_COUNT + 0)) with (k * 2 + 0)%nat by lia.
        replace (Z.to_nat (Z.of_nat k * FftZero.CHANNEL_COUNT + 1)) with (k * 2 + 1)%nat by lia.
        by rewrite Ha, Hb.
      * rewrite !list_lookup_insert_ne by lia. apply Hfill. lia.
    + rewrite Hrun. do 3 f_equal.
      * apply list_eq_same_length with (Z.to_nat FftZero.BUFFER_SAMPLES);
          [apply channel_of_length|done|].
        intros j x y Hj Hx Hy. destruct (Hfill j) as [H0 _]; [lia|]. congruence.
      * apply list_eq_same_length with (Z.to_nat FftZero.BUFFER_SAMPLES);
          [apply channel_of_length|done|].
        intros j x y Hj Hx Hy. destruct (Hfill j) as [_ H1]; [lia|]. congruence.
  - intros ok0 ok1 Hok. unfold FftZero.split_channels.
    replace (Z.to_nat FftZero.BUFFER_SAMPLES)
      with (Datatypes.S (Z.to_nat (FftZero.BUFFER_SAMPLES - 1))) at 1 by lia.
    cbn [for_range].
    destruct (Hsample 0%nat) as (a & Ha & Hra); [lia|].
    destruct (Hsample 1%nat) as (b & Hb & Hrb); [lia|].
    assert (Hfirst : FftZero.split_step (bytes_of_u16s B ++ tail) 0
                       (if ok0 then Some (replicate (Z.to_nat FftZero.BUFFER_SAMPLES) 0)
                        else None,
                        if ok1 then Some (replicate (Z.to_nat FftZero.BUFFER_SAMPLES) 0)
                        else None) = Undefined).
    { unfold FftZero.split_step.
      change (0 * FftZero.CHANNEL_COUNT + 0) with (Z.of_nat 0).
      change (0 * FftZero.CHANNEL_COUNT + 1) with (Z.of_nat 1).
      rewrite Hra. cbn [mbind outcome_bind].
      destruct ok0; [|done].
      rewrite store_Ok by (rewrite length_replicate; lia). cbn [mbind outcome_bind].
      rewrite Hrb. cbn [mbind outcome_bind].
      by destruct ok1. }
    by rewrite Hfirst.
Qed.

(** An event of one half buffer of zeros, the first [malloc] failing. *)
Lemma split_channels_of_zeros :
  FftZero.split_channels (bytes_of_u16s (replicate (Z.to_nat (8192 * 2)) 0) ++ [])
    false true = Undefined.
Proof.
  apply (split_channels_first_half (replicate (Z.to_nat (8192 * 2)) 0) []).
  - exact (zeros_length 2 ltac:(lia)).
  - apply Forall_replicate. lia.
  - reflexivity.
Defined.

(** ** Two flushes in one second *)

(** X14. The name of a log file does not tell two full batches apart when
    both are flushed while the clock reads the same second: the second
    flush opens the file of the first and writes over it.  After two full
    batches of [src/cadgetdata.c] flushed in one second the file holds the
    header and the events of the second batch only, while the blocks of all
    the events, those of the first batch included, have been freed. *)
Theorem same_second_batches_share_a_file cfg (envs1 envs2 : list cycle_env)
    (e1 e2 : cycle_env) :
  config_wf cfg -> 0 < sel_chunk_bytes cfg ->
  Forall (completes cfg) (envs1 ++ [e1]) ->
  Forall (completes cfg) (envs2 ++ [e2]) ->
  Z.of_nat (length envs1) + 1 = MAX_EVENT_BATCH cfg ->
  Z.of_nat (length envs2) + 1 = MAX_EVENT_BATCH cfg ->
  f_open (c_flush e1) = true -> f_open (c_flush e2) = true ->
  f_time (c_flush e1) = f_time (c_flush e2) ->
  let n := MAX_EVENT_BATCH cfg in
  let path := log_filepath (f_time (c_flush e2)) n in
  exists w1 w2,
    main_loop cfg (envs1 ++ [e1]) (world0 cfg) = Ok (w1, false)
    /\ (forall fs, fs_run fs (io w1) !! path
                   = Some (header (f_time (c_flush e2)) n
                           ++ concat (event_bytes cfg <$> envs1 ++ [e1])))
    /\ main_loop cfg ((envs1 ++ [e1]) ++ envs2 ++ [e2]) (world0 cfg) = Ok (w2, false)
    /\ (forall fs, fs_run fs (io w2) !! path
                   = Some (header (f_time (c_flush e2)) n
                           ++ concat (event_bytes cfg <$> envs2 ++ [e2])))
    /\ heap w2 = ∅
    /\ g_buffered_count w2 = 0.
Proof.
  intros Hwf Hcb Hall1 Hall2 Hlen1 Hlen2 Hopen1 Hopen2 Htime n path.
  destruct (main_loop_full_batch cfg envs1 e1 (world0 cfg) Hwf Hcb Hall1 Hlen1 Hopen1)
    as (w1 & Hrun1 & _ & _ & Hok1 & Hfs1 & _).
  { apply world0_batch_ok. lia. }
  destruct (main_loop_full_batch cfg envs2 e2 w1 Hwf Hcb Hall2 Hlen2 Hopen2 Hok1)
    as (w2 & Hrun2 & Hc2 & Hheap2 & _ & Hfs2 & _).
  exists w1, w2. split; [done|]. split.
  { intros fs. unfold path, n. rewrite <- Htime. apply Hfs1. }
  split; [by rewrite (main_loop_app_running _ _ _ _ _ Hrun1)|].
  split; [exact Hfs2|]. by split.
Qed.

(** Two batches of two events each, all flushed at 14:05:07. *)
Lemma same_second_batches_of_two :
  exists w2,
    main_loop two_slot_config
      [two_halves_cycle; two_halves_cycle; two_halves_cycle; two_halves_cycle]
      (world0 two_slot_config) = Ok (w2, false)
    /\ fs_run ∅ (io w2) !! log_filepath (Tm 125 9 30 14 5 7) 2
       = Some (header (Tm 125 9 30 14 5 7) 2
               ++ concat (event_bytes two_slot_config
                            <$> [two_halves_cycle; two_halves_cycle])).
Proof.
  destruct (same_second_batches_share_a_file two_slot_config
              [two_halves_cycle] [two_halves_cycle] two_halves_cycle two_halves_cycle
              two_slot_config_wf)
    as (w1 & w2 & _ & _ & Hrun & Hfs & _).
  - reflexivity.
  - repeat constructor; apply two_halves_cycle_completes.
  - repeat constructor; apply two_halves_cycle_completes.
  - reflexivity.
  - reflexivity.
  - reflexivity.
  - reflexivity.
  - reflexivity.
  - exists w2. split; [exact Hrun|apply Hfs].
Defined.

(** X15. Two full batches of [src/cadgetdata.c] that are flushed while the
    clock reads different seconds go to different files, and the second
    flush, like everything else the program does in between, leaves the
    file of the first alone: at the end each file holds the header and the
    events of its own batch, in the order in which they were acquired. *)
Theorem different_second_batches_are_kept cfg (envs1 envs2 : list cycle_env)
    (e1 e2 : cycle_env) :
  config_wf cfg -> 0 < sel_chunk_bytes cfg ->
  Forall (completes cfg) (envs1 ++ [e1]) ->
  Forall (completes cfg) (envs2 ++ [e2]) ->
  Z.of_nat (length envs1) + 1 = MAX_EVENT_BATCH cfg ->
  Z.of_nat (length envs2) + 1 = MAX_EVENT_BATCH cfg ->
  MAX_EVENT_BATCH cfg < 10000 ->
  f_open (c_flush e1) = true -> f_open (c_flush e2) = true ->
  tm_wf (f_time (c_flush e1)) -> tm_wf (f_time (c_flush e2)) ->
  f_time (c_flush e1) ≠ f_time (c_flush e2) ->
  let n := MAX_EVENT_BATCH cfg in
  let path1 := log_filepath (f_time (c_flush e1)) n in
  let path2 := log_filepath (f_time (c_flush e2)) n in
  exists w2,
    main_loop cfg ((envs1 ++ [e1]) ++ envs2 ++ [e2]) (world0 cfg) = Ok (w2, false)
    /\ path1 ≠ path2
    /\ forall fs,
         fs_run fs (io w2) !! path1
         = Some (header (f_time (c_flush e1)) n
                 ++ concat (event_bytes cfg <$> envs1 ++ [e1]))
         /\ fs_run fs (io w2) !! path2
            = Some (header (f_time (c_flush e2)) n
                    ++ concat (event_bytes cfg <$> envs2 ++ [e2])).
Proof.
  intros Hwf Hcb Hall1 Hall2 Hlen1 Hlen2 Hmax Hopen1 Hopen2 Ht1 Ht2 Hne n path1 path2.
  destruct (main_loop_full_batch cfg envs1 e1 (world0 cfg) Hwf Hcb Hall1 Hlen1 Hopen1)
    as (w1 & Hrun1 & _ & _ & Hok1 & Hfs1 & _).
  { apply world0_batch_ok. lia. }
  destruct (main_loop_full_batch cfg envs2 e2 w1 Hwf Hcb Hall2 Hlen2 Hopen2 Hok1)
    as (w2 & Hrun2 & _ & _ & _ & Hfs2 & Hio2).
  assert (Hpaths : path1 ≠ path2).
  { intros Heq.
    destruct (log_filepath_spec (f_time (c_flush e1)) (f_time (c_flush e2)) n n Ht1 Ht2)
      as [_ Hinj]; [unfold n; lia..|].
    by destruct (Hinj Heq). }
  exists w2. split; [by rewrite (main_loop_app_running _ _ _ _ _ Hrun1)|].
  split; [done|]. intros fs. split; [|apply Hfs2].
  rewrite (Hio2 path1); [apply Hfs1|apply log_ne_tmp|apply log_ne_final|done].
Qed.

Lemma two_halves_cycle_at_completes (sec : Z) :
  completes two_slot_config (two_halves_cycle_at sec).
Proof.
  split; [reflexivity|]. split; [reflexivity|]. split; [reflexivity|].
  exists [scenario_poll false true false], (scenario_poll true true false), [].
  split; [reflexivity|]. split; [repeat constructor|]. split; [by repeat split|].
  split; [reflexivity|]. split; [discriminate|reflexivity].
Qed.

(** Two batches of two events each, flushed at 14:05:07 and at 14:05:08. *)
Lemma different_second_batches_of_two :
  exists w2,
    main_loop two_slot_config
      [two_halves_cycle_at 7; two_halves_cycle_at 7;
       two_halves_cycle_at 8; two_halves_cycle_at 8]
      (world0 two_slot_config) = Ok (w2, false)
    /\ fs_run ∅ (io w2) !! log_filepath (Tm 125 9 30 14 5 7) 2
       = Some (header (Tm 125 9 30 14 5 7) 2
               ++ concat (event_bytes two_slot_config
                            <$> [two_halves_cycle_at 7; two_halves_cycle_at 7]))
    /\ fs_run ∅ (io w2) !! log_filepath (Tm 125 9 30 14 5 8) 2
       = Some (header (Tm 125 9 30 14 5 8) 2
               ++ concat (event_bytes two_slot_config
                            <$> [two_halves_cycle_at 8; two_halves_cycle_at 8])).
Proof.
  destruct (different_second_batches_are_kept two_slot_config
              [two_halves_cycle_at 7] [two_halves_cycle_at 8]
              (two_halves_cycle_at 7) (two_halves_cycle_at 8) two_slot_config_wf)
    as (w2 & Hrun & _ & Hfs).
  - reflexivity.
  - repeat constructor; apply two_halves_cycle_at_completes.
  - repeat constructor; apply two_halves_cycle_at_completes.
  - reflexivity.
  - reflexivity.
  - reflexivity.
  - reflexivity.
  - reflexivity.
  - unfold tm_wf. cbn. lia.
  - unfold tm_wf. cbn. lia.
  - discriminate.
  - exists w2. split; [exact Hrun|]. exact (Hfs ∅).
Defined.
